(** * OpenRGB SDK client: protocol engine

    A shallow embedding of the protocol engine of the TypeScript client
    ([src/client.ts], [src/device.ts]): the byte-buffer primitives of
    Node's [Buffer], the binary codec of [device.ts], the outbound mode
    payload of [sendMode], the [readable] handler that frames packets,
    the [resolve] correlator, version negotiation at the end of
    [connect], and [disconnect].

    Conventions.  JavaScript numbers that the code uses as integers are
    [Z]; byte offsets and loop counters are [nat]; a [Buffer] is a
    [list byte].  A JavaScript exception is the [Throw] constructor of
    [result].  JavaScript strings are lists of UTF-16 code units
    ([jsstring]); the literal capability tags are Rocq [string]s. *)

From Stdlib Require Import String Ascii ZArith NArith QArith List Bool Lia.
From Stdlib Require Import Init.Byte Strings.Byte.
Import ListNotations.

Local Open Scope Z_scope.

(** ** Exceptions *)

Inductive JsError : Type :=
| RangeError
| TypeError
| Error (msg : string).

Inductive result (A : Type) : Type :=
| Ok (a : A)
| Throw (e : JsError).

Arguments Ok {A} a.
Arguments Throw {A} e.

Definition bind {A B : Type} (r : result A) (k : A -> result B) : result B :=
  match r with
  | Ok a => k a
  | Throw e => Throw e
  end.

Notation "x <- e ;; k" := (bind e (fun x => k))
  (at level 61, e at next level, right associativity).
Notation "' p <- e ;; k" := (bind e (fun x => let p := x in k))
  (at level 61, p pattern, e at next level, right associativity).

(** ** Node's Buffer *)

Module Buf.

Definition Buffer : Type := list byte.

Definition byte_val (b : byte) : Z := Z.of_N (Byte.to_N b).

(** Storing a number into a byte cell keeps its low eight bits. *)
Definition byte_of (z : Z) : byte :=
  match Byte.of_N (Z.to_N (z mod 256)) with
  | Some b => b
  | None => x00
  end.

(** [buffer.slice(start, end)] for non-negative indices; both ends are
    clamped to the buffer. *)
Definition slice (b : Buffer) (s e : nat) : Buffer :=
  firstn (e - s) (skipn s b).

Definition readUInt8 (b : Buffer) (off : nat) : result Z :=
  match skipn off b with
  | b0 :: _ => Ok (byte_val b0)
  | _ => Throw RangeError
  end.

Definition readUInt16LE (b : Buffer) (off : nat) : result Z :=
  match skipn off b with
  | b0 :: b1 :: _ => Ok (byte_val b0 + 256 * byte_val b1)
  | _ => Throw RangeError
  end.

Definition readUInt32LE (b : Buffer) (off : nat) : result Z :=
  match skipn off b with
  | b0 :: b1 :: b2 :: b3 :: _ =>
      Ok (byte_val b0 + 256 * byte_val b1
          + 65536 * byte_val b2 + 16777216 * byte_val b3)
  | _ => Throw RangeError
  end.

Definition readInt32LE (b : Buffer) (off : nat) : result Z :=
  u <- readUInt32LE b off ;;
  Ok (if 2147483648 <=? u then u - 4294967296 else u).

(** Little-endian bytes of a value already known to fit. *)
Definition le16 (v : Z) : Buffer :=
  [byte_of v; byte_of (v / 256)].

Definition le32 (v : Z) : Buffer :=
  [byte_of v; byte_of (v / 256); byte_of (v / 65536); byte_of (v / 16777216)].

(** [buffer.writeUInt32LE(value)] into a fresh 4-byte cell: a value
    outside the unsigned 32-bit range is a [RangeError]. *)
Definition writeUInt32LE (v : Z) : result Buffer :=
  if (0 <=? v) && (v <=? 4294967295) then Ok (le32 v) else Throw RangeError.

(** [a.equals(b)] *)
Fixpoint equals (a b : Buffer) : bool :=
  match a, b with
  | [], [] => true
  | x :: a', y :: b' => Byte.eqb x y && equals a' b'
  | _, _ => false
  end.

(** [Buffer.alloc(n)]: [n] zero bytes. *)
Definition alloc (n : nat) : Buffer := repeat x00 n.

(** The buffer with [bytes] stored from [offset] on (the caller has
    checked that they fit). *)
Fixpoint store (b : Buffer) (offset : nat) (bytes : Buffer) : Buffer :=
  match offset, b with
  | O, _ => bytes ++ skipn (List.length bytes) b
  | S o, x :: b' => x :: store b' o bytes
  | S _, [] => []
  end.

(** [buffer.writeUInt8(value, offset)]: a value outside 0..255 and an
    offset outside the buffer are [RangeError]s. *)
Definition writeUInt8_at (b : Buffer) (value : Z) (offset : nat)
  : result Buffer :=
  if (0 <=? value) && (value <=? 255) then
    if (offset + 1 <=? List.length b)%nat
    then Ok (store b offset [byte_of value])
    else Throw RangeError
  else Throw RangeError.

(** [buffer.writeUInt16LE(value, offset)] *)
Definition writeUInt16LE_at (b : Buffer) (value : Z) (offset : nat)
  : result Buffer :=
  if (0 <=? value) && (value <=? 65535) then
    if (offset + 2 <=? List.length b)%nat
    then Ok (store b offset (le16 value))
    else Throw RangeError
  else Throw RangeError.


End Buf.

Export Buf.

(** ** bufferpack (the packing library used by the client)

    [pack] clamps an integer to the range of its format letter and then
    stores it little-endian ([<]): [I] is an unsigned 32-bit, [H] an
    unsigned 16-bit and [B] an unsigned 8-bit value; [x] is a zero pad
    byte; [Ns] stores the first [N] code units of a string, one byte
    each.  A value that is [undefined] packs as zero. *)

Module Bufferpack.

Definition clamp (lo hi v : Z) : Z :=
  if v <? lo then lo else if hi <? v then hi else v.

Definition pack_I (v : Z) : Buffer := le32 (clamp 0 4294967295 v).
Definition pack_H (v : Z) : Buffer := le16 (clamp 0 65535 v).
Definition pack_B (v : Z) : Buffer := [byte_of (clamp 0 255 v)].

Definition pack_Is (vs : list Z) : Buffer := concat (map pack_I vs).

Definition undefined_as_zero (o : option Z) : Z :=
  match o with Some v => v | None => 0 end.

End Bufferpack.

(** ** Strings *)

(** A JavaScript string, as its sequence of UTF-16 code units. *)
Definition jsstring : Type := list Z.

(** What [bufferpack] writes for the format [Ns] with [N] the string's
    length: the code unit of every character, truncated to a byte by
    the buffer store. *)
Definition pack_s (s : jsstring) : Buffer := map byte_of s.

(** The text that a decoder yields on bytes that are all ASCII. *)
Definition ascii_text (bs : Buffer) : jsstring := map byte_val bs.

Definition is_ascii (b : byte) : Prop := byte_val b < 128.

(** ** device.ts: the inbound codec *)

Module Classes.

Record RGBColor : Type := {
  red : Z;
  green : Z;
  blue : Z
}.

(** [classes/Mode.ts]; the optional brightness fields are [None] when
    the property is absent. *)
Record Mode : Type := {
  id : Z;
  name : jsstring;
  value : Z;
  flags : Z;
  speedMin : Z;
  speedMax : Z;
  brightnessMin : option Z;
  brightnessMax : option Z;
  colorMin : Z;
  colorMax : Z;
  speed : Z;
  brightness : option Z;
  direction : Z;
  colorMode : Z;
  colors : list RGBColor;
  flagList : list string
}.

End Classes.

(** [classes/Segment.ts] *)
Module Segment.
Record Segment : Type := {
  name : jsstring;
  type : Z;
  start : Z;
  length : Z
}.
End Segment.

(** [classes/Matrix.ts]; [size] is the quotient [matrixSize / 4 - 2] of
    JavaScript numbers, a rational; a key is [None] where the array
    holds [undefined]. *)
Module Matrix.
Record Matrix : Type := {
  size : Q;
  height : Z;
  width : Z;
  keys : list (list (option Z))
}.
End Matrix.

(** [classes/Zone.ts] *)
Module Zone.
Record Zone : Type := {
  name : jsstring;
  id : Z;
  type : Z;
  ledsMin : Z;
  ledsMax : Z;
  ledsCount : Z;
  resizable : bool;
  matrix : option Matrix.Matrix;
  segments : option (list Segment.Segment)
}.
End Zone.

(** An entry of [Device.leds]. *)
Module Led.
Record Led : Type := {
  name : jsstring;
  value : Z
}.
End Led.

Module Device.

Import Classes.

Section Decode.

(** [new TextDecoder().decode]: the platform's UTF-8 decoder. *)
Variable TextDecoder_decode : Buffer -> jsstring.

Record StringRead : Type := {
  text : jsstring;
  length : Z
}.

Definition readString (buffer : Buffer) (offset : nat) : result StringRead :=
  length <- readUInt16LE buffer offset ;;
  let text :=
    TextDecoder_decode
      (slice buffer (offset + 2) (offset + Z.to_nat length + 1)) in
  Ok {| text := text; length := length + 2 |}.

Definition readColor (buffer : Buffer) (offset : nat) : result RGBColor :=
  red <- readUInt8 buffer offset ;;
  green <- readUInt8 buffer (offset + 1) ;;
  blue <- readUInt8 buffer (offset + 2) ;;
  Ok {| red := red; green := green; blue := blue |}.

(** The colour loops: [count] colours of four bytes each from [offset]. *)
Fixpoint readColors (buffer : Buffer) (count : nat) (offset : nat)
  : result (list RGBColor * nat) :=
  match count with
  | O => Ok ([], offset)
  | S n =>
      c <- readColor buffer offset ;;
      '(cs, off) <- readColors buffer n (offset + 4) ;;
      Ok (c :: cs, off)
  end.

(** The capability tags of OpenRGB, bit 0 first. *)
Definition flags_names : list string :=
  ["speed"; "directionLR"; "directionUD"; "directionHV"; "brightness";
   "perLedColor"; "modeSpecificColor"; "randomColor"; "manualSave";
   "automaticSave"]%string.

(** [n.toString(2)] for a non-negative integer: most significant digit
    first, ["0"] for zero. *)
Fixpoint binary_digits (p : positive) (acc : list ascii) : list ascii :=
  match p with
  | xH => "1"%char :: acc
  | xO q => binary_digits q ("0"%char :: acc)
  | xI q => binary_digits q ("1"%char :: acc)
  end.

Definition toString2 (n : Z) : list ascii :=
  match n with
  | Zpos p => binary_digits p []
  | _ => ["0"%char]
  end.

(** [Array(k).concat(digits).reverse()]: [k] holes, then the digits,
    reversed; a hole is [None].  [Array] of a negative length throws. *)
Definition flagcheck_of (modeFlags : Z) : result (list (option ascii)) :=
  let flagcheck_str := toString2 modeFlags in
  let k := Z.of_nat (List.length flags_names)
           - Z.of_nat (List.length flagcheck_str) in
  if k <? 0 then Throw RangeError
  else Ok (rev (repeat None (Z.to_nat k) ++ map Some flagcheck_str)).

(** [el == "1"], false on a hole ([forEach] skips holes). *)
Definition is_one (el : option ascii) : bool :=
  match el with
  | Some c => Ascii.eqb c "1"%char
  | None => false
  end.

(** Truthiness of [Number(flagcheck[i])]: [Number("1")] is 1,
    [Number("0")] is 0 and [Number(undefined)] is NaN. *)
Definition Number_truthy (flagcheck : list (option ascii)) (i : nat) : bool :=
  is_one (nth i flagcheck None).

(** The [forEach] that pushes [flags[i]] for every ["1"]. *)
Fixpoint push_flags (flagcheck : list (option ascii)) (i : nat) : list string :=
  match flagcheck with
  | [] => []
  | el :: rest =>
      (if is_one el then [nth i flags_names ""%string] else [])
        ++ push_flags rest (S i)
  end.

(** One iteration of the loop of [readModes]: the mode record at
    [offset], for loop index [modeIndex].  Returns the mode and the
    offset after it. *)
Definition readMode (buffer : Buffer) (offset : nat) (protocolVersion : Z)
    (modeIndex : Z) : result (Mode * nat) :=
  (* name and value *)
  s <- readString buffer offset ;;
  let modeName := text s in
  let offset := (offset + Z.to_nat (length s))%nat in
  modeValue <- readInt32LE buffer offset ;;
  let offset := (offset + 4)%nat in
  (* flags and speeds *)
  modeFlags <- readUInt32LE buffer offset ;;
  speedMin <- readUInt32LE buffer (offset + 4) ;;
  speedMax <- readUInt32LE buffer (offset + 8) ;;
  (* protocol 3 and higher: brightness bounds *)
  '(brightnessMin, brightnessMax, offset) <-
    (if 3 <=? protocolVersion then
       bmin <- readUInt32LE buffer (offset + 12) ;;
       bmax <- readUInt32LE buffer (offset + 16) ;;
       Ok (Some bmin, Some bmax, (offset + 8)%nat)
     else Ok (None, None, offset)) ;;
  colorMin <- readUInt32LE buffer (offset + 12) ;;
  colorMax <- readUInt32LE buffer (offset + 16) ;;
  speed <- readUInt32LE buffer (offset + 20) ;;
  (* protocol 3 and higher: brightness *)
  '(brightness, offset) <-
    (if 3 <=? protocolVersion then
       b <- readUInt32LE buffer (offset + 24) ;;
       Ok (Some b, (offset + 4)%nat)
     else Ok (None, offset)) ;;
  direction <- readUInt32LE buffer (offset + 24) ;;
  colorMode <- readUInt32LE buffer (offset + 28) ;;
  let offset := (offset + 32)%nat in
  colorLength <- readUInt16LE buffer offset ;;
  let offset := (offset + 2)%nat in
  (* the lookup built from the flags *)
  flagcheck <- flagcheck_of modeFlags ;;
  let flagList := push_flags flagcheck 0 in
  let f := Number_truthy flagcheck in
  let flagList :=
    if f 1%nat || f 2%nat || f 3%nat
    then flagList ++ ["direction"%string] else flagList in
  let '(speedMin, speedMax, speed) :=
    if negb (f 0%nat) then (0, 0, 0) else (speedMin, speedMax, speed) in
  let '(brightnessMin, brightnessMax, brightness) :=
    if (3 <=? protocolVersion) && negb (f 4%nat)
    then (Some 0, Some 0, Some 0)
    else (brightnessMin, brightnessMax, brightness) in
  let direction :=
    if negb (f 1%nat) && negb (f 2%nat) && negb (f 3%nat)
    then 0 else direction in
  let '(colorLength, colorMin, colorMax) :=
    if (negb (f 5%nat) && negb (f 6%nat) && negb (f 7%nat))
       || (colorLength =? 0)
    then (0, 0, 0) else (colorLength, colorMin, colorMax) in
  (* the colours *)
  '(colors, offset) <- readColors buffer (Z.to_nat colorLength) offset ;;
  let mode :=
    {| id := modeIndex;
       name := modeName;
       value := modeValue;
       flags := modeFlags;
       speedMin := speedMin;
       speedMax := speedMax;
       brightnessMin := if 3 <=? protocolVersion then brightnessMin else None;
       brightnessMax := if 3 <=? protocolVersion then brightnessMax else None;
       colorMin := colorMin;
       colorMax := colorMax;
       speed := speed;
       brightness := if 3 <=? protocolVersion then brightness else None;
       direction := direction;
       colorMode := colorMode;
       colors := colors;
       flagList := flagList |} in
  Ok (mode, offset).

(** The loop of [readModes], from index [modeIndex] for [count] more
    iterations. *)
Fixpoint readModes_from (buffer : Buffer) (count : nat) (modeIndex : Z)
    (offset : nat) (protocolVersion : Z) : result (list Mode * nat) :=
  match count with
  | O => Ok ([], offset)
  | S n =>
      '(mode, offset) <- readMode buffer offset protocolVersion modeIndex ;;
      '(modes, offset) <-
        readModes_from buffer n (modeIndex + 1) offset protocolVersion ;;
      Ok (mode :: modes, offset)
  end.

Definition readModes (buffer : Buffer) (modeCount : nat) (offset : nat)
    (protocolVersion : Z) : result (list Mode * nat) :=
  readModes_from buffer modeCount 0 offset protocolVersion.

(** *** Zones *)

(** The inner loop of the matrix: [width] keys of one row. *)
Fixpoint readMatrixRow (buffer : Buffer) (width : nat) (offset : nat)
  : result (list (option Z) * nat) :=
  match width with
  | O => Ok ([], offset)
  | S w =>
      led <- readUInt32LE buffer offset ;;
      '(row, off) <- readMatrixRow buffer w (offset + 4) ;;
      Ok ((if led =? 4294967295 then None else Some led) :: row, off)
  end.

(** The outer loop of the matrix: [height] rows. *)
Fixpoint readMatrixRows (buffer : Buffer) (height width : nat) (offset : nat)
  : result (list (list (option Z)) * nat) :=
  match height with
  | O => Ok ([], offset)
  | S h =>
      '(row, off) <- readMatrixRow buffer width offset ;;
      '(rows, off) <- readMatrixRows buffer h width off ;;
      Ok (row :: rows, off)
  end.

(** The loop over the segments of a zone. *)
Fixpoint readSegments (buffer : Buffer) (count : nat) (offset : nat)
  : result (list Segment.Segment * nat) :=
  match count with
  | O => Ok ([], offset)
  | S n =>
      name <- readString buffer offset ;;
      let offset := (offset + Z.to_nat (length name))%nat in
      type <- readInt32LE buffer offset ;;
      start <- readUInt32LE buffer (offset + 4) ;;
      len <- readUInt32LE buffer (offset + 8) ;;
      '(rest, off) <- readSegments buffer n (offset + 12) ;;
      Ok ({| Segment.name := text name; Segment.type := type;
             Segment.start := start; Segment.length := len |} :: rest, off)
  end.

(** One iteration of the loop of [readZones]. *)
Definition readZone (buffer : Buffer) (offset : nat) (protocolVersion : Z)
    (zoneIndex : Z) : result (Zone.Zone * nat) :=
  s <- readString buffer offset ;;
  let zoneName := text s in
  let offset := (offset + Z.to_nat (length s))%nat in
  zoneType <- readInt32LE buffer offset ;;
  let offset := (offset + 4)%nat in
  ledsMin <- readUInt32LE buffer offset ;;
  ledsMax <- readUInt32LE buffer (offset + 4) ;;
  ledsCount <- readUInt32LE buffer (offset + 8) ;;
  let offset := (offset + 12)%nat in
  let resizable := negb (ledsMin =? ledsMax) in
  matrixSize <- readUInt16LE buffer offset ;;
  let offset := (offset + 2)%nat in
  '(matrix, offset) <-
    (if matrixSize =? 0 then Ok (None, offset)
     else
       height <- readUInt32LE buffer offset ;;
       width <- readUInt32LE buffer (offset + 4) ;;
       '(keys, off) <-
         readMatrixRows buffer (Z.to_nat height) (Z.to_nat width)
           (offset + 8) ;;
       Ok (Some {| Matrix.size := (inject_Z matrixSize / 4 - 2)%Q;
                   Matrix.height := height;
                   Matrix.width := width;
                   Matrix.keys := keys |}, off)) ;;
  '(segments, offset) <-
    (if 4 <=? protocolVersion then
       segmentCount <- readUInt16LE buffer offset ;;
       '(segs, off) <-
         readSegments buffer (Z.to_nat segmentCount) (offset + 2) ;;
       Ok (Some segs, off)
     else Ok (None, offset)) ;;
  Ok ({| Zone.name := zoneName;
         Zone.id := zoneIndex;
         Zone.type := zoneType;
         Zone.ledsMin := ledsMin;
         Zone.ledsMax := ledsMax;
         Zone.ledsCount := ledsCount;
         Zone.resizable := resizable;
         Zone.matrix := matrix;
         Zone.segments := segments |}, offset).

Fixpoint readZones_from (buffer : Buffer) (count : nat) (zoneIndex : Z)
    (offset : nat) (protocolVersion : Z) : result (list Zone.Zone * nat) :=
  match count with
  | O => Ok ([], offset)
  | S n =>
      '(zone, offset) <- readZone buffer offset protocolVersion zoneIndex ;;
      '(zones, offset) <-
        readZones_from buffer n (zoneIndex + 1) offset protocolVersion ;;
      Ok (zone :: zones, offset)
  end.

Definition readZones (buffer : Buffer) (zoneCount : nat) (offset : nat)
    (protocolVersion : Z) : result (list Zone.Zone * nat) :=
  readZones_from buffer zoneCount 0 offset protocolVersion.

(** *** The device *)

(** The loop over the LEDs. *)
Fixpoint readLeds (buffer : Buffer) (count : nat) (offset : nat)
  : result (list Led.Led * nat) :=
  match count with
  | O => Ok ([], offset)
  | S n =>
      s <- readString buffer offset ;;
      let offset := (offset + Z.to_nat (length s))%nat in
      value <- readUInt32LE buffer offset ;;
      '(rest, off) <- readLeds buffer n (offset + 4) ;;
      Ok ({| Led.name := text s; Led.value := value |} :: rest, off)
  end.

Record Device : Type := {
  deviceId : Z;
  type : Z;
  name : jsstring;
  vendor : option jsstring;
  description : jsstring;
  version : jsstring;
  serial : jsstring;
  location : jsstring;
  activeMode : Z;
  modes : list Mode;
  zones : list Zone.Zone;
  leds : list Led.Led;
  colors : list RGBColor
}.

(** The constructor of [Device]: the decoding of the reply to a
    controller-data request. *)
Definition new_Device (buffer : Buffer) (deviceId : Z) (protocolVersion : Z)
  : result Device :=
  let offset := 4%nat in
  type <- readInt32LE buffer offset ;;
  let offset := (offset + 4)%nat in
  nameS <- readString buffer offset ;;
  let offset := (offset + Z.to_nat (length nameS))%nat in
  '(vendor, offset) <-
    (if 1 <=? protocolVersion then
       vendorS <- readString buffer offset ;;
       Ok (Some (text vendorS), (offset + Z.to_nat (length vendorS))%nat)
     else Ok (None, offset)) ;;
  descriptionS <- readString buffer offset ;;
  let offset := (offset + Z.to_nat (length descriptionS))%nat in
  versionS <- readString buffer offset ;;
  let offset := (offset + Z.to_nat (length versionS))%nat in
  serialS <- readString buffer offset ;;
  let offset := (offset + Z.to_nat (length serialS))%nat in
  locationS <- readString buffer offset ;;
  let offset := (offset + Z.to_nat (length locationS))%nat in
  modeCount <- readUInt16LE buffer offset ;;
  let offset := (offset + 2)%nat in
  activeMode <- readInt32LE buffer offset ;;
  let offset := (offset + 4)%nat in
  '(modes, offset) <-
    readModes buffer (Z.to_nat modeCount) offset protocolVersion ;;
  zoneCount <- readUInt16LE buffer offset ;;
  let offset := (offset + 2)%nat in
  '(zones, offset) <-
    readZones buffer (Z.to_nat zoneCount) offset protocolVersion ;;
  ledCount <- readUInt16LE buffer offset ;;
  let offset := (offset + 2)%nat in
  '(leds, offset) <- readLeds buffer (Z.to_nat ledCount) offset ;;
  colorCount <- readUInt16LE buffer offset ;;
  let offset := (offset + 2)%nat in
  '(colors, offset) <- readColors buffer (Z.to_nat colorCount) offset ;;
  Ok {| deviceId := deviceId;
        type := type;
        name := text nameS;
        vendor := vendor;
        description := text descriptionS;
        version := text versionS;
        serial := text serialS;
        location := text locationS;
        activeMode := activeMode;
        modes := modes;
        zones := zones;
        leds := leds;
        colors := colors |}.

End Decode.

End Device.

(** ** client.ts *)

Module Client.

Definition HEADER_SIZE : nat := 16.

(** The largest size that [socket.read] accepts: 1 GiB. *)
Definition MAX_HWM : Z := 1073741824.
Definition CLIENT_PROTOCOL_VERSION : Z := 5.

(** The bytes of ["ORGB"]. *)
Definition magic : Buffer := [x4f; x52; x47; x42].

(** [classes/Settings.ts]: [None] when the settings object has no
    [forceProtocolVersion] key. *)
Record Settings : Type := {
  forceProtocolVersion : option Z
}.

(** [classes/ResolveObject.ts]: a pending request.  [resolve] names the
    promise that [readMessage] created for it, [header] is the property
    the [readable] handler adds to the entry at the head of the queue. *)
Record ResolveObject : Type := {
  resolve : nat;
  commandId : Z;
  deviceId : Z;
  header : option Buffer
}.

(** The socket, as far as the client observes it: the bytes that have
    arrived and were not read yet.  The stream is open. *)
Record Socket : Type := {
  buffered : Buffer
}.

Record Client : Type := {
  name : jsstring;
  port : Z;
  host : jsstring;
  isConnected : bool;
  protocolVersion : option Z;
  settings : Settings;
  resolver : list ResolveObject;
  currentPacketLength : Z;
  socket : option Socket;
  (** number of promises created so far by [readMessage] *)
  promises : nat
}.

(** What a run of client code does to the outside. *)
Inductive Event : Type :=
| Packet (buffer : Buffer)              (* the handler hands a packet to [resolve] *)
| Fulfilled (promise : nat) (payload : Buffer)   (* a pending promise is resolved *)
| Emitted (event : string)              (* [this.emit(event)] *)
| Wrote (packet : Buffer)               (* [socket.write(packet)] *)
| Ended.                                (* [socket.end()] *)

Definition set_socket (c : Client) (s : option Socket) : Client :=
  {| name := name c; port := port c; host := host c;
     isConnected := isConnected c; protocolVersion := protocolVersion c;
     settings := settings c; resolver := resolver c;
     currentPacketLength := currentPacketLength c;
     socket := s; promises := promises c |}.

Definition set_resolver (c : Client) (r : list ResolveObject) : Client :=
  {| name := name c; port := port c; host := host c;
     isConnected := isConnected c; protocolVersion := protocolVersion c;
     settings := settings c; resolver := r;
     currentPacketLength := currentPacketLength c;
     socket := socket c; promises := promises c |}.

Definition set_currentPacketLength (c : Client) (n : Z) : Client :=
  {| name := name c; port := port c; host := host c;
     isConnected := isConnected c; protocolVersion := protocolVersion c;
     settings := settings c; resolver := resolver c;
     currentPacketLength := n;
     socket := socket c; promises := promises c |}.

Definition set_isConnected (c : Client) (b : bool) : Client :=
  {| name := name c; port := port c; host := host c;
     isConnected := b; protocolVersion := protocolVersion c;
     settings := settings c; resolver := resolver c;
     currentPacketLength := currentPacketLength c;
     socket := socket c; promises := promises c |}.

Definition set_protocolVersion (c : Client) (v : option Z) : Client :=
  {| name := name c; port := port c; host := host c;
     isConnected := isConnected c; protocolVersion := v;
     settings := settings c; resolver := resolver c;
     currentPacketLength := currentPacketLength c;
     socket := socket c; promises := promises c |}.

Definition set_promises (c : Client) (n : nat) : Client :=
  {| name := name c; port := port c; host := host c;
     isConnected := isConnected c; protocolVersion := protocolVersion c;
     settings := settings c; resolver := resolver c;
     currentPacketLength := currentPacketLength c;
     socket := socket c; promises := n |}.

Definition set_header (r : ResolveObject) (h : Buffer) : ResolveObject :=
  {| resolve := resolve r; commandId := commandId r; deviceId := deviceId r;
     header := Some h |}.

(** The constructor; [None] for [settings] is an omitted argument, which
    takes the default [{forceProtocolVersion: 0}]. *)
Definition constructor (name : jsstring) (port : Z) (host : jsstring)
    (settings : option Settings) : Client :=
  let settings :=
    match settings with
    | Some s => s
    | None => {| forceProtocolVersion := Some 0 |}
    end in
  {| name := match name with [] => ascii_text [x6e; x6f; x64; x65; x6a; x73]
             | _ => name end;
     port := if port =? 0 then 6742 else port;
     host := match host with
             | [] => ascii_text [x31; x32; x37; x2e; x30; x2e; x30; x2e; x31]
             | _ => host end;
     isConnected := false;
     protocolVersion := None;
     settings := settings;
     resolver := [];
     currentPacketLength := 0;
     socket := None;
     promises := 0 |}.

(** *** Headers *)

Definition encodeHeader (commandId length deviceId : Z) : result Buffer :=
  d <- writeUInt32LE deviceId ;;
  c <- writeUInt32LE commandId ;;
  l <- writeUInt32LE length ;;
  Ok (magic ++ d ++ c ++ l).

Record Header : Type := {
  h_deviceId : Z;
  h_commandId : Z;
  h_length : Z
}.

Definition decodeHeader (buffer : Buffer) : result Header :=
  deviceId <- readUInt32LE buffer 4 ;;
  commandId <- readUInt32LE buffer 8 ;;
  length <- readUInt32LE buffer 12 ;;
  Ok {| h_deviceId := deviceId; h_commandId := commandId; h_length := length |}.

(** [utils.command]: the numeric command identifiers, a registry that
    the client receives from outside. *)
Record Commands : Type := {
  requestProtocolVersion : Z;
  setClientName : Z;
  deviceListUpdated : Z;
  updateMode : Z;
  saveMode : Z
}.

Section Engine.

Variable command : Commands.

(** [new TextEncoder().encode]: the platform's UTF-8 encoder. *)
Variable TextEncoder_encode : jsstring -> Buffer.

(** *** The correlator *)

(** [array.findIndex(p)]; [None] is the result -1. *)
Fixpoint findIndex (p : ResolveObject -> bool) (l : list ResolveObject)
  : option nat :=
  match l with
  | [] => None
  | r :: rest =>
      if p r then Some O
      else match findIndex p rest with
           | Some i => Some (S i)
           | None => None
           end
  end.

(** [array.splice(index, 1)]: the array without the element at [index]. *)
Fixpoint splice (index : nat) (l : list ResolveObject) : list ResolveObject :=
  match index, l with
  | _, [] => []
  | O, _ :: rest => rest
  | S i, r :: rest => r :: splice i rest
  end.

(** The predicate handed to [findIndex]: the entry has the packet's
    device and command. *)
Definition answers (h : Header) (resolver : ResolveObject) : bool :=
  (deviceId resolver =? h_deviceId h) && (commandId resolver =? h_commandId h).

(** The function [resolve], bound to the client.  The third component
    is the exception, if one is thrown. *)
Definition resolve_packet (c : Client) (buffer : Buffer)
  : Client * list Event * option JsError :=
  match decodeHeader buffer with
  | Throw e => (c, [], Some e)
  | Ok h =>
      if h_commandId h =? deviceListUpdated command then
        (c, [Emitted "deviceListUpdated"], None)
      else
        match resolver c with
        | [] => (c, [], None)
        | _ :: _ =>
            match findIndex (answers h) (resolver c) with
            | None => (c, [], None)
            | Some index =>
                match nth_error (resolver c) index with
                | Some r =>
                    (set_resolver c (splice index (resolver c)),
                     [Fulfilled (resolve r) (skipn 16 buffer)], None)
                | None => (c, [], Some TypeError)
                end
            end
        end
  end.

(** *** The readable handler *)

(** [socket.read(n)]: a size above 1 GiB is a [RangeError], whatever is
    buffered; else [n] bytes if that many are buffered, else null
    ([None]). *)
Definition socket_read (n : nat) (s : Socket)
  : result (option (Buffer * Socket)) :=
  if MAX_HWM <? Z.of_nat n then Throw RangeError
  else if (n <=? List.length (buffered s))%nat
  then Ok (Some (firstn n (buffered s),
                 {| buffered := skipn n (buffered s) |}))
  else Ok None.

(** How a run of the handler ends. *)
Inductive Exit : Type :=
| Starved            (* [read] returned null: lines 88 and 113 *)
| BadMagic           (* the magic check failed: line 91 *)
| Threw (e : JsError).

Inductive Flow : Type :=
| Continue
| Stop (x : Exit).

Definition after_resolve (r : Client * list Event * option JsError)
    (buffer : Buffer) : Client * list Event * Flow :=
  let '(c, ev, exn) := r in
  (c, Packet buffer :: ev,
   match exn with Some e => Stop (Threw e) | None => Continue end).

(** The first [if] of the loop body: the header. *)
Definition header_phase (c : Client) : Client * list Event * Flow :=
  if currentPacketLength c =? 0 then
    match socket c with
    | None => (c, [], Stop (Threw TypeError))
    | Some s =>
        match socket_read HEADER_SIZE s with
        | Throw e => (c, [], Stop (Threw e))
        | Ok None => (c, [], Stop Starved)
        | Ok (Some (header, s')) =>
            let c := set_socket c (Some s') in
            if negb (equals (slice header 0 4) magic) then
              (c, [], Stop BadMagic)
            else
              match readUInt32LE header 12 with
              | Throw e => (c, [], Stop (Threw e))
              | Ok len =>
                  let c := set_currentPacketLength c len in
                  if 0 <? len then
                    match resolver c with
                    | r0 :: rest =>
                        (set_resolver c (set_header r0 header :: rest),
                         [], Continue)
                    | [] => (c, [], Continue)
                    end
                  else
                    match resolver c with
                    | _ :: _ => after_resolve (resolve_packet c header) header
                    | [] => (c, [], Continue)
                    end
              end
        end
    end
  else (c, [], Continue).

(** The second [if] of the loop body: the payload. *)
Definition payload_phase (c : Client) : Client * list Event * Flow :=
  if 0 <? currentPacketLength c then
    match socket c with
    | None => (c, [], Stop (Threw TypeError))
    | Some s =>
        match socket_read (Z.to_nat (currentPacketLength c)) s with
        | Throw e => (c, [], Stop (Threw e))
        | Ok None => (c, [], Stop Starved)
        | Ok (Some (res, s')) =>
            let c := set_currentPacketLength (set_socket c (Some s')) 0 in
            match resolver c with
            | r0 :: _ =>
                match header r0 with
                | Some h => after_resolve (resolve_packet c (h ++ res)) (h ++ res)
                | None => (c, [], Stop (Threw TypeError))
                end
            | [] => (c, [], Continue)
            end
        end
    end
  else (c, [], Continue).

Definition loop_body (c : Client) : Client * list Event * Flow :=
  match header_phase c with
  | (c1, e1, Continue) =>
      let '(c2, e2, f) := payload_phase c1 in (c2, e1 ++ e2, f)
  | r => r
  end.

(** [while (true)], with a bound on the number of iterations; [None]
    when the bound is reached. *)
Fixpoint readable_loop (fuel : nat) (c : Client)
  : option (Client * list Event * Exit) :=
  match fuel with
  | O => None
  | S fuel' =>
      match loop_body c with
      | (c1, e1, Stop x) => Some (c1, e1, x)
      | (c1, e1, Continue) =>
          match readable_loop fuel' c1 with
          | Some (c2, e2, x) => Some (c2, e1 ++ e2, x)
          | None => None
          end
      end
  end.

Definition unread (c : Client) : nat :=
  match socket c with
  | Some s => List.length (buffered s)
  | None => O
  end.

(** The handler of the [readable] event.  [currentPacketLength] is
    never negative (it is 0 or comes from [readUInt32LE]), so every
    iteration that goes on consumes a byte and the bound is not
    reached (lemma [readable_loop_total]). *)
Definition on_readable (c : Client) : Client * list Event * Exit :=
  match readable_loop (S (unread c)) c with
  | Some r => r
  | None => (c, [], Starved)
  end.

(** The runs of the loop as a relation: [Runs c (c', ev, x)] when the
    loop started in [c] leaves through exit [x] in state [c'] after
    the events [ev]. *)
Inductive Runs : Client -> Client * list Event * Exit -> Prop :=
| Runs_stop : forall c c1 e1 x,
    loop_body c = (c1, e1, Stop x) ->
    Runs c (c1, e1, x)
| Runs_continue : forall c c1 e1 c2 e2 x,
    loop_body c = (c1, e1, Continue) ->
    Runs c1 (c2, e2, x) ->
    Runs c (c2, e1 ++ e2, x).

(** The promises of the pending requests, oldest first. *)
Definition pending (c : Client) : list nat := map resolve (resolver c).

(** What a piece of the handler that takes [c] to [c1] with the events
    [ev] keeps: the connection flag, the promise counter and the
    presence of the socket; entries only leave the queue; a fulfilled
    promise was pending; and there are no events on an empty queue. *)
Definition keeps (c c1 : Client) (ev : list Event) : Prop :=
  isConnected c1 = isConnected c
  /\ promises c1 = promises c
  /\ (socket c1 = None -> socket c = None)
  /\ incl (pending c1) (pending c)
  /\ (forall p payload, In (Fulfilled p payload) ev -> In p (pending c))
  /\ (resolver c = [] -> ev = []).

(** Bytes arrive on the socket. *)
Definition arrive (c : Client) (chunk : Buffer) : Client :=
  match socket c with
  | Some s => set_socket c (Some {| buffered := buffered s ++ chunk |})
  | None => c
  end.

(** *** Sending and registering *)

Definition sendMessage (c : Client) (commandId : Z) (buffer : Buffer)
    (deviceId : Z) : result (list Event) :=
  if negb (isConnected c) then
    Throw (Error "can't write to socket if not connected to OpenRGB")
  else
    header <- encodeHeader commandId (Z.of_nat (List.length buffer)) deviceId ;;
    match socket c with
    | Some _ => Ok [Wrote (header ++ buffer)]
    | None => Throw TypeError
    end.

(** [readMessage]: the new promise is number [promises c]; its entry is
    pushed at the end of the queue. *)
Definition readMessage (c : Client) (commandId deviceId : Z) : result Client :=
  if negb (isConnected c) then
    Throw (Error "can't read from socket if not connected to OpenRGB")
  else
    Ok (set_promises
          (set_resolver c
             (resolver c ++
              [{| resolve := promises c; commandId := commandId;
                  deviceId := deviceId; header := None |}]))
          (S (promises c))).

(** *** connect *)

(** How the wait for the connection ends. *)
Inductive ConnectionResult : Type :=
| SocketConnected
| SocketFailed
| ConnectTimeout.

(** [connect] up to line 76: a new socket; an error object is thrown,
    everything else (the timeout string too) marks the client as
    connected. *)
Definition connect_begin (c : Client) (res : ConnectionResult)
  : Client * option JsError :=
  let c := set_socket c (Some {| buffered := [] |}) in
  match res with
  | SocketFailed => (c, Some (Error "connection error"))
  | _ => (set_isConnected c true, None)
  end.

(** The version round trip: a reply that carries the server's version,
    or the timeout, which rejects with 0. *)
Inductive VersionReply : Type :=
| Replied (serverVersion : Z)
| TimedOut.

Definition serverProtocolVersion (reply : VersionReply) : Z :=
  match reply with
  | Replied v => v
  | TimedOut => 0
  end.

(** Truthiness of [settings.forceProtocolVersion]. *)
Definition force_truthy (s : Settings) : bool :=
  match forceProtocolVersion s with
  | Some f => negb (f =? 0)
  | None => false
  end.

(** Lines 131-136: the version the client settles on. *)
Definition negotiate (s : Settings) (serverProtocolVersion : Z) : option Z :=
  if force_truthy s && (serverProtocolVersion =? 0) then
    forceProtocolVersion s
  else
    let clientVersion :=
      match forceProtocolVersion s with
      | Some f => f
      | None => CLIENT_PROTOCOL_VERSION
      end in
    Some (if serverProtocolVersion <? clientVersion
          then serverProtocolVersion else clientVersion).

(** Lines 131-139: the end of [connect], once the version round trip is
    settled. *)
Definition connect_finish (c : Client) (reply : VersionReply)
  : Client * list Event * option JsError :=
  let c :=
    set_protocolVersion c (negotiate (settings c) (serverProtocolVersion reply)) in
  match sendMessage c (setClientName command)
          (TextEncoder_encode (name c) ++ [x00]) 0 with
  | Throw e => (c, [], Some e)
  | Ok ev => (c, ev ++ [Emitted "connect"], None)
  end.

(** *** disconnect *)

Definition disconnect (c : Client) : Client * list Event * option JsError :=
  match socket c with
  | None => (c, [], Some TypeError)
  | Some _ => (set_resolver (set_isConnected c false) [], [Ended], None)
  end.

(** *** The socket's close and error events *)

Definition on_close (c : Client) : Client * list Event :=
  (set_isConnected c false, [Emitted "disconnect"]).

(** The listener of the socket's [error] event (lines 70-73).
    [this.emit("error", err)] throws [err] when the client has no
    listener for [error], and line 72 is not reached. *)
Definition on_error (c : Client) (err : JsError) (listened : bool)
  : Client * list Event * option JsError :=
  if listened then (set_isConnected c false, [Emitted "error"], None)
  else (c, [], Some err).

(** *** The client as a transition system *)

Inductive Op : Type :=
| OpConnect (res : ConnectionResult)
| OpNegotiated (reply : VersionReply)
| OpReadMessage (commandId deviceId : Z)
| OpReadable (chunk : Buffer)
| OpClose
| OpError (err : JsError) (listened : bool)
| OpDisconnect.

Definition step (c : Client) (op : Op) : Client * list Event :=
  match op with
  | OpConnect res => (fst (connect_begin c res), [])
  | OpNegotiated reply => fst (connect_finish c reply)
  | OpReadMessage cmd dev =>
      match readMessage c cmd dev with
      | Ok c' => (c', [])
      | Throw _ => (c, [])
      end
  | OpReadable chunk => fst (on_readable (arrive c chunk))
  | OpClose => on_close c
  | OpError err listened => fst (on_error c err listened)
  | OpDisconnect => fst (disconnect c)
  end.

Fixpoint run (c : Client) (ops : list Op) : Client * list Event :=
  match ops with
  | [] => (c, [])
  | op :: rest =>
      let '(c1, e1) := step c op in
      let '(c2, e2) := run c1 rest in
      (c2, e1 ++ e2)
  end.

(** The notifications of a stream delivered in chunks: every chunk
    arrives and the handler runs on it.  The exit is that of the last
    run. *)
Fixpoint deliver (c : Client) (chunks : list Buffer)
  : Client * list Event * Exit :=
  match chunks with
  | [] => (c, [], Starved)
  | chunk :: rest =>
      let '(c1, e1, x1) := on_readable (arrive c chunk) in
      match rest with
      | [] => (c1, e1, x1)
      | _ :: _ =>
          let '(c2, e2, x2) := deliver c1 rest in (c2, e1 ++ e2, x2)
      end
  end.

(** The states a client can be in: what the constructor builds, and
    what a step leads to. *)
Inductive reachable : Client -> Prop :=
| reachable_new : forall name port host settings,
    reachable (constructor name port host settings)
| reachable_step : forall c op,
    reachable c -> reachable (fst (step c op)).

(** The invariant of the reachable states: without a socket the client
    is disconnected and waits for nothing, and every pending promise was
    created earlier. *)
Definition invariant (c : Client) : Prop :=
  (socket c = None -> isConnected c = false /\ resolver c = [])
  /\ Forall (fun p => (p < promises c)%nat) (pending c).

(** The pending requests without the headers that the handler notes on
    them: promise, command and device, oldest first. *)
Definition requests (c : Client) : list (nat * Z * Z) :=
  map (fun r => (resolve r, commandId r, deviceId r)) (resolver c).

(** A packet as it stands on the wire: the header that [encodeHeader]
    builds for its payload, then the payload. *)
Inductive wire_packet : Buffer -> Prop :=
| wire_packet_intro : forall deviceId commandId payload header,
    encodeHeader commandId (Z.of_nat (List.length payload)) deviceId
      = Ok header ->
    wire_packet (header ++ payload).

(** A packet whose payload one [socket.read] can take: at most 1 GiB
    after the header. *)
Definition readable_packet (packet : Buffer) : Prop :=
  Z.of_nat (List.length packet) <= Z.of_nat HEADER_SIZE + MAX_HWM.

(** What the packets of a stream are to lead to, packet by packet: while
    a request is pending, each packet is handed to [resolve]; a packet
    that finds the queue empty is dropped (lines 103 and 117). *)
Fixpoint dispatch (c : Client) (packets : list Buffer)
  : Client * list Event :=
  match packets with
  | [] => (c, [])
  | packet :: rest =>
      match resolver c with
      | [] => dispatch c rest
      | _ :: _ =>
          let '(c1, ev, _) := resolve_packet c packet in
          let '(c2, ev2) := dispatch c1 rest in
          (c2, Packet packet :: ev ++ ev2)
      end
  end.


(** The two ways in which a run of the handler on a valid stream ends:
    a [read] found too few bytes, or the header announced a payload
    above 1 GiB and the [read] of the payload threw. *)
Definition halted (x : Exit) (c : Client) : Prop :=
  x = Starved
  \/ (x = Threw RangeError
      /\ MAX_HWM < currentPacketLength c /\ socket c <> None).

(** A valid packet stream: packets one after the other, each the
    header that [encodeHeader] builds for its payload, then the
    payload. *)
Inductive valid_stream : Buffer -> Prop :=
| valid_end : valid_stream []
| valid_packet : forall deviceId commandId payload header rest,
    encodeHeader commandId (Z.of_nat (List.length payload)) deviceId
      = Ok header ->
    valid_stream rest ->
    valid_stream (header ++ payload ++ rest).

(** *** The payload of sendMode *)

Definition pack_color_list (arr : list Classes.RGBColor) : Buffer :=
  fold_left
    (fun out element =>
       out ++ [] ++
       (Bufferpack.pack_B (Classes.red element)
        ++ Bufferpack.pack_B (Classes.green element)
        ++ Bufferpack.pack_B (Classes.blue element) ++ [x00]))
    arr (Bufferpack.pack_H (Z.of_nat (List.length arr))).

Definition pack_string (string : jsstring) : Buffer :=
  (Bufferpack.pack_H (Z.of_nat (List.length string) + 1) ++ pack_s string)
  ++ [x00].

(** Lines 445-483 of [sendMode]: the bytes handed to [sendMessage] for
    the mode [modeData]. *)
Definition sendMode_data (protocolVersion : Z) (modeData : Classes.Mode)
  : Buffer :=
  let u := Bufferpack.undefined_as_zero in
  let pack :=
    if 3 <=? protocolVersion then
      Bufferpack.pack_Is
        [Classes.value modeData; Classes.flags modeData;
         Classes.speedMin modeData; Classes.speedMax modeData;
         u (Classes.brightnessMin modeData); u (Classes.brightnessMax modeData);
         Classes.colorMin modeData; Classes.colorMax modeData;
         Classes.speed modeData; u (Classes.brightness modeData);
         Classes.direction modeData; Classes.colorMode modeData]
    else
      Bufferpack.pack_Is
        [Classes.value modeData; Classes.flags modeData;
         Classes.speedMin modeData; Classes.speedMax modeData;
         Classes.colorMin modeData; Classes.colorMax modeData;
         Classes.speed modeData;
         Classes.direction modeData; Classes.colorMode modeData] in
  let data :=
    Bufferpack.pack_I (Classes.id modeData)
    ++ pack_string (Classes.name modeData)
    ++ pack
    ++ pack_color_list (Classes.colors modeData) in
  Bufferpack.pack_I (Z.of_nat (List.length data)) ++ data.

End Engine.

End Client.

(** ** client.ts: the commands *)

(** [ModeInput.ts]: every field is optional; [None] is an absent
    property. *)
Module ModeInput.
Record ModeInput : Type := {
  id : option Z;
  name : option jsstring;
  value : option Z;
  flags : option Z;
  speedMin : option Z;
  speedMax : option Z;
  brightnessMin : option Z;
  brightnessMax : option Z;
  colorMin : option Z;
  colorMax : option Z;
  speed : option Z;
  brightness : option Z;
  direction : option Z;
  colorMode : option Z;
  colors : option (list Classes.RGBColor)
}.
End ModeInput.

Module Facade.

Import Client.

(** The command identifiers of [utils.command] that the commands below
    use. *)
Record Registry : Type := {
  updateLeds_id : Z;
  updateZoneLeds_id : Z
}.

(** The argument [mode] of [updateMode]: a number, a string or an
    object. *)
Inductive ModeArg : Type :=
| ByNumber (mode : Z)
| ByString (mode : jsstring)
| ByObject (mode : ModeInput.ModeInput).

Section Commands.

Variable command : Commands.
Variable registry : Registry.

(** [String.prototype.toLowerCase] *)
Variable toLowerCase : jsstring -> jsstring.

(** The loop of [updateLeds] and [updateZoneLeds]: colour [i] goes to
    [base + i * 4], three bytes; the fourth stays as allocated. *)
Fixpoint write_colors (colorsBuffer : Buffer) (colors : list Classes.RGBColor)
    (i : nat) (base : nat) : result Buffer :=
  match colors with
  | [] => Ok colorsBuffer
  | color :: rest =>
      let offset := (base + i * 4)%nat in
      b <- writeUInt8_at colorsBuffer (Classes.red color) offset ;;
      b <- writeUInt8_at b (Classes.green color) (offset + 1) ;;
      b <- writeUInt8_at b (Classes.blue color) (offset + 2) ;;
      write_colors b rest (S i) base
  end.

Definition updateLeds (c : Client) (deviceId : Z)
    (colors : list Classes.RGBColor) : result (list Event) :=
  let size := (2 + 4 * List.length colors)%nat in
  let colorsBuffer := alloc size in
  colorsBuffer <-
    writeUInt16LE_at colorsBuffer (Z.of_nat (List.length colors)) 0 ;;
  colorsBuffer <- write_colors colorsBuffer colors 0 2 ;;
  prefixBuffer <- writeUInt32LE (Z.of_nat size) ;;
  sendMessage c (updateLeds_id registry) (prefixBuffer ++ colorsBuffer) deviceId.


(** *** sendMode *)

(** [device.modes[modeId]]; [None] is [undefined]. *)
Definition mode_at (modes : list Classes.Mode) (modeId : Z)
  : option Classes.Mode :=
  if modeId <? 0 then None else nth_error modes (Z.to_nat modeId).

Fixpoint equals_string (a b : jsstring) : bool :=
  match a, b with
  | [], [] => true
  | x :: a', y :: b' => (x =? y) && equals_string a' b'
  | _, _ => false
  end.

(** Lines 406-435: the mode of the device that the argument selects. *)
Definition select_mode (modes : list Classes.Mode) (mode : ModeArg)
  : result Classes.Mode :=
  '(modeId, modeName) <-
    match mode with
    | ByNumber n => Ok (Some n, None)
    | ByString s => Ok (None, Some s)
    | ByObject o =>
        match ModeInput.id o, ModeInput.name o with
        | Some i, _ => Ok (Some i, None)
        | None, Some s => Ok (None, Some s)
        | None, None =>
            Throw (Error
              "Either mode.id or mode.name have to be given, but both are missing")
        end
    end ;;
  match modeId, modeName with
  | Some i, _ =>
      match mode_at modes i with
      | Some m => Ok m
      | None => Throw (Error "ID given is not the ID of a mode")
      end
  | None, Some s =>
      match find (fun elem =>
                    equals_string (toLowerCase (Classes.name elem))
                      (toLowerCase s)) modes with
      | Some m => Ok m
      | None => Throw (Error "Name given is not the name of a mode")
      end
  | None, None =>
      Throw (Error "Mode must be of type number, string or object")
  end.

(** Truthiness of an optional number: present and not zero. *)
Definition truthy (o : option Z) : bool :=
  match o with
  | Some v => negb (v =? 0)
  | None => false
  end.

(** Lines 437-443: the fields of the object that replace the mode's. *)
Definition patch_mode (modeData : Classes.Mode) (mode : ModeArg)
  : Classes.Mode :=
  match mode with
  | ByObject o =>
      {| Classes.id := Classes.id modeData;
         Classes.name := Classes.name modeData;
         Classes.value := Classes.value modeData;
         Classes.flags := Classes.flags modeData;
         Classes.speedMin := Classes.speedMin modeData;
         Classes.speedMax := Classes.speedMax modeData;
         Classes.brightnessMin := Classes.brightnessMin modeData;
         Classes.brightnessMax := Classes.brightnessMax modeData;
         Classes.colorMin := Classes.colorMin modeData;
         Classes.colorMax := Classes.colorMax modeData;
         Classes.speed :=
           match ModeInput.speed o with
           | Some v => if truthy (Some v) then v else Classes.speed modeData
           | None => Classes.speed modeData
           end;
         Classes.brightness :=
           if truthy (ModeInput.brightness o) then ModeInput.brightness o
           else Classes.brightness modeData;
         Classes.direction :=
           match ModeInput.direction o with
           | Some v => if truthy (Some v) then v else Classes.direction modeData
           | None => Classes.direction modeData
           end;
         Classes.colorMode :=
           match ModeInput.colorMode o with
           | Some v => if truthy (Some v) then v else Classes.colorMode modeData
           | None => Classes.colorMode modeData
           end;
         Classes.colors :=
           match ModeInput.colors o with
           | Some cs => cs
           | None => Classes.colors modeData
           end;
         Classes.flagList := Classes.flagList modeData |}
  | _ => modeData
  end.


End Commands.

End Facade.

(** ** Modes on the wire *)

Module Wire.

Import Classes.

Definition u32 (v : Z) : Prop := 0 <= v <= 4294967295.

Definition channel (v : Z) : Prop := 0 <= v <= 255.

(** A colour whose three channels are bytes. *)
Definition valid_color (c : RGBColor) : Prop :=
  channel (red c) /\ channel (green c) /\ channel (blue c).

(** The four bytes of a colour. *)
Definition color_bytes (c : RGBColor) : Buffer :=
  [byte_of (red c); byte_of (green c); byte_of (blue c); x00].

(** A mode whose fields fit the types they have on the wire at protocol
    3 and higher: unsigned 32-bit numbers, a value that is also a
    non-negative signed 32-bit number, the three brightness fields
    present, an ASCII name and a colour list that fit a u16 length, and
    colour channels that are bytes. *)
Definition wire_mode (m : Mode) : Prop :=
  0 <= value m < 2147483648
  /\ u32 (flags m) /\ u32 (speedMin m) /\ u32 (speedMax m)
  /\ (exists bmin bmax b,
        brightnessMin m = Some bmin /\ brightnessMax m = Some bmax
        /\ brightness m = Some b /\ u32 bmin /\ u32 bmax /\ u32 b)
  /\ u32 (colorMin m) /\ u32 (colorMax m) /\ u32 (speed m)
  /\ u32 (direction m) /\ u32 (colorMode m)
  /\ Forall (fun u => 0 <= u < 128) (name m)
  /\ Z.of_nat (List.length (name m)) + 1 <= 65535
  /\ Z.of_nat (List.length (colors m)) <= 65535
  /\ Forall (fun c => channel (red c) /\ channel (green c) /\ channel (blue c))
       (colors m).

(** The decoder's normal form at protocol 3 and higher: the lookup for
    the flags exists, the flagList is the one it yields, and every field
    that [readModes] forces to zero for these flags is zero. *)
Definition forced (m : Mode) : Prop :=
  exists flagcheck,
    Device.flagcheck_of (flags m) = Ok flagcheck
    /\ let f := Device.Number_truthy flagcheck in
       flagList m
       = (if f 1%nat || f 2%nat || f 3%nat
          then Device.push_flags flagcheck 0 ++ ["direction"%string]
          else Device.push_flags flagcheck 0)
       /\ (f 0%nat = false ->
           speedMin m = 0 /\ speedMax m = 0 /\ speed m = 0)
       /\ (f 4%nat = false ->
           brightnessMin m = Some 0 /\ brightnessMax m = Some 0
           /\ brightness m = Some 0)
       /\ (negb (f 1%nat) && negb (f 2%nat) && negb (f 3%nat) = true ->
           direction m = 0)
       /\ ((negb (f 5%nat) && negb (f 6%nat) && negb (f 7%nat) = true
            \/ colors m = []) ->
           colors m = [] /\ colorMin m = 0 /\ colorMax m = 0).

(** The same two notions below protocol 3, where a mode has no
    brightness fields. *)
Definition wire_mode_legacy (m : Mode) : Prop :=
  0 <= value m < 2147483648
  /\ u32 (flags m) /\ u32 (speedMin m) /\ u32 (speedMax m)
  /\ brightnessMin m = None /\ brightnessMax m = None
  /\ brightness m = None
  /\ u32 (colorMin m) /\ u32 (colorMax m) /\ u32 (speed m)
  /\ u32 (direction m) /\ u32 (colorMode m)
  /\ Forall (fun u => 0 <= u < 128) (name m)
  /\ Z.of_nat (List.length (name m)) + 1 <= 65535
  /\ Z.of_nat (List.length (colors m)) <= 65535
  /\ Forall valid_color (colors m).

Definition forced_legacy (m : Mode) : Prop :=
  exists flagcheck,
    Device.flagcheck_of (flags m) = Ok flagcheck
    /\ let f := Device.Number_truthy flagcheck in
       flagList m
       = (if f 1%nat || f 2%nat || f 3%nat
          then Device.push_flags flagcheck 0 ++ ["direction"%string]
          else Device.push_flags flagcheck 0)
       /\ (f 0%nat = false ->
           speedMin m = 0 /\ speedMax m = 0 /\ speed m = 0)
       /\ (negb (f 1%nat) && negb (f 2%nat) && negb (f 3%nat) = true ->
           direction m = 0)
       /\ ((negb (f 5%nat) && negb (f 6%nat) && negb (f 7%nat) = true
            \/ colors m = []) ->
           colors m = [] /\ colorMin m = 0 /\ colorMax m = 0).

End Wire.

(** ** Sample data used by the examples *)

Module Samples.

Import Client.

(** The identifiers that OpenRGB assigns to the commands used here. *)
Definition openrgb : Commands :=
  {| requestProtocolVersion := 40;
     setClientName := 50;
     deviceListUpdated := 100;
     updateMode := 1101;
     saveMode := 1102 |}.

(** A decoder and an encoder that agree with UTF-8 on ASCII. *)
Definition decode : Buffer -> jsstring := ascii_text.
Definition encode : jsstring -> Buffer := pack_s.

(** The bytes of ["abcd"]. *)
Definition abcd : Buffer := [x61; x62; x63; x64].

(** A client fresh from the constructor, and one whose socket has
    connected. *)
Definition fresh (settings : option Settings) : Client :=
  constructor [] 0 [] settings.

Definition connected (settings : option Settings) : Client :=
  fst (connect_begin (fresh settings) SocketConnected).

(** A connected client that waits for one reply to [commandId] from
    device [deviceId]. *)
Definition waiting (commandId deviceId : Z) : Client :=
  match readMessage (connected None) commandId deviceId with
  | Ok c => c
  | Throw _ => connected None
  end.

(** A packet on the wire. *)
Definition packet (deviceId commandId : Z) (payload : Buffer) : Buffer :=
  match encodeHeader commandId (Z.of_nat (List.length payload)) deviceId with
  | Ok h => h ++ payload
  | Throw _ => []
  end.

(** Sixteen bytes that do not start with the magic. *)
Definition bad_header : Buffer :=
  [x58; x52; x47; x42] ++ le32 0 ++ le32 0 ++ le32 0.

(** Two packets, a reply to command 0 of device 0 with four bytes of
    payload and the broadcast, and the same bytes cut in three. *)
Definition stream : Buffer :=
  packet 0 0 [x03; x00; x00; x00] ++ packet 0 100 [].




(** The two packets of [stream]. *)
Definition packets : list Buffer :=
  [packet 0 0 [x03; x00; x00; x00]; packet 0 100 []].

Definition chunks : list Buffer :=
  [firstn 10 stream; firstn 9 (skipn 10 stream); skipn 19 stream].

(** A header with a wrong magic, followed by a good packet. *)
Definition corrupted : Buffer :=
  bad_header ++ packet 0 0 [x03; x00; x00; x00].

(** A client that has connected and then asked for the controller
    count. *)
Definition busy : Client :=
  fst (step openrgb encode
         (fst (step openrgb encode (fresh None) (OpConnect SocketConnected)))
         (OpReadMessage 0 0)).

(** A mode without any capability flag whose speed has been set to 5,
    as [sendMode] allows. *)
Definition plain_mode : Classes.Mode :=
  {| Classes.id := 0; Classes.name := []; Classes.value := 0;
     Classes.flags := 0; Classes.speedMin := 0; Classes.speedMax := 0;
     Classes.brightnessMin := Some 0; Classes.brightnessMax := Some 0;
     Classes.colorMin := 0; Classes.colorMax := 0; Classes.speed := 5;
     Classes.brightness := Some 0; Classes.direction := 0;
     Classes.colorMode := 0; Classes.colors := [];
     Classes.flagList := [] |}.

(** A mode named "hi" with speed, brightness and mode-specific colours,
    in the decoder's normal form. *)
Definition rainbow : Classes.Mode :=
  {| Classes.id := 2; Classes.name := [104; 105]; Classes.value := 7;
     Classes.flags := 81; Classes.speedMin := 10; Classes.speedMax := 20;
     Classes.brightnessMin := Some 1; Classes.brightnessMax := Some 100;
     Classes.colorMin := 1; Classes.colorMax := 2; Classes.speed := 15;
     Classes.brightness := Some 50; Classes.direction := 0;
     Classes.colorMode := 1;
     Classes.colors :=
       [ {| Classes.red := 255; Classes.green := 128; Classes.blue := 0 |} ];
     Classes.flagList := ["speed"; "brightness"; "modeSpecificColor"]%string |}.

(** A mode record as the server sends it below protocol 3, with the
    given flags: the empty name, value 7, speed bounds 10 and 20, colour
    bounds 1 and 2, speed 15, direction 3, colour mode 4, and one
    colour. *)
Definition mode_record (flags : Z) : Buffer :=
  [x01; x00; x00] ++ le32 7 ++ le32 flags ++ le32 10 ++ le32 20
  ++ le32 1 ++ le32 2 ++ le32 15 ++ le32 3 ++ le32 4
  ++ le16 1 ++ [xff; x80; x00; x00].

(** Whether tag [k] is in the flagList of [modeFlags] exactly when bit
    [k] is set. *)
Definition tag_agrees (modeFlags : Z) (k : nat) : bool :=
  match Device.flagcheck_of modeFlags with
  | Ok flagcheck =>
      Bool.eqb
        (existsb (String.eqb (nth k Device.flags_names ""%string))
           (Device.push_flags flagcheck 0))
        (Z.testbit modeFlags (Z.of_nat k))
  | Throw _ => false
  end.

End Samples.

(** ** More sample data *)

Module Examples.

Import Client.

(** The identifiers that OpenRGB assigns to the LED updates. *)
Definition registry : Facade.Registry :=
  {| Facade.updateLeds_id := 1050; Facade.updateZoneLeds_id := 1051 |}.

(** Lower case for ASCII letters. *)
Definition lower : jsstring -> jsstring :=
  map (fun u => if (65 <=? u) && (u <=? 90) then u + 32 else u).

(** Whether the decoder's test of flag [k] agrees with bit [k]. *)
Definition truthy_agrees (modeFlags : Z) (k : nat) : bool :=
  match Device.flagcheck_of modeFlags with
  | Ok flagcheck =>
      Bool.eqb (Device.Number_truthy flagcheck k)
        (Z.testbit modeFlags (Z.of_nat k))
  | Throw _ => false
  end.

(** A zone record below protocol 4: the name "Z", a matrix of one row
    and two keys, the second one unused. *)
Definition zone_record : Buffer :=
  [x02; x00; x5a; x00] ++ le32 1 ++ le32 1 ++ le32 4 ++ le32 2
  ++ le16 16 ++ le32 1 ++ le32 2 ++ le32 0 ++ le32 4294967295.

(** A controller record of protocol 0: the name "K", four empty
    strings, one mode, one zone, one LED "L" and one colour. *)
Definition device_record : Buffer :=
  le32 0 ++ le32 2 ++ [x02; x00; x4b; x00]
  ++ [x01; x00; x00] ++ [x01; x00; x00] ++ [x01; x00; x00]
  ++ [x01; x00; x00]
  ++ le16 1 ++ le32 0 ++ Samples.mode_record 33
  ++ le16 1 ++ zone_record
  ++ le16 1 ++ ([x02; x00; x4c; x00] ++ le32 0)
  ++ le16 1 ++ [xff; x80; x00; x00].

(** The mode [rainbow] as a device of protocol 2 and lower reports
    it. *)
Definition rainbow_legacy : Classes.Mode :=
  {| Classes.id := 2; Classes.name := [104; 105]; Classes.value := 7;
     Classes.flags := 65; Classes.speedMin := 10; Classes.speedMax := 20;
     Classes.brightnessMin := None; Classes.brightnessMax := None;
     Classes.colorMin := 1; Classes.colorMax := 2; Classes.speed := 15;
     Classes.brightness := None; Classes.direction := 0;
     Classes.colorMode := 1;
     Classes.colors :=
       [ {| Classes.red := 255; Classes.green := 128; Classes.blue := 0 |} ];
     Classes.flagList := ["speed"; "modeSpecificColor"]%string |}.


End Examples.

(** * Properties *)

(** ** Bytes and little-endian numbers *)

Lemma byte_val_range (b : byte) : 0 <= byte_val b < 256.
Proof.
  unfold byte_val. pose proof (Byte.to_N_bounded b). lia.
Qed.

Lemma byte_val_of (z : Z) : byte_val (byte_of z) = z mod 256.
Proof.
  unfold byte_val, byte_of.
  pose proof (Z.mod_pos_bound z 256 ltac:(lia)) as Hm.
  destruct (Byte.of_N (Z.to_N (z mod 256))) as [b|] eqn:E.
  - apply Byte.to_of_N in E. rewrite E. lia.
  - apply Byte.of_N_None_iff in E. lia.
Qed.

Lemma byte_of_val (b : byte) : byte_of (byte_val b) = b.
Proof.
  unfold byte_of, byte_val.
  pose proof (Byte.to_N_bounded b) as Hb.
  rewrite Z.mod_small by lia.
  rewrite N2Z.id, Byte.of_to_N. reflexivity.
Qed.

Lemma skipn_app_exact {A : Type} (pre rest : list A) :
  skipn (List.length pre) (pre ++ rest) = rest.
Proof.
  induction pre as [|a pre IH]; simpl; auto.
Qed.

Lemma skipn_app_plus {A : Type} (pre rest : list A) (n : nat) :
  skipn (List.length pre + n) (pre ++ rest) = skipn n rest.
Proof.
  induction pre as [|a pre IH]; simpl; auto.
Qed.

Lemma readUInt16LE_le16 (pre rest : Buffer) (v : Z) :
  0 <= v <= 65535 ->
  readUInt16LE (pre ++ le16 v ++ rest) (List.length pre) = Ok v.
Proof.
  intros Hv. unfold readUInt16LE. rewrite skipn_app_exact.
  unfold le16. cbn [app].
  rewrite !byte_val_of. f_equal.
  rewrite (Z.mod_small (v / 256)) by (split; [apply Z.div_pos; lia | apply Z.div_lt_upper_bound; lia]).
  pose proof (Z.div_mod v 256 ltac:(lia)). lia.
Qed.

Lemma le32_read (v : Z) :
  0 <= v <= 4294967295 ->
  byte_val (byte_of v) + 256 * byte_val (byte_of (v / 256))
  + 65536 * byte_val (byte_of (v / 65536))
  + 16777216 * byte_val (byte_of (v / 16777216)) = v.
Proof.
  intros Hv. rewrite !byte_val_of.
  rewrite (Z.mod_small (v / 16777216))
    by (split; [apply Z.div_pos; lia | apply Z.div_lt_upper_bound; lia]).
  pose proof (Z.div_mod v 256 ltac:(lia)) as H0.
  pose proof (Z.div_mod (v / 256) 256 ltac:(lia)) as H1.
  pose proof (Z.div_mod (v / 256 / 256) 256 ltac:(lia)) as H2.
  replace (v / 256 / 256) with (v / 65536) in H1, H2
    by (rewrite Z.div_div by lia; reflexivity).
  replace (v / 65536 / 256) with (v / 16777216) in H2
    by (rewrite Z.div_div by lia; reflexivity).
  lia.
Qed.

Lemma readUInt32LE_le32 (pre rest : Buffer) (v : Z) :
  0 <= v <= 4294967295 ->
  readUInt32LE (pre ++ le32 v ++ rest) (List.length pre) = Ok v.
Proof.
  intros Hv. unfold readUInt32LE. rewrite skipn_app_exact.
  unfold le32. cbn [app].
  f_equal. apply le32_read; assumption.
Qed.

(** ** Strings (device.ts, readString) *)

(** C7.  In a buffer that holds at offset [length pre] a well-formed
    encoded string (the u16 length [len], then the [len - 1] bytes
    [txt] of the text and the null terminator), [readString] reads the
    length, returns as text the decoding of exactly the bytes [txt]
    before the terminator, and reports [len + 2] bytes consumed.  In
    particular, for length 5 followed by the bytes of "abcd" and a null
    byte, the text is "abcd" (under any decoder that is the identity on
    ASCII) and 7 bytes are consumed. *)
Theorem readString_well_formed :
  forall (TextDecoder_decode : Buffer -> jsstring)
         (pre txt post : Buffer) (len : Z),
    len = Z.of_nat (List.length txt) + 1 ->
    len <= 65535 ->
    (forall bs, Forall is_ascii bs -> TextDecoder_decode bs = ascii_text bs) ->
    readUInt16LE (pre ++ le16 len ++ txt ++ x00 :: post) (List.length pre)
      = Ok len
    /\ Device.readString TextDecoder_decode
         (pre ++ le16 len ++ txt ++ x00 :: post) (List.length pre)
       = Ok {| Device.text := TextDecoder_decode txt;
               Device.length := len + 2 |}
    /\ Device.readString TextDecoder_decode
         ([x05; x00] ++ Samples.abcd ++ [x00]) 0
       = Ok {| Device.text := [97; 98; 99; 100]; Device.length := 7 |}.
Proof.
  intros dec pre txt post len Hlen Hmax Hascii.
  assert (Hread : readUInt16LE (pre ++ le16 len ++ txt ++ x00 :: post)
                    (List.length pre) = Ok len).
  { apply readUInt16LE_le16. lia. }
  split; [exact Hread|]. split.
  - unfold Device.readString. rewrite Hread. cbn [bind]. do 3 f_equal.
    unfold slice.
    replace (List.length pre + Z.to_nat len + 1 - (List.length pre + 2))%nat
      with (List.length txt) by lia.
    rewrite skipn_app_plus.
    change (skipn 2 (le16 len ++ txt ++ x00 :: post)) with (txt ++ x00 :: post).
    rewrite firstn_app, firstn_all, Nat.sub_diag.
    simpl. apply app_nil_r.
  - unfold Device.readString. simpl. rewrite Hascii.
    + reflexivity.
    + unfold Samples.abcd, is_ascii. repeat constructor.
Qed.

Lemma readString_well_formed_witness :
  Device.readString Samples.decode
    ([x09] ++ le16 3 ++ [x68; x69] ++ x00 :: [xff]) 1
  = Ok {| Device.text := [104; 105]; Device.length := 5 |}.
Proof.
  apply (readString_well_formed Samples.decode [x09] [x68; x69] [xff] 3).
  - reflexivity.
  - lia.
  - intros bs _. reflexivity.
Defined.

(** ** Mode flags (device.ts, readModes) *)

Lemma binary_digits_length (p : positive) (acc : list ascii) :
  List.length (Device.binary_digits p acc)
  = (Pos.size_nat p + List.length acc)%nat.
Proof.
  revert acc. induction p as [q IH|q IH|]; intros acc; simpl.
  - rewrite IH. simpl. lia.
  - rewrite IH. simpl. lia.
  - reflexivity.
Qed.

Lemma size_nat_upper (p : positive) : Zpos p < 2 ^ Z.of_nat (Pos.size_nat p).
Proof.
  induction p as [q IH|q IH|]; cbn [Pos.size_nat].
  - rewrite Nat2Z.inj_succ, Z.pow_succ_r by lia. lia.
  - rewrite Nat2Z.inj_succ, Z.pow_succ_r by lia. lia.
  - reflexivity.
Qed.

(** A flags value with a bit above the ten named ones has more than ten
    binary digits, and [Array] is asked for a negative length. *)
Lemma flagcheck_of_large (modeFlags : Z) :
  1024 <= modeFlags -> Device.flagcheck_of modeFlags = Throw RangeError.
Proof.
  intros H. destruct modeFlags as [|p|p]; try lia.
  unfold Device.flagcheck_of, Device.toString2.
  rewrite binary_digits_length.
  pose proof (size_nat_upper p) as Hs.
  assert (10 < Z.of_nat (Pos.size_nat p)).
  { destruct (Z_lt_le_dec 10 (Z.of_nat (Pos.size_nat p))) as [|Hle]; auto.
    assert (2 ^ Z.of_nat (Pos.size_nat p) <= 2 ^ 10)
      by (apply Z.pow_le_mono_r; lia).
    change (2 ^ 10) with 1024 in *. lia. }
  destruct (_ <? 0) eqn:E; auto.
  apply Z.ltb_ge in E.
  change (Z.of_nat (List.length Device.flags_names)) with 10 in E.
  cbn [List.length] in E. lia.
Qed.

(** C8, at the flags value 1024 (bit 10 set, none of the ten named bits):
    [readModes] throws a [RangeError] and produces no flagList, where
    the claim promises a flagList without any of the ten tags. *)
Theorem readModes_flags_1024_throws :
  Device.flagcheck_of 1024 = Throw RangeError
  /\ Device.readModes Samples.decode (Samples.mode_record 1024) 1 0 0
     = Throw RangeError.
Proof.
  split; vm_compute; reflexivity.
Qed.

(** Below 1024 the lookup is as the claim describes it: the flagList
    holds tag [k] exactly when bit [k] of the flags is set. *)
Lemma tags_below_1024 :
  forallb (fun n => forallb (Samples.tag_agrees (Z.of_nat n)) (seq 0 10)) (seq 0 1024)
  = true.
Proof.
  vm_compute. reflexivity.
Qed.

Lemma flagList_below_1024 (modeFlags : Z) (k : nat) :
  0 <= modeFlags < 1024 -> (k < 10)%nat ->
  exists flagcheck,
    Device.flagcheck_of modeFlags = Ok flagcheck
    /\ (In (nth k Device.flags_names ""%string) (Device.push_flags flagcheck 0)
        <-> Z.testbit modeFlags (Z.of_nat k) = true).
Proof.
  intros Hf Hk.
  pose proof tags_below_1024 as H.
  rewrite forallb_forall in H.
  specialize (H (Z.to_nat modeFlags)).
  rewrite Z2Nat.id in H by lia.
  assert (Hin : In (Z.to_nat modeFlags) (seq 0 1024)) by (apply in_seq; lia).
  specialize (H Hin). rewrite forallb_forall in H.
  specialize (H k ltac:(apply in_seq; lia)).
  unfold Samples.tag_agrees in H.
  destruct (Device.flagcheck_of modeFlags) as [fc|] eqn:E; [|discriminate].
  exists fc. split; [reflexivity|].
  apply Bool.eqb_prop in H. rewrite <- H.
  rewrite existsb_exists. split.
  - intros Hi. exists (nth k Device.flags_names ""%string).
    split; [assumption | apply String.eqb_refl].
  - intros [x [Hx Hxe]]. apply String.eqb_eq in Hxe. subst. assumption.
Qed.

(** The flags value 1 of the specification's example: exactly the tag
    ["speed"], the speed bounds as read, direction 0 and no colours
    although the record announces one. *)
Lemma readModes_flags_1 :
  exists m off,
    Device.readModes Samples.decode (Samples.mode_record 1) 1 0 0
      = Ok ([m], off)
    /\ Classes.flagList m = ["speed"%string]
    /\ Classes.speedMin m = 10 /\ Classes.speedMax m = 20
    /\ Classes.direction m = 0 /\ Classes.colors m = [].
Proof.
  eexists. eexists. split; [vm_compute; reflexivity|].
  repeat split; reflexivity.
Qed.

(** ** Headers (client.ts, encodeHeader, decodeHeader) *)

Lemma u32_leb (v : Z) :
  Wire.u32 v -> (0 <=? v) && (v <=? 4294967295) = true.
Proof.
  unfold Wire.u32. intros H. apply andb_true_iff. split; apply Z.leb_le; lia.
Qed.

Lemma encodeHeader_u32 (commandId length deviceId : Z) :
  Wire.u32 deviceId -> Wire.u32 commandId -> Wire.u32 length ->
  Client.encodeHeader commandId length deviceId
  = Ok (Client.magic ++ le32 deviceId ++ le32 commandId ++ le32 length).
Proof.
  intros Hd Hc Hl. unfold Client.encodeHeader, writeUInt32LE.
  rewrite !u32_leb by assumption. reflexivity.
Qed.

Lemma decodeHeader_le32 (commandId length deviceId : Z) (payload : Buffer) :
  Wire.u32 deviceId -> Wire.u32 commandId -> Wire.u32 length ->
  Client.decodeHeader
    ((Client.magic ++ le32 deviceId ++ le32 commandId ++ le32 length)
     ++ payload)
  = Ok {| Client.h_deviceId := deviceId; Client.h_commandId := commandId;
          Client.h_length := length |}.
Proof.
  intros Hd Hc Hl.
  unfold Client.decodeHeader, readUInt32LE, Client.magic, le32.
  cbn [app skipn bind].
  rewrite !le32_read by assumption. reflexivity.
Qed.

(** ** Version negotiation (client.ts, connect) *)

Lemma connect_finish_version command enc (c : Client.Client) reply :
  Client.protocolVersion (fst (fst (Client.connect_finish command enc c reply)))
  = Client.negotiate (Client.settings c) (Client.serverProtocolVersion reply).
Proof.
  unfold Client.connect_finish.
  destruct (Client.sendMessage _ _ _ _); reflexivity.
Qed.

(** C2, as stated, fails: with the forced version 3 configured and a
    reply that reports server version 0, the client settles on 3 and
    not on min(0, 3). *)
Lemma negotiated_version_counterexample :
  Client.protocolVersion
    (fst (fst (Client.connect_finish Samples.openrgb Samples.encode
                 (Samples.connected
                    (Some {| Client.forceProtocolVersion := Some 3 |}))
                 (Client.Replied 0))))
  <> Some (Z.min 0 3).
Proof.
  vm_compute. discriminate.
Qed.

(** C2, amended.  When the reply arrives and the settings either have
    no [forceProtocolVersion] key or carry a non-zero forced version,
    the effective version is the minimum of the server's version and
    the preferred one (the forced version, else 5), except that a
    server version of 0 together with a forced version gives the forced
    version. *)
Theorem negotiated_version_min :
  forall command enc (c : Client.Client) (serverVersion : Z),
    (Client.forceProtocolVersion (Client.settings c) = None
     \/ exists f, Client.forceProtocolVersion (Client.settings c) = Some f
                  /\ f <> 0) ->
    let preferredVersion :=
      match Client.forceProtocolVersion (Client.settings c) with
      | Some f => f
      | None => Client.CLIENT_PROTOCOL_VERSION
      end in
    Client.protocolVersion
      (fst (fst (Client.connect_finish command enc c
                   (Client.Replied serverVersion))))
    = Some (if (serverVersion =? 0)
               && Client.force_truthy (Client.settings c)
            then preferredVersion
            else Z.min serverVersion preferredVersion).
Proof.
  intros command enc c v Hs preferred.
  rewrite connect_finish_version. cbn [Client.serverProtocolVersion].
  unfold Client.negotiate, Client.force_truthy, preferred.
  destruct Hs as [Hn | [f [Hf Hnz]]].
  - rewrite Hn. cbn [andb]. rewrite andb_false_r. f_equal.
    destruct (Z.ltb_spec v Client.CLIENT_PROTOCOL_VERSION); lia.
  - rewrite Hf. apply Z.eqb_neq in Hnz. rewrite Hnz. cbn [negb andb].
    rewrite andb_true_r.
    destruct (Z.eqb_spec v 0); [reflexivity|]. f_equal.
    destruct (Z.ltb_spec v f); lia.
Qed.

Lemma negotiated_version_min_witness :
  Client.protocolVersion
    (fst (fst (Client.connect_finish Samples.openrgb Samples.encode
                 (Samples.connected
                    (Some {| Client.forceProtocolVersion := None |}))
                 (Client.Replied 4))))
  = Some 4.
Proof.
  apply (negotiated_version_min Samples.openrgb Samples.encode
           (Samples.connected (Some {| Client.forceProtocolVersion := None |}))
           4).
  left. reflexivity.
Defined.

(** C3, as stated, fails: without a forced version, a timed-out round
    trip lets [connect] run to its end, with protocol version 0 and the
    connect event emitted; nothing is thrown. *)
Lemma negotiation_timeout_counterexample :
  exists c ev,
    Client.connect_finish Samples.openrgb Samples.encode
      (Samples.connected (Some {| Client.forceProtocolVersion := None |}))
      Client.TimedOut
    = (c, ev ++ [Client.Emitted "connect"], None)
    /\ Client.protocolVersion c = Some 0.
Proof.
  eexists. exists [Client.Wrote (Samples.packet 0 50 (Samples.encode (Client.name (Samples.connected None)) ++ [x00]))].
  split; vm_compute; reflexivity.
Qed.

(** C3, amended.  When the round trip times out and no forced version
    is configured (no key, or the value 0), [connect] completes on a
    socket that is still connected: the version is 0, the client name is
    sent (one packet to device 0 under the command setClientName, whose
    payload is the encoded name and a null byte) and the connect event
    is emitted; no failure is surfaced. *)
Theorem negotiation_timeout_completes :
  forall command enc (c : Client.Client) (s : Client.Socket),
    Client.force_truthy (Client.settings c) = false ->
    Client.isConnected c = true ->
    Client.socket c = Some s ->
    0 <= Client.setClientName command <= 4294967295 ->
    Z.of_nat (List.length (enc (Client.name c) ++ [x00])) <= 4294967295 ->
    let nameBytes := enc (Client.name c) ++ [x00] in
    let c' := Client.set_protocolVersion c (Some 0) in
    exists header,
      Client.encodeHeader (Client.setClientName command)
        (Z.of_nat (List.length nameBytes)) 0 = Ok header
      /\ Client.connect_finish command enc c Client.TimedOut
         = (c', [Client.Wrote (header ++ nameBytes);
                 Client.Emitted "connect"], None)
      /\ Client.decodeHeader (header ++ nameBytes)
         = Ok {| Client.h_deviceId := 0;
                 Client.h_commandId := Client.setClientName command;
                 Client.h_length := Z.of_nat (List.length nameBytes) |}
      /\ Client.isConnected c' = true
      /\ Client.socket c' = Some s
      /\ Client.protocolVersion c' = Some 0.
Proof.
  intros command enc c s Hf Hc Hs Hcmd Hlen nameBytes c'.
  assert (Hv : Client.negotiate (Client.settings c) 0 = Some 0).
  { unfold Client.negotiate. rewrite Hf. cbn [andb].
    unfold Client.force_truthy in Hf.
    destruct (Client.forceProtocolVersion (Client.settings c)) as [f|].
    - apply negb_false_iff, Z.eqb_eq in Hf. subst f. reflexivity.
    - reflexivity. }
  assert (Hl : Wire.u32 (Z.of_nat (List.length nameBytes)))
    by (unfold Wire.u32, nameBytes; lia).
  assert (H0 : Wire.u32 0) by (unfold Wire.u32; lia).
  exists (Client.magic ++ le32 0 ++ le32 (Client.setClientName command)
          ++ le32 (Z.of_nat (List.length nameBytes))).
  split; [apply encodeHeader_u32; assumption|].
  split; [|split; [apply decodeHeader_le32; assumption|]].
  - unfold Client.connect_finish. cbn [Client.serverProtocolVersion].
    rewrite Hv. unfold Client.sendMessage.
    cbn [Client.set_protocolVersion Client.isConnected Client.socket
           Client.name].
    rewrite Hc, Hs. cbn [negb]. fold nameBytes.
    rewrite (encodeHeader_u32 _ _ 0 H0 Hcmd Hl). reflexivity.
  - split; [exact Hc|]. split; [exact Hs | reflexivity].
Qed.

Lemma negotiation_timeout_completes_witness :
  exists header,
    Client.encodeHeader 50
      (Z.of_nat (List.length
                   (Samples.encode (Client.name (Samples.connected None))
                    ++ [x00]))) 0
    = Ok header
    /\ Client.connect_finish Samples.openrgb Samples.encode
         (Samples.connected None) Client.TimedOut
       = (Client.set_protocolVersion (Samples.connected None) (Some 0),
          [Client.Wrote
             (header
              ++ Samples.encode (Client.name (Samples.connected None))
              ++ [x00]);
           Client.Emitted "connect"], None).
Proof.
  destruct (negotiation_timeout_completes Samples.openrgb Samples.encode
              (Samples.connected None) {| Client.buffered := [] |})
    as (header & He & Hf & _).
  - reflexivity.
  - reflexivity.
  - reflexivity.
  - vm_compute. split; discriminate.
  - vm_compute. discriminate.
  - exists header. split; [exact He | exact Hf].
Defined.

(** ** The correlator (client.ts, resolve) *)

Section Correlator.

Import Client.

Variable command : Commands.

Lemma findIndex_first (p : ResolveObject -> bool) pre r post :
  p r = true ->
  (forall x, In x pre -> p x = false) ->
  findIndex p (pre ++ r :: post) = Some (List.length pre)
  /\ nth_error (pre ++ r :: post) (List.length pre) = Some r
  /\ splice (List.length pre) (pre ++ r :: post) = pre ++ post.
Proof.
  intros Hr. induction pre as [|x pre IH]; intros Hpre.
  - simpl. rewrite Hr. auto.
  - simpl. rewrite (Hpre x) by (left; reflexivity).
    destruct IH as [H1 [H2 H3]].
    { intros y Hy. apply Hpre. right. assumption. }
    rewrite H1, H3. auto.
Qed.


Lemma decodeHeader_total (hdr payload : Buffer) :
  List.length hdr = 16%nat ->
  exists h, decodeHeader (hdr ++ payload) = Ok h.
Proof.
  intros H.
  do 16 (destruct hdr as [|? hdr]; [discriminate|]).
  destruct hdr; [|discriminate].
  eexists. reflexivity.
Qed.

Lemma skipn_header (hdr payload : Buffer) :
  List.length hdr = 16%nat -> skipn 16 (hdr ++ payload) = payload.
Proof.
  intros H. rewrite <- H. apply skipn_app_exact.
Qed.


(** The broadcast code, seen by [resolve] itself: the event is emitted
    and the client, its queue included, is untouched. *)
Lemma resolve_broadcast (c : Client) (buffer : Buffer) (h : Header) :
  decodeHeader buffer = Ok h ->
  h_commandId h = deviceListUpdated command ->
  resolve_packet command c buffer = (c, [Emitted "deviceListUpdated"], None).
Proof.
  intros Hh Hc. unfold resolve_packet. rewrite Hh, Hc, Z.eqb_refl. reflexivity.
Qed.

End Correlator.


(** ** The readable handler (client.ts, connect) *)

(** Case analysis of a phase of the loop body, along its tests. *)
Ltac split_match H :=
  match type of H with
  | context [match ?x with _ => _ end] => destruct x eqn:?
  | context [if ?x then _ else _] => destruct x eqn:?
  end.

Ltac phase_cases H :=
  repeat (split_match H; try discriminate).

Section Framer.

Import Client.

Variable command : Commands.

Lemma set_resolver_self (c : Client) : set_resolver c (resolver c) = c.
Proof. destruct c; reflexivity. Qed.

Lemma findIndex_nth (p : ResolveObject -> bool) l i :
  findIndex p l = Some i -> exists r, nth_error l i = Some r.
Proof.
  revert i. induction l as [|x l IH]; intros i H; simpl in H.
  - discriminate.
  - destruct (p x).
    + injection H as <-. exists x. reflexivity.
    + destruct (findIndex p l) as [j|]; [|discriminate].
      injection H as <-. simpl. apply IH. reflexivity.
Qed.

(** [resolve] only ever replaces the queue. *)
Lemma resolve_packet_queue (c : Client) (buffer : Buffer) :
  exists q, fst (fst (resolve_packet command c buffer)) = set_resolver c q.
Proof.
  unfold resolve_packet.
  destruct (decodeHeader buffer) as [h|e].
  - destruct (h_commandId h =? deviceListUpdated command).
    + exists (resolver c). rewrite set_resolver_self. reflexivity.
    + destruct (resolver c) as [|r0 q] eqn:Hq.
      * exists []. rewrite <- Hq, set_resolver_self. reflexivity.
      * destruct (findIndex (answers h) (r0 :: q)) as [i|].
        -- destruct (nth_error (r0 :: q) i).
           ++ eexists. reflexivity.
           ++ exists (r0 :: q). rewrite <- Hq, set_resolver_self. reflexivity.
        -- exists (r0 :: q). rewrite <- Hq, set_resolver_self. reflexivity.
  - exists (resolver c). rewrite set_resolver_self. reflexivity.
Qed.

(** A packet with its full header never makes [resolve] throw. *)
Lemma resolve_packet_no_throw (c : Client) (hdr payload : Buffer) :
  List.length hdr = 16%nat ->
  snd (resolve_packet command c (hdr ++ payload)) = None.
Proof.
  intros Hlen. unfold resolve_packet.
  destruct (decodeHeader_total hdr payload Hlen) as [h Hh]. rewrite Hh.
  destruct (h_commandId h =? deviceListUpdated command); [reflexivity|].
  destruct (resolver c) as [|r0 q]; [reflexivity|].
  destruct (findIndex (answers h) (r0 :: q)) as [i|] eqn:Hi; [|reflexivity].
  destruct (findIndex_nth _ _ _ Hi) as [r Hr]. rewrite Hr. reflexivity.
Qed.

Lemma socket_read_enough (n : nat) (front rest : Buffer) :
  List.length front = n ->
  Z.of_nat n <= MAX_HWM ->
  socket_read n {| buffered := front ++ rest |}
  = Ok (Some (front, {| buffered := rest |})).
Proof.
  intros <- Hn. unfold socket_read. cbn [buffered].
  destruct (Z.ltb_spec MAX_HWM (Z.of_nat (List.length front))); [lia|].
  rewrite length_app.
  destruct (Nat.leb_spec (List.length front)
              (List.length front + List.length rest)); [|lia].
  rewrite firstn_app, firstn_all, Nat.sub_diag, skipn_app_exact.
  simpl. rewrite app_nil_r. reflexivity.
Qed.

(** A header is never too large for one read. *)
Lemma socket_read_header (hdr rest : Buffer) :
  List.length hdr = 16%nat ->
  socket_read HEADER_SIZE {| buffered := hdr ++ rest |}
  = Ok (Some (hdr, {| buffered := rest |})).
Proof.
  intros H. apply socket_read_enough; [exact H|].
  unfold HEADER_SIZE, MAX_HWM. lia.
Qed.

Lemma socket_read_short (n : nat) (s : Socket) :
  (List.length (buffered s) < n)%nat ->
  Z.of_nat n <= MAX_HWM ->
  socket_read n s = Ok None.
Proof.
  intros H Hn. unfold socket_read.
  destruct (Z.ltb_spec MAX_HWM (Z.of_nat n)); [lia|].
  destruct (Nat.leb_spec n (List.length (buffered s))); [lia|reflexivity].
Qed.

Lemma socket_read_inv (n : nat) (s s' : Socket) (front : Buffer) :
  socket_read n s = Ok (Some (front, s')) ->
  buffered s = front ++ buffered s' /\ List.length front = n
  /\ Z.of_nat n <= MAX_HWM.
Proof.
  unfold socket_read.
  destruct (Z.ltb_spec MAX_HWM (Z.of_nat n)) as [|Hm]; [discriminate|].
  destruct (Nat.leb_spec n (List.length (buffered s))) as [Hl|];
    [|discriminate].
  intros Hr. injection Hr as <- <-. cbn [buffered]. repeat split.
  - symmetry. apply firstn_skipn.
  - apply firstn_length_le. assumption.
  - assumption.
Qed.


(** A read throws for its size alone: a [RangeError], whatever is
    buffered. *)
Lemma socket_read_throws (n : nat) (s : Socket) (e : JsError) :
  socket_read n s = Throw e ->
  e = RangeError /\ MAX_HWM < Z.of_nat n
  /\ forall s', socket_read n s' = Throw RangeError.
Proof.
  unfold socket_read.
  destruct (Z.ltb_spec MAX_HWM (Z.of_nat n)) as [Hgt|].
  - intros H. split; [congruence|]. split; [assumption|].
    intros s'. destruct (Z.ltb_spec MAX_HWM (Z.of_nat n)); [reflexivity|lia].
  - destruct (n <=? _)%nat; discriminate.
Qed.

Lemma readUInt32LE_nonneg (b : Buffer) (off : nat) (v : Z) :
  readUInt32LE b off = Ok v -> 0 <= v.
Proof.
  unfold readUInt32LE.
  destruct (skipn off b) as [|b0 [|b1 [|b2 [|b3 r]]]]; try discriminate.
  intros H.
  assert (Hv : byte_val b0 + 256 * byte_val b1 + 65536 * byte_val b2
               + 16777216 * byte_val b3 = v) by congruence.
  pose proof (byte_val_range b0). pose proof (byte_val_range b1).
  pose proof (byte_val_range b2). pose proof (byte_val_range b3). lia.
Qed.

Lemma resolve_packet_fields (c c' : Client) buffer ev exn :
  resolve_packet command c buffer = (c', ev, exn) ->
  socket c' = socket c
  /\ currentPacketLength c' = currentPacketLength c
  /\ promises c' = promises c
  /\ isConnected c' = isConnected c.
Proof.
  intros H. destruct (resolve_packet_queue c buffer) as [q Hq].
  rewrite H in Hq. cbn [fst] in Hq. subst c'. auto.
Qed.

Ltac phase_facts :=
  repeat match goal with
    | H : socket_read _ _ = Ok (Some _) |- _ =>
        apply socket_read_inv in H; destruct H as (? & ? & ?)
    | H : resolve_packet _ _ _ = _ |- _ =>
        apply resolve_packet_fields in H; destruct H as (? & ? & ? & ?)
    | H : readUInt32LE _ _ = Ok _ |- _ => apply readUInt32LE_nonneg in H
    | H : (_ =? _) = true |- _ => apply Z.eqb_eq in H
    | H : (_ =? _) = false |- _ => apply Z.eqb_neq in H
    | H : (_ <? _) = true |- _ => apply Z.ltb_lt in H
    | H : (_ <? _) = false |- _ => apply Z.ltb_ge in H
    end;
  unfold unread in *; simpl in *;
  repeat match goal with
    | H : socket ?c = _ |- _ => rewrite H in *
    | H : currentPacketLength ?c = _ |- _ => rewrite H in *
    | H : buffered ?c = _ |- _ => rewrite H in *
    end;
  simpl in *; try rewrite length_app; unfold HEADER_SIZE in *.

Lemma header_phase_continue (c ch : Client) eh :
  0 <= currentPacketLength c ->
  header_phase command c = (ch, eh, Continue) ->
  (ch = c /\ 0 < currentPacketLength c)
  \/ (currentPacketLength c = 0 /\ (unread ch < unread c)%nat
      /\ 0 <= currentPacketLength ch).
Proof.
  intros Hc Hh. unfold header_phase, after_resolve in Hh.
  phase_cases Hh; try (injection Hh as <- _);
    try (left; split; [reflexivity | lia]); right; phase_facts;
    repeat split; lia.
Qed.

Lemma payload_phase_continue (c c1 : Client) ep :
  payload_phase command c = (c1, ep, Continue) ->
  (c1 = c /\ currentPacketLength c <= 0)
  \/ (0 < currentPacketLength c /\ (unread c1 < unread c)%nat
      /\ currentPacketLength c1 = 0).
Proof.
  intros Hp. unfold payload_phase, after_resolve in Hp.
  phase_cases Hp; try (injection Hp as <- _);
    try (left; split; [reflexivity | lia]); right; phase_facts;
    repeat split; lia.
Qed.

(** An iteration that goes on has read at least one byte and leaves
    the client between two packets. *)
Lemma loop_body_continue (c c1 : Client) e1 :
  0 <= currentPacketLength c ->
  loop_body command c = (c1, e1, Continue) ->
  (unread c1 < unread c)%nat /\ currentPacketLength c1 = 0.
Proof.
  intros Hc H. unfold loop_body in H.
  destruct (header_phase command c) as [[ch eh] fh] eqn:Hh.
  destruct fh as [|xh]; [|discriminate].
  destruct (payload_phase command ch) as [[cp ep] fp] eqn:Hp.
  injection H as -> _ ->.
  apply header_phase_continue in Hh; [|assumption].
  apply payload_phase_continue in Hp.
  destruct Hh as [[-> Hh] | (Hh1 & Hh2 & Hh3)];
    destruct Hp as [[-> Hp] | (Hp1 & Hp2 & Hp3)]; try lia.
Qed.

(** Fuel beyond the unread bytes is never used up. *)
Lemma readable_loop_runs (fuel : nat) (c : Client) :
  0 <= currentPacketLength c ->
  (unread c < fuel)%nat ->
  exists r, readable_loop command fuel c = Some r /\ Runs command c r.
Proof.
  revert c. induction fuel as [|fuel IH]; intros c Hc Hf; [lia|].
  cbn [readable_loop].
  destruct (loop_body command c) as [[c1 e1] [|x]] eqn:Hb.
  - destruct (loop_body_continue _ _ _ Hc Hb) as [Hlt H0].
    destruct (IH c1) as [[[c2 e2] x] [Hr HR]]; [lia | lia |].
    rewrite Hr. eexists. split; [reflexivity|].
    eapply Runs_continue; eassumption.
  - eexists. split; [reflexivity|]. apply Runs_stop. assumption.
Qed.

(** The handler returns, and its result is the run of the loop. *)
Lemma on_readable_runs (c : Client) :
  0 <= currentPacketLength c -> Runs command c (on_readable command c).
Proof.
  intros Hc. unfold on_readable.
  destruct (readable_loop_runs (S (unread c)) c Hc) as [r [Hr HR]]; [lia|].
  rewrite Hr. assumption.
Qed.

Lemma readable_loop_total (c : Client) :
  0 <= currentPacketLength c ->
  exists r, readable_loop command (S (unread c)) c = Some r.
Proof.
  intros Hc.
  destruct (readable_loop_runs (S (unread c)) c Hc) as [r [Hr _]]; [lia|].
  exists r. assumption.
Qed.

Lemma Runs_deterministic (c : Client) r r' :
  Runs command c r -> Runs command c r' -> r = r'.
Proof.
  intros H. revert r'.
  induction H as [c c1 e1 x Hb | c c1 e1 c2 e2 x Hb H IH]; intros r' H'.
  - inversion H' as [? ? ? ? Hb' | ? ? ? ? ? ? Hb' H2]; subst;
      rewrite Hb in Hb'; [|discriminate].
    injection Hb' as <- <- <-. reflexivity.
  - inversion H' as [? ? ? ? Hb' | ? ? ? ? ? ? Hb' H2]; subst;
      rewrite Hb in Hb'; [discriminate|].
    injection Hb' as <- <-.
    specialize (IH _ H2). injection IH as <- <- <-. reflexivity.
Qed.

Lemma on_readable_unique (c : Client) r :
  0 <= currentPacketLength c -> Runs command c r -> on_readable command c = r.
Proof.
  intros Hc H. eapply Runs_deterministic; [|eassumption].
  apply on_readable_runs. assumption.
Qed.

(** *** More bytes do not change what has been done *)

Lemma arrive_nil (c : Client) : arrive c [] = c.
Proof.
  unfold arrive. destruct c as [? ? ? ? ? ? ? ? [[b]|] ?]; cbn;
    [rewrite app_nil_r|]; reflexivity.
Qed.

Lemma arrive_app (c : Client) (x y : Buffer) :
  arrive (arrive c x) y = arrive c (x ++ y).
Proof.
  unfold arrive. destruct c as [? ? ? ? ? ? ? ? [[b]|] ?]; cbn;
    [rewrite app_assoc|]; reflexivity.
Qed.

Lemma arrive_currentPacketLength (c : Client) (x : Buffer) :
  currentPacketLength (arrive c x) = currentPacketLength c.
Proof. unfold arrive. destruct (socket c); reflexivity. Qed.

Lemma resolve_packet_arrive (c : Client) (x buffer : Buffer) :
  resolve_packet command (arrive c x) buffer
  = let '(c', ev, exn) := resolve_packet command c buffer in
    (arrive c' x, ev, exn).
Proof.
  unfold resolve_packet, arrive.
  destruct c as [? ? ? ? ? ? q ? [[b]|] ?]; cbn;
    destruct (decodeHeader buffer) as [h|e]; try reflexivity;
    destruct (h_commandId h =? deviceListUpdated command); try reflexivity;
    destruct q as [|r0 q]; try reflexivity;
    destruct (findIndex (answers h) (r0 :: q)) as [i|]; try reflexivity;
    destruct (nth_error (r0 :: q) i); reflexivity.
Qed.

Lemma socket_read_more (n : nat) (s s' : Socket) (front x : Buffer) :
  socket_read n s = Ok (Some (front, s')) ->
  socket_read n {| buffered := buffered s ++ x |}
  = Ok (Some (front, {| buffered := buffered s' ++ x |})).
Proof.
  intros H. apply socket_read_inv in H. destruct H as (Hb & Hn & Hm).
  rewrite Hb, <- app_assoc. apply socket_read_enough; assumption.
Qed.

Lemma header_phase_arrive (c c1 : Client) e1 f (x : Buffer) :
  header_phase command c = (c1, e1, f) ->
  f <> Stop Starved ->
  header_phase command (arrive c x) = (arrive c1 x, e1, f).
Proof.
  intros H Hf. unfold header_phase in *.
  rewrite arrive_currentPacketLength.
  destruct (currentPacketLength c =? 0);
    [|injection H as <- <- <-; reflexivity].
  destruct (socket c) as [s|] eqn:Hs.
  2:{ injection H as <- <- <-.
      replace (arrive c x) with c by (unfold arrive; rewrite Hs; reflexivity).
      rewrite Hs. reflexivity. }
  assert (Ha : arrive c x = set_socket c (Some {| buffered := buffered s ++ x |}))
    by (unfold arrive; rewrite Hs; reflexivity).
  rewrite Ha. cbn [socket set_socket].
  destruct (socket_read HEADER_SIZE s) as [[[hdr s']|]|e] eqn:Hr.
  2:{ injection H as _ _ <-. congruence. }
  2:{ destruct (socket_read_throws _ _ _ Hr) as (-> & _ & Hall).
      rewrite Hall. injection H as <- <- <-. rewrite ?Ha. reflexivity. }
  rewrite (socket_read_more _ _ _ _ x Hr).
  destruct (negb (equals (slice hdr 0 4) magic)).
  { injection H as <- <- <-. reflexivity. }
  destruct (readUInt32LE hdr 12) as [len|e].
  2:{ injection H as <- <- <-. reflexivity. }
  destruct (0 <? len).
  - cbn [resolver set_currentPacketLength set_socket] in *.
    destruct (resolver c) as [|r0 q]; injection H as <- <- <-; reflexivity.
  - cbn [resolver set_currentPacketLength set_socket] in *.
    destruct (resolver c) as [|r0 q] eqn:Hq.
    + injection H as <- <- <-. reflexivity.
    + unfold after_resolve in *.
      match goal with
      | |- context [resolve_packet command ?c0 hdr] =>
          replace c0 with
            (arrive (set_currentPacketLength (set_socket c (Some s')) len) x)
            by reflexivity
      end.
      rewrite resolve_packet_arrive.
      destruct (resolve_packet command _ hdr) as [[c' ev] exn].
      injection H as <- <- <-. reflexivity.
Qed.

Lemma payload_phase_arrive (c c1 : Client) e1 f (x : Buffer) :
  payload_phase command c = (c1, e1, f) ->
  f <> Stop Starved ->
  payload_phase command (arrive c x) = (arrive c1 x, e1, f).
Proof.
  intros H Hf. unfold payload_phase in *.
  rewrite arrive_currentPacketLength.
  destruct (0 <? currentPacketLength c);
    [|injection H as <- <- <-; reflexivity].
  destruct (socket c) as [s|] eqn:Hs.
  2:{ injection H as <- <- <-.
      replace (arrive c x) with c by (unfold arrive; rewrite Hs; reflexivity).
      rewrite Hs. reflexivity. }
  assert (Ha : arrive c x = set_socket c (Some {| buffered := buffered s ++ x |}))
    by (unfold arrive; rewrite Hs; reflexivity).
  rewrite Ha. cbn [socket set_socket].
  destruct (socket_read (Z.to_nat (currentPacketLength c)) s)
    as [[[res s']|]|e] eqn:Hr.
  2:{ injection H as _ _ <-. congruence. }
  2:{ destruct (socket_read_throws _ _ _ Hr) as (-> & _ & Hall).
      rewrite Hall. injection H as <- <- <-. rewrite ?Ha. reflexivity. }
  rewrite (socket_read_more _ _ _ _ x Hr).
  cbn [resolver set_currentPacketLength set_socket] in *.
  destruct (resolver c) as [|r0 q] eqn:Hq.
  { injection H as <- <- <-. reflexivity. }
  destruct (header r0) as [h|].
  2:{ injection H as <- <- <-. reflexivity. }
  unfold after_resolve in *.
  match goal with
  | |- context [resolve_packet command ?c0 (h ++ res)] =>
      replace c0 with
        (arrive (set_currentPacketLength (set_socket c (Some s')) 0) x)
        by reflexivity
  end.
  rewrite resolve_packet_arrive.
  destruct (resolve_packet command _ (h ++ res)) as [[c' ev] exn].
  injection H as <- <- <-. reflexivity.
Qed.

Lemma loop_body_arrive (c c1 : Client) e1 f (x : Buffer) :
  loop_body command c = (c1, e1, f) ->
  f <> Stop Starved ->
  loop_body command (arrive c x) = (arrive c1 x, e1, f).
Proof.
  intros H Hf. unfold loop_body in *.
  destruct (header_phase command c) as [[ch eh] [|xh]] eqn:Hh.
  - rewrite (header_phase_arrive _ _ _ _ x Hh) by discriminate.
    destruct (payload_phase command ch) as [[cp ep] fp] eqn:Hp.
    injection H as <- <- <-.
    rewrite (payload_phase_arrive _ _ _ _ x Hp Hf). reflexivity.
  - injection H as <- <- <-.
    rewrite (header_phase_arrive _ _ _ _ x Hh Hf). reflexivity.
Qed.

Lemma header_phase_starved (c c1 : Client) e1 :
  header_phase command c = (c1, e1, Stop Starved) -> c1 = c /\ e1 = [].
Proof.
  intros H. unfold header_phase, after_resolve in H.
  phase_cases H; injection H as <- <-; auto.
Qed.

Lemma payload_phase_starved (c c1 : Client) e1 :
  payload_phase command c = (c1, e1, Stop Starved) ->
  c1 = c /\ e1 = [] /\ 0 < currentPacketLength c.
Proof.
  intros H. unfold payload_phase, after_resolve in H.
  phase_cases H; injection H as <- <-; phase_facts; auto.
Qed.

Lemma header_phase_skip (c : Client) :
  0 < currentPacketLength c -> header_phase command c = (c, [], Continue).
Proof.
  intros H. unfold header_phase.
  destruct (Z.eqb_spec (currentPacketLength c) 0); [lia|reflexivity].
Qed.

(** A starved iteration is resumed, when bytes arrive, where it left
    off. *)
Lemma loop_body_resume (c c1 : Client) e1 (x : Buffer) :
  loop_body command c = (c1, e1, Stop Starved) ->
  loop_body command (arrive c x)
  = let '(c2, e2, f) := loop_body command (arrive c1 x) in (c2, e1 ++ e2, f).
Proof.
  intros H. unfold loop_body in H.
  destruct (header_phase command c) as [[ch eh] [|xh]] eqn:Hh.
  - destruct (payload_phase command ch) as [[cp ep] fp] eqn:Hp.
    injection H as -> <- ->.
    destruct (payload_phase_starved _ _ _ Hp) as (<- & -> & Hpos).
    unfold loop_body at 1.
    rewrite (header_phase_arrive _ _ _ _ x Hh) by discriminate.
    unfold loop_body.
    rewrite (header_phase_skip (arrive c1 x))
      by (rewrite arrive_currentPacketLength; assumption).
    destruct (payload_phase command (arrive c1 x)) as [[c2 e2] f2].
    rewrite app_nil_r. reflexivity.
  - injection H as -> <- ->.
    destruct (header_phase_starved _ _ _ Hh) as [<- ->].
    destruct (loop_body command (arrive c1 x)) as [[c2 e2] f2]. reflexivity.
Qed.

(** Lemma A: a starved run, continued when more bytes arrive, is the
    run on all the bytes. *)
Lemma Runs_resume (c c' : Client) ev :
  Runs command c (c', ev, Starved) ->
  forall (x : Buffer) c2 e2 x2,
    Runs command (arrive c' x) (c2, e2, x2) ->
    Runs command (arrive c x) (c2, ev ++ e2, x2).
Proof.
  intros H. remember (c', ev, Starved) as r eqn:Hr. revert c' ev Hr.
  induction H as [c c1 e1 x1 Hb | c c1 e1 ca ea xa Hb H IH];
    intros c' ev Hr x c2 e2 x2 H2; injection Hr as <- <- ->.
  - pose proof (loop_body_resume _ _ _ x Hb) as Hres.
    inversion H2 as [? ? ? ? Hb2 | ? cm em ? en ? Hb2 Hn]; subst;
      rewrite Hb2 in Hres.
    + apply Runs_stop. assumption.
    + rewrite app_assoc. eapply Runs_continue; eassumption.
  - rewrite <- app_assoc. eapply Runs_continue.
    + apply loop_body_arrive; [eassumption | discriminate].
    + eapply IH; [reflexivity | eassumption].
Qed.

(** *** Valid streams *)

Lemma equals_refl (a : Buffer) : equals a a = true.
Proof.
  induction a as [|x a IH]; simpl; [reflexivity|].
  rewrite IH, (Byte.byte_dec_lb eq_refl). reflexivity.
Qed.

Lemma encodeHeader_inv (commandId length deviceId : Z) (hdr : Buffer) :
  encodeHeader commandId length deviceId = Ok hdr ->
  hdr = magic ++ le32 deviceId ++ le32 commandId ++ le32 length
  /\ 0 <= length <= 4294967295.
Proof.
  unfold encodeHeader, writeUInt32LE, bind. intros H.
  destruct ((0 <=? deviceId) && (deviceId <=? 4294967295)); [|discriminate].
  destruct ((0 <=? commandId) && (commandId <=? 4294967295)); [|discriminate].
  destruct ((0 <=? length) && (length <=? 4294967295)) eqn:E; [|discriminate].
  apply andb_true_iff in E. destruct E as [E1 E2].
  apply Z.leb_le in E1. apply Z.leb_le in E2.
  split; [congruence | lia].
Qed.

Lemma encodeHeader_facts (commandId length deviceId : Z) (hdr : Buffer) :
  encodeHeader commandId length deviceId = Ok hdr ->
  List.length hdr = 16%nat
  /\ equals (slice hdr 0 4) magic = true
  /\ readUInt32LE hdr 12 = Ok length.
Proof.
  intros H. apply encodeHeader_inv in H. destruct H as [-> Hl].
  split; [reflexivity|]. split; [apply equals_refl|].
  unfold readUInt32LE, le32, magic. cbn [app skipn].
  f_equal. apply le32_read. assumption.
Qed.

Lemma app_eq_split {A : Type} (p rest a b : list A) :
  p ++ rest = a ++ b ->
  (List.length a <= List.length p)%nat ->
  exists p1, p = a ++ p1 /\ p1 ++ rest = b.
Proof.
  revert p. induction a as [|x a IH]; intros p H Hl.
  - exists p. auto.
  - destruct p as [|y p]; [simpl in Hl; lia|].
    simpl in H. injection H as -> H.
    destruct (IH p H) as [p1 [-> H1]]; [simpl in Hl; lia|].
    exists p1. auto.
Qed.

(** *** Complete packets *)

(** The header phase on the header of a packet. *)
Lemma header_phase_packet (c : Client) (hdr p1 : Buffer) dev cmd len :
  encodeHeader cmd len dev = Ok hdr ->
  currentPacketLength c = 0 ->
  socket c = Some {| buffered := hdr ++ p1 |} ->
  header_phase command c
  = let c1 := set_currentPacketLength
                (set_socket c (Some {| buffered := p1 |})) len in
    if 0 <? len then
      match resolver c with
      | r0 :: q => (set_resolver c1 (set_header r0 hdr :: q), [], Continue)
      | [] => (c1, [], Continue)
      end
    else
      match resolver c with
      | _ :: _ => after_resolve (resolve_packet command c1 hdr) hdr
      | [] => (c1, [], Continue)
      end.
Proof.
  intros He Hc Hs.
  destruct (encodeHeader_facts _ _ _ _ He) as (Hlen & Hmagic & Hread).
  unfold header_phase. rewrite Hc, Hs. cbn [Z.eqb].
  rewrite (socket_read_header hdr p1 Hlen), Hmagic, Hread. reflexivity.
Qed.

(** One iteration on a buffered packet whose payload a read can take:
    the packet is consumed, the client is between two packets again,
    and the packet has been handed to [resolve] if a request was
    pending. *)
Lemma loop_body_packet (c : Client) (hdr payload rest : Buffer) dev cmd :
  encodeHeader cmd (Z.of_nat (List.length payload)) dev = Ok hdr ->
  Z.of_nat (List.length payload) <= MAX_HWM ->
  currentPacketLength c = 0 ->
  socket c = Some {| buffered := hdr ++ payload ++ rest |} ->
  exists c1 e1,
    loop_body command c = (c1, e1, Continue)
    /\ currentPacketLength c1 = 0
    /\ socket c1 = Some {| buffered := rest |}
    /\ match resolver c with
       | [] => e1 = [] /\ resolver c1 = []
       | _ :: _ =>
           exists c0 ev,
             requests c0 = requests c
             /\ resolve_packet command c0 (hdr ++ payload) = (c1, ev, None)
             /\ e1 = Packet (hdr ++ payload) :: ev
       end.
Proof.
  intros He Hmax Hc Hs.
  destruct (encodeHeader_facts _ _ _ _ He) as (Hlen & _ & _).
  pose proof (header_phase_packet c hdr (payload ++ rest) _ _ _ He Hc Hs)
    as Hhead.
  cbv zeta in Hhead.
  destruct payload as [|b payload].
  - (* a packet that is only a header *)
    cbn [List.length Z.of_nat Z.ltb Z.compare app] in Hhead.
    unfold loop_body. rewrite Hhead.
    destruct (resolver c) as [|r0 q] eqn:Hq.
    + unfold payload_phase.
      cbn [currentPacketLength set_currentPacketLength Z.ltb Z.compare].
      eexists. eexists. split; [reflexivity|].
      split; [reflexivity|]. split; [reflexivity|].
      split; [reflexivity | exact Hq].
    + set (c0 := set_currentPacketLength
                   (set_socket c (Some {| buffered := rest |})) 0).
      pose proof (resolve_packet_no_throw c0 hdr [] Hlen) as Hno.
      rewrite app_nil_r in *.
      unfold after_resolve.
      destruct (resolve_packet command c0 hdr) as [[c1 ev] exn] eqn:Hr.
      cbn [snd] in Hno. subst exn.
      destruct (resolve_packet_fields _ _ _ _ _ Hr) as (Hs1 & Hc1 & _).
      unfold payload_phase. rewrite Hc1.
      cbn [c0 currentPacketLength set_currentPacketLength Z.ltb Z.compare].
      exists c1, (Packet hdr :: ev).
      split; [rewrite app_nil_r; reflexivity|].
      split; [exact Hc1|]. split; [exact Hs1|].
      exists c0, ev. split; [|split; [exact Hr | reflexivity]].
      unfold requests, c0. cbn. rewrite Hq. reflexivity.
  - (* a packet with a payload *)
    remember (b :: payload) as pl eqn:Hpl.
    assert (Hpos : 0 < Z.of_nat (List.length pl)) by (subst pl; simpl; lia).
    apply Z.ltb_lt in Hpos. rewrite Hpos in Hhead. apply Z.ltb_lt in Hpos.
    assert (Hread : forall s0,
              s0 = {| buffered := pl ++ rest |} ->
              socket_read (Z.to_nat (Z.of_nat (List.length pl))) s0
              = Ok (Some (pl, {| buffered := rest |}))).
    { intros s0 ->. apply socket_read_enough.
      - symmetry. apply Nat2Z.id.
      - rewrite Nat2Z.id. exact Hmax. }
    unfold loop_body. rewrite Hhead.
    destruct (resolver c) as [|r0 q] eqn:Hq;
      unfold payload_phase;
      cbn [currentPacketLength socket set_currentPacketLength set_socket
             set_resolver resolver];
      (destruct (Z.ltb_spec 0 (Z.of_nat (List.length pl))); [|lia]);
      rewrite (Hread _ eq_refl); rewrite ?Hq.
    + eexists. eexists. split; [reflexivity|].
      split; [reflexivity|]. split; [reflexivity|].
      split; [reflexivity | cbn; exact Hq].
    + cbn [header set_header].
      match goal with
      | |- context [resolve_packet command ?c0 (hdr ++ pl)] =>
          pose proof (resolve_packet_no_throw c0 hdr pl Hlen) as Hno;
          destruct (resolve_packet command c0 (hdr ++ pl))
            as [[c1 ev] exn] eqn:Hr
      end.
      cbn [snd] in Hno. subst exn.
      destruct (resolve_packet_fields _ _ _ _ _ Hr) as (Hs1 & Hc1 & _).
      cbn [socket currentPacketLength set_currentPacketLength set_socket
             set_resolver] in Hs1, Hc1.
      unfold after_resolve.
      exists c1, (Packet (hdr ++ pl) :: ev).
      split; [reflexivity|]. split; [exact Hc1|]. split; [exact Hs1|].
      eexists. exists ev. split; [|split; [exact Hr | reflexivity]].
      unfold requests. cbn. rewrite Hq. reflexivity.
Qed.

(** [resolve] looks at the promise, the command and the device of the
    pending requests only. *)
Lemma findIndex_requests (h : Header) (l l' : list ResolveObject) :
  map (fun r => (resolve r, commandId r, deviceId r)) l
  = map (fun r => (resolve r, commandId r, deviceId r)) l' ->
  findIndex (answers h) l = findIndex (answers h) l'.
Proof.
  revert l'. induction l as [|r l IH]; intros [|r' l'] H; cbn [map] in H;
    try discriminate; [reflexivity|].
  injection H as _ Hc Hd Hl. cbn [findIndex].
  unfold answers at 1 3. rewrite Hc, Hd.
  destruct ((deviceId r' =? h_deviceId h) && (commandId r' =? h_commandId h));
    [reflexivity|].
  rewrite (IH l' Hl). reflexivity.
Qed.

Lemma splice_requests (i : nat) (l l' : list ResolveObject) :
  map (fun r => (resolve r, commandId r, deviceId r)) l
  = map (fun r => (resolve r, commandId r, deviceId r)) l' ->
  map (fun r => (resolve r, commandId r, deviceId r)) (splice i l)
  = map (fun r => (resolve r, commandId r, deviceId r)) (splice i l').
Proof.
  revert i l'. induction l as [|r l IH]; intros i [|r' l'] H; cbn [map] in H;
    try discriminate.
  - destruct i; reflexivity.
  - injection H as Hr Hc Hd Hl. destruct i as [|i]; cbn [splice map].
    + exact Hl.
    + rewrite Hr, Hc, Hd, (IH i l' Hl). reflexivity.
Qed.

Lemma nth_error_requests (i : nat) (l l' : list ResolveObject) r :
  map (fun r => (resolve r, commandId r, deviceId r)) l
  = map (fun r => (resolve r, commandId r, deviceId r)) l' ->
  nth_error l i = Some r ->
  exists r', nth_error l' i = Some r' /\ resolve r' = resolve r.
Proof.
  revert i l'. induction l as [|x l IH]; intros i [|x' l'] H Hn;
    cbn [map] in H; try discriminate.
  - destruct i; discriminate.
  - injection H as Hr _ _ Hl. destruct i as [|i]; cbn [nth_error] in *.
    + injection Hn as <-. exists x'. split; [reflexivity | congruence].
    + eapply IH; eassumption.
Qed.

Lemma resolve_packet_requests (c d c1 : Client) (buffer : Buffer) ev exn :
  requests c = requests d ->
  resolve_packet command c buffer = (c1, ev, exn) ->
  exists d1,
    resolve_packet command d buffer = (d1, ev, exn)
    /\ requests c1 = requests d1.
Proof.
  unfold requests. intros Hq H. unfold resolve_packet in *.
  destruct (decodeHeader buffer) as [h|e].
  2:{ injection H as <- <- <-. eauto. }
  destruct (h_commandId h =? deviceListUpdated command).
  { injection H as <- <- <-. eauto. }
  destruct (resolver c) as [|r0 q] eqn:Hc;
    destruct (resolver d) as [|r0' q'] eqn:Hd; try discriminate Hq.
  { injection H as <- <- <-. eexists. split; [reflexivity|].
    rewrite Hc, Hd. reflexivity. }
  rewrite <- (findIndex_requests h _ _ Hq).
  destruct (findIndex (answers h) (r0 :: q)) as [i|] eqn:Hi.
  2:{ injection H as <- <- <-. eexists. split; [reflexivity|].
      rewrite Hc, Hd. exact Hq. }
  destruct (findIndex_nth _ _ _ Hi) as [r Hn]. rewrite Hn in H.
  destruct (nth_error_requests _ _ _ _ Hq Hn) as (r' & Hn' & Hr').
  rewrite Hn'. injection H as <- <- <-.
  eexists. split; [rewrite Hr'; reflexivity|].
  cbn [resolver set_resolver]. apply splice_requests. exact Hq.
Qed.

Lemma requests_nil (c : Client) : requests c = [] <-> resolver c = [].
Proof.
  unfold requests. destruct (resolver c); split; intros H;
    try reflexivity; discriminate.
Qed.

Lemma wire_packet_inv (packet : Buffer) :
  wire_packet packet ->
  exists dev cmd payload hdr,
    encodeHeader cmd (Z.of_nat (List.length payload)) dev = Ok hdr
    /\ packet = hdr ++ payload
    /\ List.length hdr = 16%nat.
Proof.
  intros [dev cmd payload hdr He].
  exists dev, cmd, payload, hdr. split; [exact He|]. split; [reflexivity|].
  apply (encodeHeader_facts _ _ _ _ He).
Qed.

(** The run on a stream of complete packets that one read can take
    each: every packet is consumed, and the packets reach [resolve] as
    [dispatch] says. *)
Lemma run_packets (packets : list Buffer) :
  Forall wire_packet packets ->
  Forall readable_packet packets ->
  forall c d : Client,
    currentPacketLength c = 0 ->
    socket c = Some {| buffered := concat packets |} ->
    requests c = requests d ->
    exists c',
      Runs command c (c', snd (dispatch command d packets), Starved)
      /\ requests c' = requests (fst (dispatch command d packets))
      /\ currentPacketLength c' = 0
      /\ socket c' = Some {| buffered := [] |}.
Proof.
  induction 1 as [|packet packets Hw Hws IH]; intros Hr c d Hc Hs Hq.
  - exists c. cbn [dispatch snd fst concat] in *.
    split; [|auto].
    apply Runs_stop. unfold loop_body, header_phase. rewrite Hc, Hs.
    reflexivity.
  - inversion Hr as [|? ? Hr1 Hrs]; subst.
    destruct (wire_packet_inv _ Hw) as (dev & cmd & payload & hdr & He & -> & Hlen).
    assert (Hmax : Z.of_nat (List.length payload) <= MAX_HWM).
    { unfold readable_packet, HEADER_SIZE in Hr1.
      rewrite length_app, Hlen in Hr1. lia. }
    cbn [concat] in Hs. rewrite <- app_assoc in Hs.
    destruct (loop_body_packet c hdr payload (concat packets) dev cmd
                He Hmax Hc Hs) as (c1 & e1 & Hb & Hc1 & Hs1 & Hres).
    cbn [dispatch].
    destruct (resolver c) as [|r0 q] eqn:Hrc.
    + destruct Hres as [-> Hq1].
      assert (Hd : resolver d = []).
      { apply requests_nil. rewrite <- Hq. apply requests_nil. exact Hrc. }
      rewrite Hd.
      destruct (IH Hrs c1 d Hc1 Hs1) as (c' & HR & Hq' & Hc' & Hs').
      { rewrite (proj2 (requests_nil c1) Hq1).
        symmetry. apply requests_nil. exact Hd. }
      exists c'. split; [|auto].
      change (snd (dispatch command d packets))
        with ([] ++ snd (dispatch command d packets)).
      eapply Runs_continue; eassumption.
    + destruct Hres as (c0 & ev & Hq0 & Hres & ->).
      destruct (resolver d) as [|r0' q'] eqn:Hrd.
      { exfalso. apply requests_nil in Hrd. rewrite <- Hq in Hrd.
        apply requests_nil in Hrd. congruence. }
      destruct (resolve_packet_requests c0 d c1 (hdr ++ payload) ev None)
        as (d1 & Hd1 & Hq1);
        [congruence | exact Hres |].
      rewrite Hd1.
      destruct (IH Hrs c1 d1 Hc1 Hs1 Hq1) as (c' & HR & Hq' & Hc' & Hs').
      destruct (dispatch command d1 packets) as [d2 ev2] eqn:Hdis.
      cbn [fst snd] in *.
      exists c'. split; [|auto].
      change (Packet (hdr ++ payload) :: ev ++ ev2)
        with ((Packet (hdr ++ payload) :: ev) ++ ev2).
      eapply Runs_continue; eassumption.
Qed.

(** On a prefix of a stream of packets, read from between two packets,
    the loop ends because a read found too few bytes, or because a
    header announced more than one read can take; no header fails the
    magic check and nothing else is thrown. *)
Lemma prefix_halts (packets : list Buffer) :
  Forall wire_packet packets ->
  forall (c : Client) (p rest : Buffer),
    currentPacketLength c = 0 ->
    socket c = Some {| buffered := p |} ->
    p ++ rest = concat packets ->
    exists c' ev x,
      Runs command c (c', ev, x)
      /\ halted x c'
      /\ (Forall readable_packet packets -> x = Starved).
Proof.
  induction 1 as [|packet packets Hw Hws IH]; intros c p rest Hc Hs Hp.
  - cbn [concat] in Hp. apply app_eq_nil in Hp. destruct Hp as [-> ->].
    exists c, [], Starved. split; [|split; [left; reflexivity | reflexivity]].
    apply Runs_stop. unfold loop_body, header_phase. rewrite Hc, Hs.
    reflexivity.
  - destruct (wire_packet_inv _ Hw) as (dev & cmd & payload & hdr & He & -> & Hlen).
    cbn [concat] in Hp. rewrite <- app_assoc in Hp.
    destruct (Nat.lt_ge_cases (List.length p) 16) as [Hshort | Hlong].
    { exists c, [], Starved.
      split; [|split; [left; reflexivity | reflexivity]].
      apply Runs_stop. unfold loop_body, header_phase. rewrite Hc, Hs.
      cbn [Z.eqb].
      rewrite socket_read_short;
        [reflexivity | cbn [buffered HEADER_SIZE]; assumption
        | unfold HEADER_SIZE, MAX_HWM; lia]. }
    destruct (app_eq_split p rest hdr (payload ++ concat packets) Hp)
      as [p1 [-> Hp1]]; [lia|].
    pose proof (header_phase_packet c hdr p1 _ _ _ He Hc Hs) as Hhead.
    cbv zeta in Hhead.
    destruct (Z_lt_le_dec MAX_HWM (Z.of_nat (List.length payload)))
      as [Hbig | Hmax].
    { (* more than one read can take *)
      assert (Hpos : 0 < Z.of_nat (List.length payload))
        by (unfold MAX_HWM in Hbig; lia).
      apply Z.ltb_lt in Hpos. rewrite Hpos in Hhead. apply Z.ltb_lt in Hpos.
      assert (Hthrow : forall s0,
                socket_read (Z.to_nat (Z.of_nat (List.length payload))) s0
                = Throw RangeError).
      { intros s0. unfold socket_read. rewrite Nat2Z.id.
        destruct (Z.ltb_spec MAX_HWM (Z.of_nat (List.length payload)));
          [reflexivity | lia]. }
      destruct (resolver c) as [|r0 q] eqn:Hq;
        eexists; eexists; exists (Threw RangeError);
        (split; [apply Runs_stop; unfold loop_body; rewrite Hhead;
                 unfold payload_phase;
                 cbn [currentPacketLength socket set_currentPacketLength
                        set_socket set_resolver];
                 (destruct (Z.ltb_spec 0 (Z.of_nat (List.length payload)));
                  [|lia]);
                 rewrite Hthrow; reflexivity|]);
        (split; [right; split; [reflexivity|];
                 split; [exact Hbig | discriminate]|]);
        intros Hr; inversion Hr as [|? ? Hr1 _]; subst;
        unfold readable_packet, HEADER_SIZE in Hr1;
        rewrite length_app, Hlen in Hr1; lia. }
    destruct (Nat.lt_ge_cases (List.length p1) (List.length payload))
      as [Hshort | Hfull].
    { (* the payload is not there yet *)
      assert (Hpos : 0 < Z.of_nat (List.length payload)) by lia.
      apply Z.ltb_lt in Hpos. rewrite Hpos in Hhead. apply Z.ltb_lt in Hpos.
      destruct (resolver c) as [|r0 q];
        eexists; eexists; exists Starved;
        (split; [apply Runs_stop; unfold loop_body; rewrite Hhead;
                 unfold payload_phase;
                 cbn [currentPacketLength socket set_currentPacketLength
                        set_socket set_resolver];
                 (destruct (Z.ltb_spec 0 (Z.of_nat (List.length payload)));
                  [|lia]);
                 rewrite socket_read_short;
                 [reflexivity
                 | cbn [buffered]; rewrite Nat2Z.id; assumption
                 | rewrite Nat2Z.id; assumption]
                | split; [left; reflexivity | reflexivity]]). }
    destruct (app_eq_split p1 rest payload (concat packets) Hp1 Hfull)
      as [p2 [-> Hp2]].
    destruct (loop_body_packet c hdr payload p2 dev cmd He Hmax Hc Hs)
      as (c1 & e1 & Hb & Hc1 & Hs1 & _).
    destruct (IH c1 p2 rest Hc1 Hs1 Hp2) as (c' & ev & x & HR & Hh & Hst).
    exists c', (e1 ++ ev), x.
    split; [eapply Runs_continue; eassumption|]. split; [exact Hh|].
    intros Hr. inversion Hr; subst. auto.
Qed.

(** *** Chunks *)

Lemma loop_body_nonneg (c c1 : Client) e1 f :
  0 <= currentPacketLength c ->
  loop_body command c = (c1, e1, f) ->
  0 <= currentPacketLength c1.
Proof.
  intros Hc H. unfold loop_body in H.
  destruct (header_phase command c) as [[ch eh] fh] eqn:Hh.
  assert (Hch : 0 <= currentPacketLength ch).
  { unfold header_phase, after_resolve in Hh.
    phase_cases Hh; injection Hh as <- _ _; phase_facts; lia. }
  destruct fh as [|xh]; [|injection H as <- _ _; assumption].
  destruct (payload_phase command ch) as [[cp ep] fp] eqn:Hp.
  injection H as <- _ _.
  unfold payload_phase, after_resolve in Hp.
  phase_cases Hp; injection Hp as <- _ _; phase_facts; lia.
Qed.

Lemma Runs_nonneg (c c' : Client) ev x :
  Runs command c (c', ev, x) ->
  0 <= currentPacketLength c -> 0 <= currentPacketLength c'.
Proof.
  intros H. remember (c', ev, x) as r eqn:Hr. revert c' ev x Hr.
  induction H as [c c1 e1 x1 Hb | c c1 e1 ca ea xa Hb H IH];
    intros c' ev x Hr Hc; injection Hr as <- <- <-.
  - eapply loop_body_nonneg; eassumption.
  - eapply IH; [reflexivity|]. eapply loop_body_nonneg; eassumption.
Qed.

(** More bytes do not change a run that did not end for lack of
    bytes. *)
Lemma Runs_arrive (c c' : Client) ev x (y : Buffer) :
  Runs command c (c', ev, x) ->
  x <> Starved ->
  Runs command (arrive c y) (arrive c' y, ev, x).
Proof.
  intros H. remember (c', ev, x) as r eqn:Hr. revert c' ev x Hr.
  induction H as [c c1 e1 x1 Hb | c c1 e1 ca ea xa Hb H IH];
    intros c' ev x Hr Hx; injection Hr as <- <- <-.
  - apply Runs_stop. apply loop_body_arrive; [assumption | congruence].
  - eapply Runs_continue.
    + apply loop_body_arrive; [eassumption | discriminate].
    + apply IH; [reflexivity | assumption].
Qed.

(** Within a packet whose payload is above 1 GiB the handler throws
    on every run, and changes nothing. *)
Lemma oversized_throws (c : Client) :
  MAX_HWM < currentPacketLength c ->
  socket c <> None ->
  on_readable command c = (c, [], Threw RangeError).
Proof.
  intros Hbig Hs.
  assert (Hpos : 0 < currentPacketLength c) by (unfold MAX_HWM in Hbig; lia).
  apply on_readable_unique; [lia|]. apply Runs_stop.
  unfold loop_body. rewrite (header_phase_skip c Hpos).
  unfold payload_phase.
  destruct (Z.ltb_spec 0 (currentPacketLength c)); [|lia].
  destruct (socket c) as [s|]; [|contradiction].
  unfold socket_read. rewrite Z2Nat.id by lia.
  destruct (Z.ltb_spec MAX_HWM (currentPacketLength c)); [reflexivity|lia].
Qed.

Lemma arrive_socket (c : Client) (x : Buffer) :
  socket c <> None -> socket (arrive c x) <> None.
Proof.
  unfold arrive. destruct (socket c); [cbn; discriminate | auto].
Qed.

(** A run that halted is resumed, when bytes arrive, where it left
    off. *)
Lemma on_readable_resume (c c1 c2 : Client) e1 e2 x1 x2 (x : Buffer) :
  0 <= currentPacketLength c ->
  on_readable command c = (c1, e1, x1) ->
  halted x1 c1 ->
  on_readable command (arrive c1 x) = (c2, e2, x2) ->
  on_readable command (arrive c x) = (c2, e1 ++ e2, x2).
Proof.
  intros Hc H1 Hh H2.
  pose proof (on_readable_runs c Hc) as R1. rewrite H1 in R1.
  assert (Hca : 0 <= currentPacketLength (arrive c x))
    by (rewrite arrive_currentPacketLength; assumption).
  destruct Hh as [-> | (-> & Hbig & Hs)].
  - pose proof (Runs_nonneg _ _ _ _ R1 Hc) as Hc1.
    assert (R2 : Runs command (arrive c1 x) (c2, e2, x2)).
    { rewrite <- H2. apply on_readable_runs.
      rewrite arrive_currentPacketLength. assumption. }
    apply on_readable_unique; [assumption|].
    eapply Runs_resume; eassumption.
  - rewrite oversized_throws in H2.
    + injection H2 as <- <- <-. rewrite app_nil_r.
      apply on_readable_unique; [assumption|].
      apply Runs_arrive; [assumption | discriminate].
    + rewrite arrive_currentPacketLength. assumption.
    + apply arrive_socket. assumption.
Qed.

(** After a starved run nothing is left to do: the handler, run again
    on what it left, does nothing. *)
Lemma starved_idle (c c1 : Client) e1 :
  0 <= currentPacketLength c ->
  on_readable command c = (c1, e1, Starved) ->
  on_readable command c1 = (c1, [], Starved).
Proof.
  intros Hc H1.
  destruct (on_readable command c1) as [[c2 e2] x2] eqn:H2.
  pose proof (on_readable_resume c c1 c2 e1 e2 Starved x2 [] Hc H1
                (or_introl eq_refl)) as H.
  rewrite !arrive_nil in H. specialize (H H2). rewrite H1 in H.
  injection H as <- He <-.
  rewrite <- (app_nil_r e1) in He at 1. apply app_inv_head in He.
  subst e2. reflexivity.
Qed.


Lemma deliver_more (c : Client) (x y : Buffer) (ys : list Buffer) :
  deliver command c (x :: y :: ys)
  = let '(c1, e1, _) := on_readable command (arrive c x) in
    let '(c2, e2, x2) := deliver command c1 (y :: ys) in
    (c2, e1 ++ e2, x2).
Proof. reflexivity. Qed.

(** The notifications of a stream cut into chunks, each of which
    halts, together do what one notification with the whole stream
    does. *)
Lemma deliver_concat (chunks : list Buffer) :
  forall c : Client,
    0 <= currentPacketLength c ->
    chunks <> [] ->
    (forall p rest c1 e1 x1,
        p ++ rest = concat chunks ->
        on_readable command (arrive c p) = (c1, e1, x1) ->
        halted x1 c1) ->
    deliver command c chunks = on_readable command (arrive c (concat chunks)).
Proof.
  induction chunks as [|x chunks IH]; intros c Hc Hne Hgood; [congruence|].
  destruct chunks as [|y ys].
  - cbn [deliver concat]. rewrite app_nil_r.
    destruct (on_readable command (arrive c x)) as [[c1 e1] x1]. reflexivity.
  - rewrite deliver_more.
    destruct (on_readable command (arrive c x)) as [[c1 e1] x1] eqn:H1.
    pose proof (Hgood x (concat (y :: ys)) c1 e1 x1 eq_refl H1) as Hh1.
    assert (Hca : 0 <= currentPacketLength (arrive c x))
      by (rewrite arrive_currentPacketLength; assumption).
    assert (Hc1 : 0 <= currentPacketLength c1).
    { eapply Runs_nonneg; [|exact Hca]. rewrite <- H1.
      apply on_readable_runs. assumption. }
    assert (Hgood1 : forall p rest c2 e2 x2,
              p ++ rest = concat (y :: ys) ->
              on_readable command (arrive c1 p) = (c2, e2, x2) ->
              halted x2 c2).
    { intros p rest c2 e2 x2 Hp H2.
      pose proof (on_readable_resume _ _ _ _ _ _ _ p Hca H1 Hh1 H2) as H.
      rewrite arrive_app in H.
      apply (Hgood (x ++ p) rest c2 (e1 ++ e2) x2); [|exact H].
      change (concat (x :: y :: ys)) with (x ++ concat (y :: ys)).
      rewrite <- Hp, app_assoc. reflexivity. }
    rewrite (IH c1 Hc1 ltac:(discriminate) Hgood1).
    destruct (on_readable command (arrive c1 (concat (y :: ys))))
      as [[c2 e2] x2] eqn:H2.
    pose proof (on_readable_resume _ _ _ _ _ _ _ _ Hca H1 Hh1 H2) as H.
    rewrite arrive_app in H. symmetry. exact H.
Qed.

Lemma prefix_good (c : Client) (packets : list Buffer) (p rest : Buffer)
    c1 e1 x1 :
  Forall wire_packet packets ->
  currentPacketLength c = 0 ->
  socket c = Some {| buffered := [] |} ->
  p ++ rest = concat packets ->
  on_readable command (arrive c p) = (c1, e1, x1) ->
  halted x1 c1 /\ (Forall readable_packet packets -> x1 = Starved).
Proof.
  intros Hw Hc Hs Hp H1.
  destruct (prefix_halts packets Hw (arrive c p) p rest)
    as (c' & ev & x & HR & Hh & Hst).
  - rewrite arrive_currentPacketLength. assumption.
  - unfold arrive. rewrite Hs. reflexivity.
  - assumption.
  - rewrite (on_readable_unique (arrive c p) (c', ev, x)) in H1.
    + injection H1 as <- <- <-. split; assumption.
    + rewrite arrive_currentPacketLength. lia.
    + assumption.
Qed.

Lemma clean_idle (c : Client) :
  currentPacketLength c = 0 ->
  socket c = Some {| buffered := [] |} ->
  on_readable command c = (c, [], Starved).
Proof.
  intros Hc Hs. apply on_readable_unique; [lia|].
  apply Runs_stop. unfold loop_body, header_phase. rewrite Hc, Hs. reflexivity.
Qed.

(** The notifications of a prefix of a stream of packets, cut into
    chunks in any way, do what one notification with the prefix does. *)
Lemma deliver_prefix (c : Client) (packets : list Buffer) (rest : Buffer)
    (chunks : list Buffer) :
  Forall wire_packet packets ->
  currentPacketLength c = 0 ->
  socket c = Some {| buffered := [] |} ->
  concat chunks ++ rest = concat packets ->
  deliver command c chunks = on_readable command (arrive c (concat chunks)).
Proof.
  intros Hw Hc Hs Hp.
  destruct chunks as [|x xs].
  - cbn [deliver concat]. rewrite arrive_nil. symmetry.
    apply clean_idle; assumption.
  - apply deliver_concat; [lia | discriminate |].
    intros p r c1 e1 x1 Hpr H1.
    apply (prefix_good c packets p (r ++ rest) c1 e1 x1); auto.
    rewrite app_assoc, Hpr. assumption.
Qed.

(** The whole stream, in any chunks: all of it is consumed and the
    packets reach [resolve] as [dispatch] says. *)
Lemma deliver_packets (c : Client) (packets chunks : list Buffer) :
  Forall wire_packet packets ->
  Forall readable_packet packets ->
  currentPacketLength c = 0 ->
  socket c = Some {| buffered := [] |} ->
  concat chunks = concat packets ->
  exists c',
    deliver command c chunks
    = (c', snd (dispatch command c packets), Starved)
    /\ requests c' = requests (fst (dispatch command c packets))
    /\ currentPacketLength c' = 0
    /\ socket c' = Some {| buffered := [] |}.
Proof.
  intros Hw Hr Hc Hs Hcat.
  rewrite (deliver_prefix c packets [] chunks Hw Hc Hs)
    by (rewrite app_nil_r; exact Hcat).
  rewrite Hcat.
  destruct (run_packets packets Hw Hr (arrive c (concat packets)) c)
    as (c' & HR & Hq & Hc' & Hs').
  - rewrite arrive_currentPacketLength. exact Hc.
  - unfold arrive. rewrite Hs. reflexivity.
  - unfold requests, arrive. rewrite Hs. reflexivity.
  - exists c'. split; [|auto].
    apply on_readable_unique; [|exact HR].
    rewrite arrive_currentPacketLength. lia.
Qed.

(** A valid stream is a sequence of packets. *)
Lemma valid_stream_packets (s : Buffer) :
  valid_stream s
  <-> exists packets, Forall wire_packet packets /\ concat packets = s.
Proof.
  split.
  - induction 1 as [|dev cmd payload hdr rest He Hv (packets & Hw & Hcat)].
    + exists []. split; [constructor | reflexivity].
    + exists ((hdr ++ payload) :: packets). split.
      * constructor; [econstructor; exact He | exact Hw].
      * cbn [concat]. rewrite Hcat, app_assoc. reflexivity.
  - intros (packets & Hw & <-).
    induction Hw as [|packet packets Hp Hw IH]; [constructor|].
    destruct Hp as [dev cmd payload hdr He].
    cbn [concat]. rewrite <- app_assoc.
    econstructor; eassumption.
Qed.



End Framer.





(** The header of a packet with a payload is kept on the entry at the
    head of the queue.  The comparison above is between runs that start
    from the same queue; a request registered between the header and the
    payload finds no header on its entry, and the handler throws. *)
Lemma late_registration_throws :
  exists c1 c2 c3,
    Client.on_readable Samples.openrgb
      (Client.arrive (Samples.connected None)
         (firstn 16 (Samples.packet 0 0 [x03; x00; x00; x00])))
    = (c1, [], Client.Starved)
    /\ Client.readMessage c1 0 0 = Ok c2
    /\ Client.on_readable Samples.openrgb
         (Client.arrive c2 [x03; x00; x00; x00])
       = (c3, [], Client.Threw TypeError).
Proof.
  eexists. eexists. eexists.
  split; [vm_compute; reflexivity|].
  split; vm_compute; reflexivity.
Qed.

(** What the sample run does: the reply fulfils the pending promise
    with its payload; the broadcast that follows finds the queue empty
    and is not handed to [resolve]. *)
Lemma sample_run :
  snd (fst (Client.deliver Samples.openrgb (Samples.waiting 0 0) Samples.chunks))
  = [Client.Packet (Samples.packet 0 0 [x03; x00; x00; x00]);
     Client.Fulfilled 0 [x03; x00; x00; x00]].
Proof.
  vm_compute. reflexivity.
Qed.

(** ** What the handler keeps *)

Section Lifecycle.

Import Client.

Variable command : Commands.
Variable TextEncoder_encode : jsstring -> Buffer.

Lemma keeps_refl (c : Client) : keeps c c [].
Proof.
  unfold keeps. repeat split; auto using incl_refl.
  intros p payload [].
Qed.

Lemma keeps_trans (c c1 c2 : Client) e1 e2 :
  keeps c c1 e1 -> keeps c1 c2 e2 -> keeps c c2 (e1 ++ e2).
Proof.
  unfold keeps.
  intros (Hi1 & Hp1 & Hs1 & Hq1 & Hf1 & He1) (Hi2 & Hp2 & Hs2 & Hq2 & Hf2 & He2).
  repeat split.
  - congruence.
  - congruence.
  - auto.
  - eapply incl_tran; eassumption.
  - intros p payload Hin. apply in_app_or in Hin. destruct Hin as [Hin|Hin].
    + eapply Hf1; eassumption.
    + apply Hq1. eapply Hf2; eassumption.
  - intros Hq. rewrite (He1 Hq). cbn [app]. apply He2.
    assert (Hp : pending c1 = []).
    { specialize (Hq1). unfold pending in *. rewrite Hq in Hq1. cbn [map] in Hq1.
      destruct (map resolve (resolver c1)) as [|a l] eqn:E; [reflexivity|].
      exfalso. apply (Hq1 a). left. reflexivity. }
    unfold pending in Hp. destruct (resolver c1); [reflexivity|discriminate].
Qed.

Lemma splice_incl (i : nat) (l : list ResolveObject) (r : ResolveObject) :
  In r (splice i l) -> In r l.
Proof.
  revert i. induction l as [|x l IH]; intros i H.
  - destruct i; simpl in H; contradiction.
  - destruct i as [|i]; simpl in H.
    + right. assumption.
    + destruct H as [H|H]; [left; assumption | right; eapply IH; eassumption].
Qed.

Lemma resolve_packet_keeps (c c1 : Client) (buffer : Buffer) ev exn :
  resolver c <> [] ->
  resolve_packet command c buffer = (c1, ev, exn) ->
  keeps c c1 (Packet buffer :: ev).
Proof.
  intros Hne H. unfold resolve_packet in H.
  assert (Hsame : forall ev0, (forall p payload, ~ In (Fulfilled p payload) ev0) ->
                              keeps c c (Packet buffer :: ev0)).
  { intros ev0 Hno. unfold keeps. repeat split; auto using incl_refl.
    - intros p payload [Hin|Hin]; [discriminate | exfalso; eapply Hno; eassumption].
    - intros Hq. contradiction. }
  destruct (decodeHeader buffer) as [h|e].
  2:{ injection H as <- <- _. apply Hsame. intros p payload []. }
  destruct (h_commandId h =? deviceListUpdated command).
  { injection H as <- <- _. apply Hsame.
    intros p payload [Hin|[]]. discriminate. }
  destruct (resolver c) as [|r0 q] eqn:Hq; [contradiction|].
  destruct (findIndex (answers h) (r0 :: q)) as [i|].
  2:{ injection H as <- <- _. apply Hsame. intros p payload []. }
  destruct (nth_error (r0 :: q) i) as [r|] eqn:Hn.
  2:{ injection H as <- <- _. apply Hsame. intros p payload []. }
  injection H as <- <- _.
  unfold keeps, pending. cbn [isConnected promises socket resolver set_resolver].
  rewrite Hq. repeat split; auto.
  - intros p Hp. apply in_map_iff in Hp. destruct Hp as [x [<- Hx]].
    apply in_map. eapply splice_incl. eassumption.
  - intros p payload [Hin|[Hin|[]]]; [discriminate|].
    injection Hin as <- _. apply in_map. eapply nth_error_In. eassumption.
  - discriminate.
Qed.

Lemma keeps_update (c c0 : Client) :
  isConnected c0 = isConnected c ->
  promises c0 = promises c ->
  socket c0 <> None ->
  pending c0 = pending c ->
  keeps c c0 [].
Proof.
  intros Hi Hp Hs Hq. unfold keeps. rewrite Hq.
  repeat split; auto using incl_refl.
  - intros Hn. contradiction.
  - intros p payload [].
Qed.

Ltac keeps_unchanged :=
  first
    [ apply keeps_refl
    | apply keeps_update;
      [ reflexivity | reflexivity | discriminate
      | unfold pending; simpl;
        repeat match goal with
          | H : resolver _ = _ |- _ => simpl in H; rewrite H
          end; reflexivity ] ].

Ltac keeps_resolved :=
  match goal with
  | H : resolve_packet _ ?c0 ?b = (_, _, _) |- keeps ?c _ (Packet ?b :: ?ev) =>
      change (Packet b :: ev) with ([] ++ Packet b :: ev);
      apply (keeps_trans c c0);
      [ keeps_unchanged
      | eapply resolve_packet_keeps; [|exact H];
        simpl;
        repeat match goal with
          | H' : resolver _ = _ |- _ => simpl in H'; rewrite H'
          end; discriminate ]
  end.

Lemma header_phase_keeps (c c1 : Client) e1 f :
  header_phase command c = (c1, e1, f) -> keeps c c1 e1.
Proof.
  intros H. unfold header_phase, after_resolve in H.
  phase_cases H; injection H as <- <- _;
    first [ keeps_unchanged | keeps_resolved ].
Qed.

Lemma payload_phase_keeps (c c1 : Client) e1 f :
  payload_phase command c = (c1, e1, f) -> keeps c c1 e1.
Proof.
  intros H. unfold payload_phase, after_resolve in H.
  phase_cases H; injection H as <- <- _;
    first [ keeps_unchanged | keeps_resolved ].
Qed.

Lemma loop_body_keeps (c c1 : Client) e1 f :
  loop_body command c = (c1, e1, f) -> keeps c c1 e1.
Proof.
  intros H. unfold loop_body in H.
  destruct (header_phase command c) as [[ch eh] [|xh]] eqn:Hh.
  - destruct (payload_phase command ch) as [[cp ep] fp] eqn:Hp.
    injection H as <- <- _.
    eapply keeps_trans;
      [eapply header_phase_keeps | eapply payload_phase_keeps]; eassumption.
  - injection H as <- <- _. eapply header_phase_keeps; eassumption.
Qed.

Lemma readable_loop_keeps (fuel : nat) :
  forall (c c1 : Client) ev x,
    readable_loop command fuel c = Some (c1, ev, x) -> keeps c c1 ev.
Proof.
  induction fuel as [|fuel IH]; intros c c1 ev x H; [discriminate|].
  cbn [readable_loop] in H.
  destruct (loop_body command c) as [[cb eb] [|xb]] eqn:Hb.
  - destruct (readable_loop command fuel cb) as [[[c2 e2] x2]|] eqn:Hr;
      [|discriminate].
    injection H as <- <- _.
    eapply keeps_trans; [eapply loop_body_keeps | eapply IH]; eassumption.
  - injection H as <- <- _. eapply loop_body_keeps; eassumption.
Qed.

Lemma on_readable_keeps (c c1 : Client) ev x :
  on_readable command c = (c1, ev, x) -> keeps c c1 ev.
Proof.
  unfold on_readable. intros H.
  destruct (readable_loop command (S (unread c)) c) as [[[c2 e2] x2]|] eqn:Hr.
  - injection H as <- <- _. eapply readable_loop_keeps; eassumption.
  - injection H as <- <- _. apply keeps_refl.
Qed.

(** With nothing pending the handler emits nothing, whatever arrives:
    no packet reaches [resolve]. *)
Lemma empty_queue_silent (c : Client) (chunk : Buffer) :
  resolver c = [] ->
  snd (fst (on_readable command (arrive c chunk))) = [].
Proof.
  intros Hq.
  destruct (on_readable command (arrive c chunk)) as [[c1 ev] x] eqn:H.
  apply on_readable_keeps in H. destruct H as (_ & _ & _ & _ & _ & He).
  apply He. unfold arrive. destruct (socket c); assumption.
Qed.

(** *** disconnect *)

Lemma arrive_fields (c : Client) (chunk : Buffer) :
  isConnected (arrive c chunk) = isConnected c
  /\ promises (arrive c chunk) = promises c
  /\ resolver (arrive c chunk) = resolver c
  /\ (socket (arrive c chunk) = None -> socket c = None).
Proof.
  unfold arrive. destruct (socket c) eqn:Hs; cbn; auto.
  repeat split; auto. discriminate.
Qed.

Lemma step_readable (c c1 : Client) (chunk : Buffer) ev :
  step command TextEncoder_encode c (OpReadable chunk) = (c1, ev) ->
  keeps c c1 ev.
Proof.
  cbn [step]. intros H.
  destruct (on_readable command (arrive c chunk)) as [[c2 e2] x2] eqn:Hr.
  cbn [fst] in H. injection H as <- <-.
  apply on_readable_keeps in Hr.
  destruct (arrive_fields c chunk) as (Hi & Hp & Hq & Hs).
  unfold keeps, pending in *. rewrite Hi, Hp, Hq in Hr.
  destruct Hr as (H1 & H2 & H3 & H4 & H5 & H6). repeat split; auto.
Qed.

Lemma invariant_new name port host settings :
  invariant (constructor name port host settings).
Proof.
  unfold invariant, pending. cbn. split; [auto | constructor].
Qed.

Lemma invariant_step (c : Client) (op : Op) :
  invariant c -> invariant (fst (step command TextEncoder_encode c op)).
Proof.
  intros [Hs Hp]. destruct op as [res|reply|cmd dev|chunk| |err listened|].
  - cbn [step fst]. unfold connect_begin, invariant, pending.
    destruct res; cbn; (split; [discriminate | exact Hp]).
  - cbn [step]. unfold connect_finish.
    destruct (sendMessage _ _ _ _); cbn [fst]; split; assumption.
  - cbn [step]. unfold readMessage.
    assert (Hinv : invariant c) by (split; assumption).
    destruct (isConnected c) eqn:Hc; cbn [negb fst]; [|exact Hinv].
    clear Hinv. unfold invariant, pending in *. cbn. split.
    + intros Hn. destruct (Hs Hn) as [Hf _]. congruence.
    + rewrite map_app. apply Forall_app. split.
      * eapply Forall_impl; [|exact Hp]. cbn. intros; lia.
      * cbn. repeat constructor.
  - destruct (step command TextEncoder_encode c (OpReadable chunk))
      as [c1 ev] eqn:Hst.
    apply step_readable in Hst. cbn [fst].
    destruct Hst as (Hi & Hpr & Hso & Hq & _ & _).
    unfold invariant. split.
    + intros Hn. destruct (Hs (Hso Hn)) as [Hf He]. split; [congruence|].
      unfold pending in Hq. rewrite He in Hq. cbn [map] in Hq.
      destruct (resolver c1) as [|r q]; [reflexivity|].
      exfalso. apply (Hq (resolve r)). left. reflexivity.
    + rewrite Hpr. rewrite Forall_forall in *. intros p Hin.
      apply Hp, Hq, Hin.
  - cbn. unfold invariant, pending in *. cbn. split; [|exact Hp].
    intros Hn. destruct (Hs Hn). auto.
  - cbn [step]. unfold on_error.
    destruct listened; cbn [fst]; [|split; assumption].
    unfold invariant, pending in *. cbn. split; [|exact Hp].
    intros Hn. destruct (Hs Hn). auto.
  - cbn [step]. unfold disconnect.
    assert (Hinv : invariant c) by (split; assumption).
    destruct (socket c) eqn:Hso; cbn [fst].
    + unfold invariant, pending. cbn. rewrite Hso.
      split; [discriminate | constructor].
    + exact Hinv.
Qed.

Lemma reachable_invariant (c : Client) :
  reachable command TextEncoder_encode c -> invariant c.
Proof.
  induction 1 as [name port host settings | c op H IH].
  - apply invariant_new.
  - apply invariant_step. assumption.
Qed.

(** From a state whose pending promises are all numbered from [n] up, a
    step fulfils only such promises and leads to such a state. *)
Lemma step_from (n : nat) (c c1 : Client) (op : Op) ev :
  Forall (fun p => (n <= p)%nat) (pending c) ->
  (n <= promises c)%nat ->
  step command TextEncoder_encode c op = (c1, ev) ->
  Forall (fun p => (n <= p)%nat) (pending c1)
  /\ (n <= promises c1)%nat
  /\ forall p payload, In (Fulfilled p payload) ev -> (n <= p)%nat.
Proof.
  intros Hq Hp H. destruct op as [res|reply|cmd dev|chunk| |err listened|].
  - cbn [step] in H. injection H as <- <-.
    unfold connect_begin, pending in *.
    destruct res; cbn; (repeat split; [assumption..|intros p payload []]).
  - cbn [step] in H. unfold connect_finish in H.
    destruct (sendMessage _ _ _ _) as [ev0|e] eqn:Hm; cbn [fst] in H;
      injection H as <- <-; unfold pending in *; cbn;
      (repeat split; [assumption..|]).
    + unfold sendMessage, bind in Hm.
      destruct (negb _); [discriminate|].
      destruct (encodeHeader _ _ _); [|discriminate].
      destruct (socket _); [|discriminate].
      injection Hm as <-.
      intros p payload [Hin|[Hin|[]]]; discriminate.
    + intros p payload [].
  - cbn [step] in H. unfold readMessage in H.
    destruct (negb (isConnected c)); injection H as <- <-.
    + repeat split; [assumption..|intros p payload []].
    + unfold pending in *. cbn. rewrite map_app. repeat split.
      * apply Forall_app. split; [assumption|]. cbn. repeat constructor.
        assumption.
      * lia.
      * intros p payload [].
  - apply step_readable in H.
    destruct H as (_ & Hpr & _ & Hi & Hf & _). repeat split.
    + rewrite Forall_forall in *. intros p Hin. apply Hq, Hi, Hin.
    + lia.
    + intros p payload Hin. rewrite Forall_forall in Hq.
      eapply Hq, Hf, Hin.
  - cbn in H. injection H as <- <-. unfold pending in *. cbn.
    repeat split; [assumption..|].
    intros p payload [Hin|[]]. discriminate.
  - cbn [step] in H. unfold on_error in H.
    destruct listened; cbn [fst] in H; injection H as <- <-.
    + unfold pending in *. cbn. repeat split; [assumption..|].
      intros p payload [Hin|[]]. discriminate.
    + repeat split; [assumption..|intros p payload []].
  - cbn [step] in H. unfold disconnect in H.
    destruct (socket c); cbn [fst] in H; injection H as <- <-.
    + unfold pending. cbn. repeat split; [constructor | assumption |].
      intros p payload [Hin|[]]. discriminate.
    + repeat split; [assumption..|intros p payload []].
Qed.

Lemma run_from (n : nat) (ops : list Op) :
  forall (c c1 : Client) ev,
    Forall (fun p => (n <= p)%nat) (pending c) ->
    (n <= promises c)%nat ->
    run command TextEncoder_encode c ops = (c1, ev) ->
    forall p payload, In (Fulfilled p payload) ev -> (n <= p)%nat.
Proof.
  induction ops as [|op ops IH]; intros c c1 ev Hq Hp H p payload Hin.
  - cbn in H. injection H as <- <-. destruct Hin.
  - cbn [run] in H.
    destruct (step command TextEncoder_encode c op) as [ca ea] eqn:Hs.
    destruct (run command TextEncoder_encode ca ops) as [cb eb] eqn:Hr.
    injection H as <- <-.
    destruct (step_from n _ _ _ _ Hq Hp Hs) as (Hq1 & Hp1 & Hf1).
    apply in_app_or in Hin. destruct Hin as [Hin|Hin].
    + eapply Hf1; eassumption.
    + eapply IH; eassumption.
Qed.

(** C10.  In every state the client can reach, [disconnect] leaves
    [isConnected] false and the queue of pending requests empty, and no
    promise that was pending is fulfilled by anything that happens
    later.  (No promise is ever rejected: [readMessage] keeps only the
    function that fulfils it, so the events have no rejection.) *)
Theorem disconnect_discards :
  forall (c : Client),
    reachable command TextEncoder_encode c ->
    let c' := fst (fst (disconnect c)) in
    isConnected c' = false
    /\ resolver c' = []
    /\ forall (ops : list Op) (p : nat) (payload : Buffer),
         In p (pending c) ->
         ~ In (Fulfilled p payload)
              (snd (run command TextEncoder_encode c' ops)).
Proof.
  intros c Hr c'. apply reachable_invariant in Hr. destruct Hr as [Hs Hp].
  assert (Hc' : isConnected c' = false /\ resolver c' = []
                /\ promises c' = promises c).
  { unfold c', disconnect. destruct (socket c) eqn:Hso; cbn.
    - auto.
    - destruct (Hs eq_refl). auto. }
  destruct Hc' as (Hi & Hq & Hn). repeat split; [assumption..|].
  intros ops p payload Hin Hf.
  destruct (run command TextEncoder_encode c' ops) as [c1 ev] eqn:Hrun.
  cbn [snd] in Hf.
  assert (promises c <= p)%nat.
  { eapply (run_from (promises c)); [| |exact Hrun|exact Hf].
    - unfold pending. rewrite Hq. constructor.
    - lia. }
  rewrite Forall_forall in Hp. specialize (Hp p Hin). lia.
Qed.

End Lifecycle.

Lemma disconnect_discards_witness :
  let c' := fst (fst (Client.disconnect Samples.busy)) in
  Client.isConnected c' = false
  /\ Client.resolver c' = []
  /\ forall ops p payload,
       In p (Client.pending Samples.busy) ->
       ~ In (Client.Fulfilled p payload)
            (snd (Client.run Samples.openrgb Samples.encode c' ops)).
Proof.
  apply (disconnect_discards Samples.openrgb Samples.encode Samples.busy).
  unfold Samples.busy.
  apply Client.reachable_step. apply Client.reachable_step.
  apply Client.reachable_new.
Defined.

(** ** A header without the magic *)

(** On a header that does not start with the magic the handler returns:
    the sixteen bytes are gone, nothing is emitted, the client stays
    connected, and what follows in the buffer, complete packets
    included, stays unread. *)
Lemma bad_magic_returns command (c : Client.Client) (hdr rest : Buffer) :
  Client.currentPacketLength c = 0 ->
  Client.socket c = Some {| Client.buffered := hdr ++ rest |} ->
  List.length hdr = 16%nat ->
  equals (slice hdr 0 4) Client.magic = false ->
  Client.on_readable command c
  = (Client.set_socket c (Some {| Client.buffered := rest |}), [],
     Client.BadMagic).
Proof.
  intros Hc Hs Hl Hm. apply on_readable_unique; [lia|].
  apply Client.Runs_stop. unfold Client.loop_body, Client.header_phase.
  rewrite Hc, Hs. cbn [Z.eqb].
  rewrite (socket_read_header hdr rest Hl), Hm.
  reflexivity.
Qed.

(** C4, at a corrupted stream: sixteen bytes with a wrong magic arrive
    together with a complete reply to the pending request.  The handler
    drops the sixteen bytes and returns.  The reply stays in the
    socket's buffer (twenty unread bytes), the request stays pending,
    no error is emitted and the client still counts as connected: the
    handler neither looks for the next magic nor fails the connection. *)
Theorem bad_magic_stalls :
  exists c',
    Client.on_readable Samples.openrgb
      (Client.arrive (Samples.waiting 0 0) Samples.corrupted)
    = (c', [], Client.BadMagic)
    /\ Client.socket c'
       = Some {| Client.buffered := Samples.packet 0 0 [x03; x00; x00; x00] |}
    /\ Client.unread c' = 20%nat
    /\ Client.pending c' = [0%nat]
    /\ Client.isConnected c' = true.
Proof.
  eexists. split; [vm_compute; reflexivity|].
  repeat split; reflexivity.
Qed.

(** ** The broadcast on an empty queue *)

(** C6, with nothing pending: the broadcast packet is read from the
    socket and nothing is emitted, with or without a payload. *)
Theorem broadcast_lost_on_empty_queue :
  Client.on_readable Samples.openrgb
    (Client.arrive (Samples.connected None) (Samples.packet 0 100 []))
  = (Samples.connected None, [], Client.Starved)
  /\ Client.on_readable Samples.openrgb
       (Client.arrive (Samples.connected None) (Samples.packet 0 100 [x00]))
     = (Samples.connected None, [], Client.Starved).
Proof.
  split; vm_compute; reflexivity.
Qed.

(** With a request pending the same packet does reach [resolve], and the
    event is emitted; the queue keeps its entry. *)
Lemma broadcast_emitted_when_waiting :
  exists c',
    Client.on_readable Samples.openrgb
      (Client.arrive (Samples.waiting 0 0) (Samples.packet 0 100 []))
    = (c', [Client.Packet (Samples.packet 0 100 []);
            Client.Emitted "deviceListUpdated"], Client.Starved)
    /\ Client.pending c' = [0%nat].
Proof.
  eexists. split; [vm_compute; reflexivity | reflexivity].
Qed.

(** ** The mode codec (client.ts, sendMode; device.ts, readModes) *)

Section ModeCodec.

Import Classes Wire.

Variable TextDecoder_decode : Buffer -> jsstring.

Hypothesis decode_ascii :
  forall bs, Forall is_ascii bs -> TextDecoder_decode bs = ascii_text bs.

Lemma clamp_id (lo hi v : Z) :
  lo <= v <= hi -> Bufferpack.clamp lo hi v = v.
Proof.
  intros H. unfold Bufferpack.clamp.
  destruct (Z.ltb_spec v lo); [lia|].
  destruct (Z.ltb_spec hi v); [lia|reflexivity].
Qed.

Lemma pack_I_u32 (v : Z) : u32 v -> Bufferpack.pack_I v = le32 v.
Proof.
  intros H. unfold Bufferpack.pack_I. rewrite clamp_id; [reflexivity|exact H].
Qed.

Lemma skipn_add {A : Type} (l : list A) (base k : nat) :
  skipn (base + k) l = skipn k (skipn base l).
Proof.
  rewrite skipn_skipn. f_equal. lia.
Qed.

Lemma readUInt32LE_in (buf T : Buffer) (base k : nat) :
  skipn base buf = T ->
  readUInt32LE buf (base + k) = readUInt32LE T k.
Proof.
  intros <-. unfold readUInt32LE. rewrite skipn_add. reflexivity.
Qed.

Lemma readUInt16LE_in (buf T : Buffer) (base k : nat) :
  skipn base buf = T ->
  readUInt16LE buf (base + k) = readUInt16LE T k.
Proof.
  intros <-. unfold readUInt16LE. rewrite skipn_add. reflexivity.
Qed.

Lemma readUInt8_in (buf T : Buffer) (base k : nat) :
  skipn base buf = T ->
  readUInt8 buf (base + k) = readUInt8 T k.
Proof.
  intros <-. unfold readUInt8. rewrite skipn_add. reflexivity.
Qed.

Lemma readUInt32LE_head (v : Z) (rest : Buffer) :
  u32 v -> readUInt32LE (le32 v ++ rest) 0 = Ok v.
Proof.
  intros H. apply (readUInt32LE_le32 [] rest v H).
Qed.

Lemma readUInt16LE_head (v : Z) (rest : Buffer) :
  0 <= v <= 65535 -> readUInt16LE (le16 v ++ rest) 0 = Ok v.
Proof.
  intros H. apply (readUInt16LE_le16 [] rest v H).
Qed.

(** *** Colours *)

Lemma pack_color_list_fold (cs : list RGBColor) (acc : Buffer) :
  Forall (fun c => channel (red c) /\ channel (green c) /\ channel (blue c)) cs ->
  fold_left
    (fun out element =>
       out ++ [] ++
       (Bufferpack.pack_B (red element) ++ Bufferpack.pack_B (green element)
        ++ Bufferpack.pack_B (blue element) ++ [x00]))
    cs acc
  = acc ++ concat (map color_bytes cs).
Proof.
  intros H. revert acc. induction H as [|c cs (Hr & Hg & Hb) Hcs IH]; intros acc.
  - cbn. symmetry. apply app_nil_r.
  - cbn [fold_left map concat]. rewrite IH, <- app_assoc. f_equal.
    unfold Bufferpack.pack_B, color_bytes.
    rewrite !clamp_id by assumption. reflexivity.
Qed.

Lemma pack_color_list_bytes (cs : list RGBColor) :
  Forall (fun c => channel (red c) /\ channel (green c) /\ channel (blue c)) cs ->
  Z.of_nat (List.length cs) <= 65535 ->
  Client.pack_color_list cs
  = le16 (Z.of_nat (List.length cs)) ++ concat (map color_bytes cs).
Proof.
  intros H Hl. unfold Client.pack_color_list.
  rewrite pack_color_list_fold by assumption.
  unfold Bufferpack.pack_H. rewrite clamp_id by lia. reflexivity.
Qed.

Lemma readColors_bytes (cs : list RGBColor) :
  Forall (fun c => channel (red c) /\ channel (green c) /\ channel (blue c)) cs ->
  forall (buf rest : Buffer) (off : nat),
    skipn off buf = concat (map color_bytes cs) ++ rest ->
    Device.readColors buf (List.length cs) off
    = Ok (cs, (off + 4 * List.length cs)%nat).
Proof.
  induction 1 as [|c cs (Hr & Hg & Hb) Hcs IH]; intros buf rest off Hoff.
  - cbn. do 2 f_equal. lia.
  - cbn [List.length Device.readColors].
    unfold Device.readColor.
    rewrite <- (Nat.add_0_r off) at 1.
    rewrite !(readUInt8_in buf _ off _ Hoff).
    cbn [map concat color_bytes app readUInt8 skipn bind].
    rewrite !byte_val_of.
    unfold channel in *. rewrite !Z.mod_small by lia.
    rewrite (IH buf rest (off + 4)%nat).
    + cbn [bind]. destruct c. cbn. do 2 f_equal. lia.
    + rewrite skipn_add, Hoff. reflexivity.
Qed.

(** *** Names *)

Lemma ascii_pack_s (s : jsstring) :
  Forall (fun u => 0 <= u < 128) s ->
  Forall is_ascii (pack_s s) /\ ascii_text (pack_s s) = s.
Proof.
  induction 1 as [|u s Hu Hs [IH1 IH2]].
  - split; [constructor | reflexivity].
  - unfold pack_s, ascii_text, is_ascii in *. cbn [map]. split.
    + constructor; [|exact IH1]. rewrite byte_val_of, Z.mod_small; lia.
    + rewrite byte_val_of, Z.mod_small by lia. f_equal. exact IH2.
Qed.

(** *** The round trip *)

Ltac read_block :=
  match goal with
  | T := _ |- readUInt32LE ?T _ = Ok _ =>
      unfold T, readUInt32LE, le32; cbn [app skipn];
      f_equal; apply le32_read; assumption
  end.

Theorem mode_roundtrip :
  forall (protocolVersion : Z) (m : Mode),
    3 <= protocolVersion ->
    wire_mode m ->
    forced m ->
    Device.readMode TextDecoder_decode
      (Client.sendMode_data protocolVersion m) 8 protocolVersion (id m)
    = Ok (m, List.length (Client.sendMode_data protocolVersion m)).
Proof.
  intros v m Hv Hw Hf.
  destruct Hw as (Hval & Hflags & Hsmin & Hsmax & (bmin & bmax & b & Ebmin & Ebmax & Eb & Hbmin & Hbmax & Hb)
                  & Hcmin & Hcmax & Hspeed & Hdir & Hcmode & Hname & Hnlen & Hclen & Hcols).
  destruct Hf as (flagcheck & Hfc & Hlist & Fspeed & Fbright & Fdir & Fcol).
  destruct (ascii_pack_s _ Hname) as [Hasc Htxt].
  (* the bytes *)
  set (N := pack_s (name m)).
  set (C := concat (map color_bytes (colors m))).
  set (T := le32 (value m) ++ le32 (flags m) ++ le32 (speedMin m)
            ++ le32 (speedMax m) ++ le32 bmin ++ le32 bmax
            ++ le32 (colorMin m) ++ le32 (colorMax m) ++ le32 (speed m)
            ++ le32 b ++ le32 (direction m) ++ le32 (colorMode m)
            ++ le16 (Z.of_nat (List.length (colors m))) ++ C).
  set (n := List.length (name m)).
  assert (HN : List.length N = n) by (unfold N, n, pack_s; apply length_map).
  assert (Hdata :
    exists P, List.length P = 8%nat
      /\ Client.sendMode_data v m
         = P ++ le16 (Z.of_nat n + 1) ++ N ++ x00 :: T).
  { unfold Client.sendMode_data.
    destruct (Z.leb_spec 3 v); [|lia].
    exists (Bufferpack.pack_I
              (Z.of_nat (List.length
                 (Bufferpack.pack_I (id m) ++ Client.pack_string (name m)
                  ++ Bufferpack.pack_Is
                       [value m; flags m; speedMin m; speedMax m;
                        Bufferpack.undefined_as_zero (brightnessMin m);
                        Bufferpack.undefined_as_zero (brightnessMax m);
                        colorMin m; colorMax m; speed m;
                        Bufferpack.undefined_as_zero (brightness m);
                        direction m; colorMode m]
                  ++ Client.pack_color_list (colors m))))
            ++ Bufferpack.pack_I (id m)).
    split; [reflexivity|].
    rewrite <- !app_assoc. do 2 f_equal.
    unfold Client.pack_string, Bufferpack.pack_H.
    rewrite clamp_id by (fold n; unfold n; lia).
    rewrite <- !app_assoc. fold n N. do 2 f_equal. cbn [app]. f_equal.
    rewrite Ebmin, Ebmax, Eb. unfold Bufferpack.pack_Is.
    cbn [map concat Bufferpack.undefined_as_zero].
    rewrite !pack_I_u32 by (assumption || (unfold u32; lia)).
    rewrite pack_color_list_bytes by assumption.
    rewrite <- !app_assoc, app_nil_l. reflexivity. }
  destruct Hdata as (P & HP & Hdata).
  rewrite Hdata. clear Hdata.
  set (buf := P ++ le16 (Z.of_nat n + 1) ++ N ++ x00 :: T).
  assert (H8 : skipn 8 buf = le16 (Z.of_nat n + 1) ++ N ++ x00 :: T).
  { unfold buf. rewrite <- HP. apply skipn_app_exact. }
  assert (Hstr : Device.readString TextDecoder_decode buf 8
                 = Ok {| Device.text := name m;
                         Device.length := Z.of_nat n + 1 + 2 |}).
  { unfold Device.readString.
    rewrite <- (Nat.add_0_r 8) at 1.
    rewrite (readUInt16LE_in buf _ 8 0 H8), readUInt16LE_head by (unfold n; lia).
    cbn [bind]. do 2 f_equal.
    unfold slice.
    replace (8 + Z.to_nat (Z.of_nat n + 1) + 1 - (8 + 2))%nat with n by lia.
    rewrite skipn_add, H8. cbn [le16 app skipn].
    rewrite <- HN, firstn_app, firstn_all, Nat.sub_diag. cbn [firstn].
    rewrite app_nil_r, decode_ascii by assumption. exact Htxt. }
  set (base := (8 + Z.to_nat (Z.of_nat n + 1 + 2))%nat).
  assert (Hbase : skipn base buf = T).
  { unfold base. rewrite skipn_add, H8.
    replace (Z.to_nat (Z.of_nat n + 1 + 2)) with (2 + (n + 1))%nat by lia.
    rewrite skipn_add. cbn [le16 app skipn].
    replace (N ++ x00 :: T) with ((N ++ [x00]) ++ T)
      by (rewrite <- app_assoc; reflexivity).
    replace (n + 1)%nat with (List.length (N ++ [x00]))
      by (rewrite length_app, HN; reflexivity).
    apply skipn_app_exact. }
  assert (R : forall k, readUInt32LE buf (base + k) = readUInt32LE T k)
    by (intros k; apply readUInt32LE_in; exact Hbase).
  assert (R16 : forall k, readUInt16LE buf (base + k) = readUInt16LE T k)
    by (intros k; apply readUInt16LE_in; exact Hbase).
  unfold Device.readMode.
  rewrite Hstr. cbn [bind Device.text Device.length]. fold base.
  unfold readInt32LE.
  rewrite <- (Nat.add_0_r base) at 1.
  rewrite <- !Nat.add_assoc. cbn [Nat.add].
  rewrite !R.
  assert (B0 : readUInt32LE T 0 = Ok (value m))
    by (unfold T; apply readUInt32LE_head; unfold u32; lia).
  assert (B4 : readUInt32LE T 4 = Ok (flags m)) by read_block.
  assert (B8 : readUInt32LE T 8 = Ok (speedMin m)) by read_block.
  assert (B12 : readUInt32LE T 12 = Ok (speedMax m)) by read_block.
  assert (B16 : readUInt32LE T 16 = Ok bmin) by read_block.
  assert (B20 : readUInt32LE T 20 = Ok bmax) by read_block.
  assert (B24 : readUInt32LE T 24 = Ok (colorMin m)) by read_block.
  assert (B28 : readUInt32LE T 28 = Ok (colorMax m)) by read_block.
  assert (B32 : readUInt32LE T 32 = Ok (speed m)) by read_block.
  assert (B36 : readUInt32LE T 36 = Ok b) by read_block.
  assert (B40 : readUInt32LE T 40 = Ok (direction m)) by read_block.
  assert (B44 : readUInt32LE T 44 = Ok (colorMode m)) by read_block.
  assert (B48 : readUInt16LE T 48
                = Ok (Z.of_nat (List.length (colors m)))).
  { unfold T, readUInt16LE, le32. cbn [app skipn].
    change (readUInt16LE
              (le16 (Z.of_nat (List.length (colors m))) ++ C) 0
            = Ok (Z.of_nat (List.length (colors m)))).
    apply readUInt16LE_head. lia. }
  assert (B50 : skipn (base + 50) buf = C ++ []).
  { rewrite skipn_add, Hbase, app_nil_r. reflexivity. }
  destruct (Z.leb_spec 3 v) as [_|]; [|lia].
  rewrite B0, B4, B8, B12, B16, B20. cbn [bind].
  destruct (Z.leb_spec 2147483648 (value m)) as [|_]; [lia|].
  rewrite <- !Nat.add_assoc. cbn [Nat.add].
  rewrite !R, B24, B28, B32, B36. cbn [bind].
  rewrite <- !Nat.add_assoc. cbn [Nat.add].
  rewrite !R, R16, B40, B44, B48, Hfc. cbn [bind andb].
  set (f := Device.Number_truthy flagcheck) in *.
  assert (E1 : (if negb (f 0%nat) then (0, 0, 0)
                else (speedMin m, speedMax m, speed m))
               = (speedMin m, speedMax m, speed m)).
  { destruct (f 0%nat); [reflexivity|].
    destruct (Fspeed eq_refl) as (-> & -> & ->). reflexivity. }
  assert (E2 : (if negb (f 4%nat) then (Some 0, Some 0, Some 0)
                else (Some bmin, Some bmax, Some b))
               = (brightnessMin m, brightnessMax m, brightness m)).
  { rewrite Ebmin, Ebmax, Eb. destruct (f 4%nat); [reflexivity|].
    destruct (Fbright eq_refl) as (F1 & F2 & F3). cbn [negb]. congruence. }
  assert (E3 : (if negb (f 5%nat) && negb (f 6%nat) && negb (f 7%nat)
                   || (Z.of_nat (List.length (colors m)) =? 0)
                then (0, 0, 0)
                else (Z.of_nat (List.length (colors m)), colorMin m, colorMax m))
               = (Z.of_nat (List.length (colors m)), colorMin m, colorMax m)).
  { destruct (negb (f 5%nat) && negb (f 6%nat) && negb (f 7%nat)) eqn:E.
    - destruct (Fcol (or_introl eq_refl)) as (-> & -> & ->). reflexivity.
    - cbn [orb].
      destruct (Z.eqb_spec (Z.of_nat (List.length (colors m))) 0) as [E0|];
        [|reflexivity].
      assert (Hnil : colors m = [])
        by (destruct (colors m); [reflexivity | cbn in E0; lia]).
      destruct (Fcol (or_intror Hnil)) as (-> & -> & ->). reflexivity. }
  assert (E4 : (if negb (f 1%nat) && negb (f 2%nat) && negb (f 3%nat)
                then 0 else direction m) = direction m).
  { destruct (negb (f 1%nat) && negb (f 2%nat) && negb (f 3%nat)) eqn:E;
      [|reflexivity].
    symmetry. apply Fdir. reflexivity. }
  rewrite E1, E2, E3, E4, Nat2Z.id.
  rewrite (readColors_bytes _ Hcols buf [] (base + 50)%nat B50).
  cbn [bind]. rewrite <- Hlist. f_equal. f_equal.
  - destruct m; reflexivity.
  - unfold buf, base. rewrite !length_app. cbn [List.length].
    rewrite HP, HN. unfold T. rewrite !length_app.
    assert (HC : List.length C = (4 * List.length (colors m))%nat).
    { unfold C. clear. induction (colors m) as [|c cs IH]; [reflexivity|].
      cbn [map concat]. rewrite length_app, IH. cbn [color_bytes List.length].
      lia. }
    rewrite HC. cbn [le32 le16 List.length]. lia.
Qed.

(** *** Decoded modes are in normal form *)

Lemma readColors_length (buf : Buffer) (count : nat) :
  forall off cs off',
    Device.readColors buf count off = Ok (cs, off') ->
    List.length cs = count.
Proof.
  induction count as [|count IH]; intros off cs off' H; cbn in H.
  - injection H as <- _. reflexivity.
  - destruct (Device.readColor buf off) as [c|]; [|discriminate].
    cbn [bind] in H.
    destruct (Device.readColors buf count (off + 4)) as [[cs1 o1]|] eqn:E;
      [|discriminate].
    cbn [bind] in H. injection H as <- _.
    cbn. f_equal. eapply IH. eassumption.
Qed.

Lemma readUInt16LE_nonneg (buf : Buffer) (off : nat) (v : Z) :
  readUInt16LE buf off = Ok v -> 0 <= v.
Proof.
  unfold readUInt16LE.
  destruct (skipn off buf) as [|b0 [|b1 r]]; try discriminate.
  intros H.
  assert (Hv : byte_val b0 + 256 * byte_val b1 = v) by congruence.
  pose proof (byte_val_range b0). pose proof (byte_val_range b1). lia.
Qed.

Ltac bind_cases H :=
  repeat match type of H with
    | bind ?x _ = Ok _ =>
        let E := fresh "E" in
        destruct x eqn:E; cbn [bind] in H; [|discriminate]
    | (let '(_, _) := ?p in _) = Ok _ => is_var p; destruct p
    end.

(** Every mode that [readModes] yields at protocol 3 and higher is in
    the normal form. *)
Lemma readMode_forced (buf : Buffer) (off off' : nat) (v idx : Z) (m : Mode) :
  3 <= v ->
  Device.readMode TextDecoder_decode buf off v idx = Ok (m, off') ->
  forced m.
Proof.
  intros Hv H. unfold Device.readMode in H.
  destruct (Z.leb_spec 3 v) as [_|]; [|lia].
  bind_cases H.
  match goal with
  | E : Device.flagcheck_of _ = Ok ?fc |- _ =>
      rename E into Hfc; set (f := Device.Number_truthy fc) in *
  end.
  match goal with
  | E : readUInt16LE _ _ = Ok ?cl |- _ =>
      apply readUInt16LE_nonneg in E; rename E into Hcl
  end.
  cbn [andb] in H.
  destruct (negb (f 0%nat)) eqn:F0;
    destruct (negb (f 4%nat)) eqn:F4;
    destruct (negb (f 5%nat) && negb (f 6%nat) && negb (f 7%nat)) eqn:F5;
    cbn [orb] in H;
    try match type of H with
      | context [?c =? 0] => destruct (Z.eqb_spec c 0)
      end;
    cbv iota beta in H;
    bind_cases H;
    match goal with
    | E : Device.readColors _ _ _ = Ok _ |- _ =>
        apply readColors_length in E; rename E into Hlen
    end;
    injection H as <- _;
    unfold forced; cbn; eexists; (split; [exact Hfc|]); fold f;
    rewrite ?negb_true_iff, ?negb_false_iff in *;
    repeat split; intros;
    try reflexivity; try congruence;
    try match goal with
      | H0 : ?c = true |- (if ?c then _ else _) = _ =>
          rewrite H0; reflexivity
      end;
    match goal with
    | Hl : List.length ?l = _ |- ?l = [] =>
        destruct l; [reflexivity | cbn in Hl; lia]
    | Hl : List.length ?l = _, H0 : _ \/ ?l = [] |- _ =>
        destruct H0 as [H0|H0]; [congruence | subst l; cbn in Hl; lia]
    end.
Qed.

End ModeCodec.

Lemma mode_roundtrip_witness :
  Device.readMode Samples.decode
    (Client.sendMode_data 3 Samples.rainbow) 8 3 (Classes.id Samples.rainbow)
  = Ok (Samples.rainbow, List.length (Client.sendMode_data 3 Samples.rainbow)).
Proof.
  apply (mode_roundtrip Samples.decode).
  - intros bs _. reflexivity.
  - lia.
  - unfold Wire.wire_mode, Wire.u32, Wire.channel. cbn.
    repeat split; try lia.
    + exists 1, 100, 50. repeat split; lia.
    + repeat constructor; lia.
    + repeat constructor; cbn; lia.
  - unfold Wire.forced. eexists. split; [vm_compute; reflexivity|].
    cbn. repeat split; intros; try reflexivity; try discriminate;
      match goal with
      | Hc : _ \/ _ |- _ => destruct Hc; discriminate
      end.
Defined.

(** C9, as stated, fails: a mode without the speed flag whose speed is
    5 comes back from the round trip at protocol 3 with speed 0. *)
Lemma mode_roundtrip_counterexample :
  exists m' off,
    Device.readMode Samples.decode
      (Client.sendMode_data 3 Samples.plain_mode) 8 3
      (Classes.id Samples.plain_mode)
    = Ok (m', off)
    /\ Classes.speed m' = 0
    /\ Classes.speed Samples.plain_mode = 5
    /\ m' <> Samples.plain_mode.
Proof.
  eexists. eexists. split; [vm_compute; reflexivity|].
  repeat split. intros H. discriminate H.
Qed.

(** * Further properties *)

(** ** Headers and messages (client.ts, encodeHeader, decodeHeader,
       sendMessage) *)

Lemma not_u32_leb (v : Z) :
  ~ Wire.u32 v -> (0 <=? v) && (v <=? 4294967295) = false.
Proof.
  unfold Wire.u32. intros H.
  destruct (Z.leb_spec 0 v); destruct (Z.leb_spec v 4294967295);
    try reflexivity. lia.
Qed.

(** X1.  For a device, a command and a length that are unsigned 32-bit
    numbers, [encodeHeader] builds sixteen bytes that start with the
    magic, and [decodeHeader] reads the three numbers back from them,
    whatever payload follows. *)
Theorem header_roundtrip :
  forall (commandId length deviceId : Z) (payload : Buffer),
    Wire.u32 deviceId -> Wire.u32 commandId -> Wire.u32 length ->
    exists header,
      Client.encodeHeader commandId length deviceId = Ok header
      /\ List.length header = 16%nat
      /\ firstn 4 header = Client.magic
      /\ Client.decodeHeader (header ++ payload)
         = Ok {| Client.h_deviceId := deviceId;
                 Client.h_commandId := commandId;
                 Client.h_length := length |}.
Proof.
  intros commandId length deviceId payload Hd Hc Hl.
  eexists. split; [apply encodeHeader_u32; assumption|].
  split; [reflexivity|]. split; [reflexivity|].
  apply decodeHeader_le32; assumption.
Qed.

Lemma header_roundtrip_witness :
  exists header,
    Client.encodeHeader 1 4 0 = Ok header
    /\ List.length header = 16%nat
    /\ firstn 4 header = Client.magic
    /\ Client.decodeHeader (header ++ [x03; x00; x00; x00])
       = Ok {| Client.h_deviceId := 0; Client.h_commandId := 1;
               Client.h_length := 4 |}.
Proof.
  apply (header_roundtrip 1 4 0 [x03; x00; x00; x00]);
    unfold Wire.u32; lia.
Defined.

(** X2.  [encodeHeader] throws a [RangeError] exactly when one of the
    three numbers is not an unsigned 32-bit number. *)
Theorem encodeHeader_range :
  forall (commandId length deviceId : Z),
    Client.encodeHeader commandId length deviceId = Throw RangeError
    <-> ~ (Wire.u32 deviceId /\ Wire.u32 commandId /\ Wire.u32 length).
Proof.
  intros commandId length deviceId. split.
  - intros H (Hd & Hc & Hl).
    rewrite encodeHeader_u32 in H by assumption. discriminate.
  - intros H. unfold Client.encodeHeader, writeUInt32LE.
    destruct ((0 <=? deviceId) && (deviceId <=? 4294967295)) eqn:Ed;
      [|reflexivity].
    destruct ((0 <=? commandId) && (commandId <=? 4294967295)) eqn:Ec;
      [|reflexivity].
    destruct ((0 <=? length) && (length <=? 4294967295)) eqn:El;
      [|reflexivity].
    exfalso. apply H. unfold Wire.u32.
    apply andb_true_iff in Ed, Ec, El.
    destruct Ed as [Ed1 Ed2], Ec as [Ec1 Ec2], El as [El1 El2].
    apply Z.leb_le in Ed1, Ed2, Ec1, Ec2, El1, El2. lia.
Qed.




(** ** Requests and replies (client.ts, readMessage, resolve and the
       readable handler) *)

Section Requests.

Import Client.

Variable command : Commands.

Lemma resolve_packet_match (c : Client) (buffer : Buffer) (h : Header)
    pre r post :
  decodeHeader buffer = Ok h ->
  h_commandId h <> deviceListUpdated command ->
  resolver c = pre ++ r :: post ->
  answers h r = true ->
  (forall x, In x pre -> answers h x = false) ->
  resolve_packet command c buffer
  = (set_resolver c (pre ++ post),
     [Fulfilled (resolve r) (skipn 16 buffer)], None).
Proof.
  intros Hh Hcmd Hq Hr Hpre. apply Z.eqb_neq in Hcmd.
  unfold resolve_packet. rewrite Hh, Hcmd, Hq.
  destruct (findIndex_first (answers h) pre r post Hr Hpre) as [H1 [H2 H3]].
  rewrite H1, H2, H3. destruct pre; reflexivity.
Qed.

Lemma readMessage_connected (c : Client) (commandId deviceId : Z) :
  isConnected c = true ->
  readMessage c commandId deviceId
  = Ok (set_promises
          (set_resolver c
             (resolver c ++
              [{| resolve := promises c; commandId := commandId;
                  deviceId := deviceId; header := None |}]))
          (S (promises c))).
Proof.
  intros H. unfold readMessage. rewrite H. reflexivity.
Qed.

(** X4.  Two requests registered for the same device and command, on a
    connected client whose queue holds no other request for them, are
    answered in the order of registration: the first matching packet
    fulfils the promise of the first request with its payload, the
    second packet that of the second, and the queue is then what it was
    before. *)
Theorem same_key_oldest_first :
  forall (c : Client) (commandId deviceId : Z)
         (header1 payload1 header2 payload2 : Buffer),
    isConnected c = true ->
    commandId <> deviceListUpdated command ->
    (forall x, In x (resolver c) ->
               Client.deviceId x <> deviceId \/ Client.commandId x <> commandId) ->
    encodeHeader commandId (Z.of_nat (List.length payload1)) deviceId
      = Ok header1 ->
    encodeHeader commandId (Z.of_nat (List.length payload2)) deviceId
      = Ok header2 ->
    exists c1 c2 c3 c4,
      readMessage c commandId deviceId = Ok c1
      /\ readMessage c1 commandId deviceId = Ok c2
      /\ resolve_packet command c2 (header1 ++ payload1)
         = (c3, [Fulfilled (promises c) payload1], None)
      /\ resolve_packet command c3 (header2 ++ payload2)
         = (c4, [Fulfilled (S (promises c)) payload2], None)
      /\ resolver c4 = resolver c.
Proof.
  intros c cmd dev h1 p1 h2 p2 Hc Hcmd Hq He1 He2.
  destruct (encodeHeader_inv _ _ _ _ He1) as [-> Hl1].
  destruct (encodeHeader_inv _ _ _ _ He2) as [-> Hl2].
  assert (Hu : Wire.u32 dev /\ Wire.u32 cmd).
  { unfold encodeHeader, writeUInt32LE, bind in He1. unfold Wire.u32.
    destruct ((0 <=? dev) && (dev <=? 4294967295)) eqn:Ed; [|discriminate].
    destruct ((0 <=? cmd) && (cmd <=? 4294967295)) eqn:Ec; [|discriminate].
    apply andb_true_iff in Ed, Ec. destruct Ed as [E1 E2], Ec as [E3 E4].
    apply Z.leb_le in E1, E2, E3, E4. lia. }
  destruct Hu as [Hd Hcm].
  set (r1 := {| resolve := promises c; commandId := cmd; deviceId := dev;
                header := None |}).
  set (r2 := {| resolve := S (promises c); commandId := cmd; deviceId := dev;
                header := None |}).
  set (c1 := set_promises (set_resolver c (resolver c ++ [r1]))
               (S (promises c))).
  set (c2 := set_promises (set_resolver c1 (resolver c1 ++ [r2]))
               (S (promises c1))).
  set (c3 := set_resolver c2 (resolver c ++ [r2])).
  set (c4 := set_resolver c3 (resolver c ++ [])).
  assert (Hno : forall len x, In x (resolver c) ->
            answers {| h_deviceId := dev; h_commandId := cmd; h_length := len |} x
            = false).
  { intros len x Hx. unfold answers. cbn [h_deviceId h_commandId].
    destruct (Hq x Hx) as [H|H]; apply Z.eqb_neq in H; rewrite H;
      [reflexivity | apply andb_false_r]. }
  assert (Hyes : forall len p,
            answers {| h_deviceId := dev; h_commandId := cmd; h_length := len |}
              {| resolve := p; commandId := cmd; deviceId := dev;
                 header := None |} = true).
  { intros len p. unfold answers. cbn. rewrite !Z.eqb_refl. reflexivity. }
  exists c1, c2, c3, c4. repeat split.
  - apply readMessage_connected. assumption.
  - apply readMessage_connected. exact Hc.
  - rewrite (resolve_packet_match c2 _ _ (resolver c) r1 [r2]
               (decodeHeader_le32 cmd _ dev p1 Hd Hcm Hl1)).
    + rewrite skipn_header by reflexivity. reflexivity.
    + assumption.
    + cbn. rewrite <- app_assoc. reflexivity.
    + apply Hyes.
    + apply Hno.
  - rewrite (resolve_packet_match c3 _ _ (resolver c) r2 []
               (decodeHeader_le32 cmd _ dev p2 Hd Hcm Hl2)).
    + rewrite skipn_header by reflexivity. reflexivity.
    + assumption.
    + reflexivity.
    + apply Hyes.
    + apply Hno.
  - cbn. apply app_nil_r.
Qed.

(** X5.  The [while (true)] loop of the readable handler ends: whatever
    is buffered and whatever the queue holds, as long as
    [currentPacketLength] is not negative, at most one iteration per
    unread byte (and one more) runs before the handler returns or
    throws. *)
Theorem readable_handler_terminates :
  forall (c : Client),
    0 <= currentPacketLength c ->
    exists r,
      readable_loop command (S (unread c)) c = Some r
      /\ on_readable command c = r
      /\ (unread (fst (fst r)) <= unread c)%nat.
Proof.
  intros c Hc.
  destruct (readable_loop_runs command (S (unread c)) c Hc) as [r [Hr HR]];
    [lia|].
  exists r. split; [assumption|]. split.
  - unfold on_readable. rewrite Hr. reflexivity.
  - clear Hr. revert Hc.
    induction HR as [c c1 e1 x Hb | c c1 e1 c2 e2 x Hb H IH]; intros Hc.
    + cbn [fst]. unfold loop_body in Hb.
      destruct (header_phase command c) as [[ch eh] fh] eqn:Hh.
      assert (Hch : (unread ch <= unread c)%nat
                    /\ 0 <= currentPacketLength ch).
      { unfold header_phase, after_resolve in Hh.
        phase_cases Hh; injection Hh as <- _ _;
          repeat match goal with
            | H : socket_read _ _ = Ok (Some _) |- _ =>
                apply socket_read_inv in H; destruct H as (? & ? & ?)
            | H : resolve_packet _ _ _ = _ |- _ =>
                apply (resolve_packet_fields command) in H;
                destruct H as (? & ? & ? & ?)
            | H : readUInt32LE _ _ = Ok _ |- _ =>
                apply readUInt32LE_nonneg in H
            end;
          unfold unread in *; cbn in *;
          repeat match goal with
            | H : socket ?c = _ |- _ => rewrite H in *
            | H : currentPacketLength ?c = _ |- _ => rewrite H in *
            | H : buffered ?c = _ |- _ => rewrite H in *
            end; cbn in *; rewrite ?length_app; split; lia. }
      destruct fh as [|xh].
      * destruct (payload_phase command ch) as [[cp ep] fp] eqn:Hp.
        injection Hb as <- _ _.
        unfold payload_phase, after_resolve in Hp.
        phase_cases Hp; injection Hp as <- _ _;
          repeat match goal with
            | H : socket_read _ _ = Ok (Some _) |- _ =>
                apply socket_read_inv in H; destruct H as (? & ? & ?)
            | H : resolve_packet _ _ _ = _ |- _ =>
                apply (resolve_packet_fields command) in H;
                destruct H as (? & ? & ? & ?)
            end;
          unfold unread in *; cbn in *;
          repeat match goal with
            | H : socket ?c = _ |- _ => rewrite H in *
            | H : buffered ?c = _ |- _ => rewrite H in *
            end; cbn in *; rewrite ?length_app in *; lia.
      * injection Hb as <- _ _. lia.
    + cbn [fst] in *.
      destruct (loop_body_continue command _ _ _ Hc Hb) as [Hlt H0].
      specialize (IH ltac:(lia)). lia.
Qed.

End Requests.

Lemma readable_handler_terminates_witness :
  exists r,
    Client.readable_loop Samples.openrgb
      (S (Client.unread (Client.arrive (Samples.waiting 0 0) Samples.stream)))
      (Client.arrive (Samples.waiting 0 0) Samples.stream) = Some r
    /\ Client.on_readable Samples.openrgb (Client.arrive (Samples.waiting 0 0) Samples.stream)
       = r
    /\ (Client.unread (fst (fst r))
        <= Client.unread (Client.arrive (Samples.waiting 0 0) Samples.stream))%nat.
Proof.
  apply (readable_handler_terminates Samples.openrgb
           (Client.arrive (Samples.waiting 0 0) Samples.stream)).
  cbn. lia.
Defined.

Lemma same_key_oldest_first_witness :
  exists c1 c2 c3 c4,
    Client.readMessage (Samples.connected None) 9 0 = Ok c1
    /\ Client.readMessage c1 9 0 = Ok c2
    /\ Client.resolve_packet Samples.openrgb c2
         ((Client.magic ++ le32 0 ++ le32 9 ++ le32 1) ++ [x01])
       = (c3, [Client.Fulfilled (Client.promises (Samples.connected None)) [x01]],
          None)
    /\ Client.resolve_packet Samples.openrgb c3
         ((Client.magic ++ le32 0 ++ le32 9 ++ le32 1) ++ [x02])
       = (c4,
          [Client.Fulfilled (S (Client.promises (Samples.connected None))) [x02]],
          None)
    /\ Client.resolver c4 = Client.resolver (Samples.connected None).
Proof.
  apply (same_key_oldest_first Samples.openrgb (Samples.connected None) 9 0).
  - reflexivity.
  - cbn. lia.
  - intros x [].
  - reflexivity.
  - reflexivity.
Defined.

Section Replies.

Import Client.

Variable command : Commands.

(** X6.  A connected client between two packets, with nothing unread and
    nothing pending, registers a request and then receives the reply,
    whose payload is at most 1 GiB, cut into chunks in any way.  The
    handler hands the reply to [resolve] once, the promise of the
    request is fulfilled with exactly the reply's payload, and
    afterwards nothing is pending and nothing is unread. *)
Theorem reply_fulfils_request :
  forall (c : Client) (commandId deviceId : Z) (header payload : Buffer)
         (chunks : list Buffer),
    isConnected c = true ->
    currentPacketLength c = 0 ->
    socket c = Some {| buffered := [] |} ->
    resolver c = [] ->
    commandId <> deviceListUpdated command ->
    encodeHeader commandId (Z.of_nat (List.length payload)) deviceId
      = Ok header ->
    Z.of_nat (List.length payload) <= MAX_HWM ->
    concat chunks = header ++ payload ->
    exists c1 c2,
      readMessage c commandId deviceId = Ok c1
      /\ deliver command c1 chunks
         = (c2, [Packet (header ++ payload); Fulfilled (promises c) payload],
            Starved)
      /\ resolver c2 = []
      /\ unread c2 = 0%nat
      /\ currentPacketLength c2 = 0.
Proof.
  intros c cmd dev hdr payload chunks Hconn Hcpl Hsock Hq Hcmd He Hmax Hcat.
  destruct (encodeHeader_facts _ _ _ _ He) as (Hlen & _ & _).
  destruct (encodeHeader_inv _ _ _ _ He) as [Hhdr Hl].
  assert (Hu : Wire.u32 dev /\ Wire.u32 cmd).
  { unfold encodeHeader, writeUInt32LE, bind in He. unfold Wire.u32.
    destruct ((0 <=? dev) && (dev <=? 4294967295)) eqn:Ed; [|discriminate].
    destruct ((0 <=? cmd) && (cmd <=? 4294967295)) eqn:Ec; [|discriminate].
    apply andb_true_iff in Ed, Ec. destruct Ed as [E1 E2], Ec as [E3 E4].
    apply Z.leb_le in E1, E2, E3, E4. lia. }
  destruct Hu as [Hd Hcm].
  set (r := {| resolve := promises c; commandId := cmd; deviceId := dev;
               header := None |}).
  set (c1 := set_promises (set_resolver c [r]) (S (promises c))).
  assert (Hreg : readMessage c cmd dev = Ok c1).
  { rewrite readMessage_connected by assumption. rewrite Hq. reflexivity. }
  assert (Hdec : decodeHeader (hdr ++ payload)
                 = Ok {| h_deviceId := dev; h_commandId := cmd;
                         h_length := Z.of_nat (List.length payload) |}).
  { rewrite Hhdr. apply decodeHeader_le32; assumption. }
  assert (Hans : answers {| h_deviceId := dev; h_commandId := cmd;
                            h_length := Z.of_nat (List.length payload) |}
                   r = true).
  { unfold answers. cbn. rewrite !Z.eqb_refl. reflexivity. }
  assert (Hres : resolve_packet command c1 (hdr ++ payload)
                 = (set_resolver c1 [], [Fulfilled (promises c) payload],
                    None)).
  { rewrite (resolve_packet_match command c1 (hdr ++ payload) _ [] r []
               Hdec Hcmd eq_refl Hans ltac:(intros x [])).
    rewrite skipn_header by assumption. reflexivity. }
  destruct (deliver_packets command c1 [hdr ++ payload] chunks)
    as (c2 & Hdel & Hreq & Hc2 & Hs2).
  - constructor; [|constructor]. econstructor. exact He.
  - constructor; [|constructor].
    unfold readable_packet, HEADER_SIZE. rewrite length_app, Hlen. lia.
  - exact Hcpl.
  - exact Hsock.
  - cbn [concat]. rewrite app_nil_r. exact Hcat.
  - cbn [dispatch] in Hdel, Hreq.
    change (resolver c1) with [r] in Hdel, Hreq.
    rewrite Hres in Hdel, Hreq. cbn [fst snd app] in Hdel, Hreq.
    exists c1, c2. split; [exact Hreg|]. split; [exact Hdel|].
    split; [apply (requests_nil c2); exact Hreq|].
    split; [unfold unread; rewrite Hs2; reflexivity | exact Hc2].
Qed.

End Replies.

Lemma reply_fulfils_request_witness :
  exists c1 c2,
    Client.readMessage (Samples.connected None) 0 0 = Ok c1
    /\ Client.deliver Samples.openrgb c1
         [firstn 7 (Samples.packet 0 0 [x03; x00; x00; x00]);
          skipn 7 (Samples.packet 0 0 [x03; x00; x00; x00])]
       = (c2,
          [Client.Packet
             ((Client.magic ++ le32 0 ++ le32 0 ++ le32 4)
              ++ [x03; x00; x00; x00]);
           Client.Fulfilled (Client.promises (Samples.connected None))
             [x03; x00; x00; x00]],
          Client.Starved)
    /\ Client.resolver c2 = []
    /\ Client.unread c2 = 0%nat
    /\ Client.currentPacketLength c2 = 0.
Proof.
  apply (reply_fulfils_request Samples.openrgb (Samples.connected None) 0 0
           (Client.magic ++ le32 0 ++ le32 0 ++ le32 4) [x03; x00; x00; x00]).
  - reflexivity.
  - reflexivity.
  - reflexivity.
  - reflexivity.
  - cbn. lia.
  - reflexivity.
  - unfold Client.MAX_HWM. cbn. lia.
  - reflexivity.
Defined.

(** ** Strings and colours on the wire (device.ts, readString,
       readColor; client.ts, pack_string, pack_color_list) *)

Lemma readUInt16LE_range (buf : Buffer) (off : nat) (v : Z) :
  readUInt16LE buf off = Ok v -> 0 <= v <= 65535.
Proof.
  unfold readUInt16LE.
  destruct (skipn off buf) as [|b0 [|b1 r]]; try discriminate.
  intros H.
  assert (Hv : byte_val b0 + 256 * byte_val b1 = v) by congruence.
  pose proof (byte_val_range b0). pose proof (byte_val_range b1). lia.
Qed.

Lemma readUInt16LE_throws (buf : Buffer) (off : nat) :
  readUInt16LE buf off = Throw RangeError
  <-> (List.length buf < off + 2)%nat.
Proof.
  unfold readUInt16LE.
  pose proof (length_skipn off buf) as Hl.
  destruct (skipn off buf) as [|b0 [|b1 r]]; cbn [List.length] in Hl; split;
    intros H; try reflexivity; try discriminate; lia.
Qed.

(** X7.  [readString] throws, a [RangeError], exactly when fewer than
    two bytes are left at the offset; otherwise it returns, and the
    length it reports is the length field plus two, between 2 and
    65537. *)
Theorem readString_throws_iff :
  forall (TextDecoder_decode : Buffer -> jsstring) (buffer : Buffer)
         (offset : nat),
    (Device.readString TextDecoder_decode buffer offset = Throw RangeError
     <-> (List.length buffer < offset + 2)%nat)
    /\ (forall s,
          Device.readString TextDecoder_decode buffer offset = Ok s ->
          readUInt16LE buffer offset = Ok (Device.length s - 2)
          /\ 2 <= Device.length s <= 65537).
Proof.
  intros dec buffer offset. unfold Device.readString. split.
  - rewrite <- readUInt16LE_throws.
    destruct (readUInt16LE buffer offset) as [len|e]; cbn [bind]; split;
      intros H; try discriminate; injection H as ->; reflexivity.
  - intros s H.
    destruct (readUInt16LE buffer offset) as [len|e] eqn:E; cbn [bind] in H;
      [|discriminate].
    injection H as <-. cbn [Device.length].
    apply readUInt16LE_range in E. split; [f_equal; lia | lia].
Qed.

(** X8.  A length field that announces more bytes than the buffer holds
    is not an error for [readString]: the text is the decoding of the
    bytes that are there, and the reported length is still the length
    field plus two. *)
Theorem readString_truncated :
  forall (TextDecoder_decode : Buffer -> jsstring) (pre txt : Buffer)
         (len : Z),
    Z.of_nat (List.length txt) < len ->
    len <= 65535 ->
    Device.readString TextDecoder_decode (pre ++ le16 len ++ txt)
      (List.length pre)
    = Ok {| Device.text := TextDecoder_decode txt;
            Device.length := len + 2 |}.
Proof.
  intros dec pre txt len Hlt Hmax.
  unfold Device.readString.
  rewrite readUInt16LE_le16 by lia. cbn [bind]. do 3 f_equal.
  unfold slice. rewrite skipn_app_plus.
  change (skipn 2 (le16 len ++ txt)) with txt.
  apply firstn_all2. lia.
Qed.

Lemma readString_truncated_witness :
  Device.readString Samples.decode ([x09] ++ le16 10 ++ [x68; x69]) 1
  = Ok {| Device.text := [104; 105]; Device.length := 12 |}.
Proof.
  apply (readString_truncated Samples.decode [x09] [x68; x69] 10).
  - cbn. lia.
  - lia.
Defined.

(** X9.  What [pack_string] writes for an ASCII string of at most 65534
    characters, [readString] reads back: the same string, and a length
    of the string's length plus three (the length field, the text and
    the null byte), wherever the bytes stand in a buffer. *)
Theorem pack_string_roundtrip :
  forall (TextDecoder_decode : Buffer -> jsstring) (s : jsstring)
         (pre post : Buffer),
    (forall bs, Forall is_ascii bs -> TextDecoder_decode bs = ascii_text bs) ->
    Forall (fun u => 0 <= u < 128) s ->
    Z.of_nat (List.length s) + 1 <= 65535 ->
    Device.readString TextDecoder_decode
      (pre ++ Client.pack_string s ++ post) (List.length pre)
    = Ok {| Device.text := s;
            Device.length := Z.of_nat (List.length s) + 3 |}
    /\ List.length (Client.pack_string s) = (List.length s + 3)%nat.
Proof.
  intros dec s pre post Hdec Hs Hlen.
  destruct (ascii_pack_s s Hs) as [Hasc Htxt].
  assert (Hp : Client.pack_string s
               = le16 (Z.of_nat (List.length s) + 1) ++ pack_s s ++ [x00]).
  { unfold Client.pack_string, Bufferpack.pack_H.
    rewrite clamp_id by lia. rewrite <- app_assoc. reflexivity. }
  split.
  - rewrite Hp. unfold Device.readString.
    rewrite <- !app_assoc.
    rewrite readUInt16LE_le16 by lia. cbn [bind]. f_equal. f_equal.
    + unfold slice. rewrite skipn_app_plus.
      change (skipn 2 (le16 (Z.of_nat (List.length s) + 1)
                       ++ pack_s s ++ [x00] ++ post))
        with (pack_s s ++ [x00] ++ post).
      replace (List.length pre + Z.to_nat (Z.of_nat (List.length s) + 1) + 1
               - (List.length pre + 2))%nat
        with (List.length (pack_s s))
        by (unfold pack_s; rewrite length_map; lia).
      rewrite firstn_app, firstn_all, Nat.sub_diag. cbn [firstn].
      rewrite app_nil_r, Hdec by assumption. exact Htxt.
    + lia.
  - rewrite Hp, !length_app. unfold pack_s. rewrite length_map. cbn. lia.
Qed.

Lemma pack_string_roundtrip_witness :
  Device.readString Samples.decode
    ([xff] ++ Client.pack_string [104; 105] ++ [xee]) 1
  = Ok {| Device.text := [104; 105]; Device.length := 5 |}
  /\ List.length (Client.pack_string [104; 105]) = 5%nat.
Proof.
  apply (pack_string_roundtrip Samples.decode [104; 105] [xff] [xee]).
  - intros bs _. reflexivity.
  - repeat constructor; lia.
  - cbn. lia.
Defined.

(** X10.  What [pack_color_list] writes for at most 65535 colours whose
    channels are bytes is read back by the decoder: [readUInt16LE]
    yields their number, and the colour loop ([readColor] at every
    fourth byte) yields the colours and ends right behind them. *)
Theorem pack_color_list_roundtrip :
  forall (cs : list Classes.RGBColor) (pre post : Buffer),
    Forall (fun c => Wire.channel (Classes.red c)
                     /\ Wire.channel (Classes.green c)
                     /\ Wire.channel (Classes.blue c)) cs ->
    Z.of_nat (List.length cs) <= 65535 ->
    readUInt16LE (pre ++ Client.pack_color_list cs ++ post) (List.length pre)
    = Ok (Z.of_nat (List.length cs))
    /\ Device.readColors (pre ++ Client.pack_color_list cs ++ post)
         (List.length cs) (List.length pre + 2)
       = Ok (cs, (List.length pre + 2 + 4 * List.length cs)%nat)
    /\ List.length (Client.pack_color_list cs) = (2 + 4 * List.length cs)%nat.
Proof.
  intros cs pre post Hcs Hlen.
  rewrite (pack_color_list_bytes cs Hcs Hlen).
  split; [|split].
  - rewrite <- app_assoc. apply readUInt16LE_le16. lia.
  - apply (readColors_bytes cs Hcs _ post).
    rewrite skipn_app_plus, <- app_assoc. reflexivity.
  - rewrite length_app. cbn [le16 List.length]. f_equal. f_equal.
    clear. induction cs as [|c cs IH]; [reflexivity|].
    cbn [map concat]. rewrite length_app, IH. cbn. lia.
Qed.

Lemma pack_color_list_roundtrip_witness :
  readUInt16LE
    ([xff] ++ Client.pack_color_list (Classes.colors Samples.rainbow) ++ [])
    1
  = Ok 1
  /\ Device.readColors
       ([xff] ++ Client.pack_color_list (Classes.colors Samples.rainbow) ++ [])
       1 3
     = Ok (Classes.colors Samples.rainbow, 7%nat)
  /\ List.length (Client.pack_color_list (Classes.colors Samples.rainbow))
     = 6%nat.
Proof.
  apply (pack_color_list_roundtrip (Classes.colors Samples.rainbow) [xff] []).
  - repeat constructor; cbn; lia.
  - cbn. lia.
Defined.

(** ** LED updates (client.ts, updateLeds, updateZoneLeds) *)



Lemma writeUInt8_at_RangeError (b : Buffer) (v : Z) (off : nat) e :
  writeUInt8_at b v off = Throw e -> e = RangeError.
Proof.
  unfold writeUInt8_at.
  destruct ((0 <=? v) && (v <=? 255)); [|congruence].
  destruct (off + 1 <=? List.length b)%nat; congruence.
Qed.

Lemma writeUInt8_at_Ok (b b' : Buffer) (v : Z) (off : nat) :
  writeUInt8_at b v off = Ok b' -> Wire.channel v.
Proof.
  unfold writeUInt8_at, Wire.channel.
  destruct (Z.leb_spec 0 v); destruct (Z.leb_spec v 255); cbn [andb];
    try discriminate. intros _. lia.
Qed.

Section LedUpdates.

Import Client Facade.

Variable command : Commands.
Variable registry : Registry.


Lemma write_colors_Ok (colors : list Classes.RGBColor) :
  forall (b b' : Buffer) (i base : nat),
    write_colors b colors i base = Ok b' -> Forall Wire.valid_color colors.
Proof.
  induction colors as [|c cs IH]; intros b b' i base H; [constructor|].
  cbn [write_colors] in H.
  destruct (writeUInt8_at b (Classes.red c) (base + i * 4)) as [b1|] eqn:E1;
    [|discriminate].
  cbn [bind] in H.
  destruct (writeUInt8_at b1 (Classes.green c) (base + i * 4 + 1))
    as [b2|] eqn:E2; [|discriminate].
  cbn [bind] in H.
  destruct (writeUInt8_at b2 (Classes.blue c) (base + i * 4 + 2))
    as [b3|] eqn:E3; [|discriminate].
  cbn [bind] in H.
  constructor.
  - repeat split; eapply writeUInt8_at_Ok; eassumption.
  - eapply IH. eassumption.
Qed.

Lemma write_colors_RangeError (colors : list Classes.RGBColor) :
  forall (b : Buffer) (i base : nat) e,
    write_colors b colors i base = Throw e -> e = RangeError.
Proof.
  induction colors as [|c cs IH]; intros b i base e H; [discriminate|].
  cbn [write_colors] in H.
  destruct (writeUInt8_at b (Classes.red c) (base + i * 4)) as [b1|e1] eqn:E1;
    cbn [bind] in H;
    [|injection H as <-; eapply writeUInt8_at_RangeError; eassumption].
  destruct (writeUInt8_at b1 (Classes.green c) (base + i * 4 + 1))
    as [b2|e2] eqn:E2; cbn [bind] in H;
    [|injection H as <-; eapply writeUInt8_at_RangeError; eassumption].
  destruct (writeUInt8_at b2 (Classes.blue c) (base + i * 4 + 2))
    as [b3|e3] eqn:E3; cbn [bind] in H;
    [|injection H as <-; eapply writeUInt8_at_RangeError; eassumption].
  eapply IH. eassumption.
Qed.


(** X12.  [updateLeds] throws a [RangeError], and writes nothing, when
    a channel of a colour is not a byte or when there are more than
    65535 colours, whether or not the client is connected. *)
Theorem updateLeds_rejects :
  forall (c : Client) (deviceId : Z) (colors : list Classes.RGBColor),
    ~ Forall Wire.valid_color colors
    \/ 65535 < Z.of_nat (List.length colors) ->
    updateLeds registry c deviceId colors = Throw RangeError.
Proof.
  intros c dev colors H. unfold updateLeds.
  destruct (writeUInt16LE_at (alloc (2 + 4 * List.length colors))
              (Z.of_nat (List.length colors)) 0) as [b|e] eqn:E16.
  - cbn [bind].
    assert (Hn : Z.of_nat (List.length colors) <= 65535).
    { unfold writeUInt16LE_at in E16.
      destruct (Z.leb_spec 0 (Z.of_nat (List.length colors)));
        destruct (Z.leb_spec (Z.of_nat (List.length colors)) 65535);
        cbn [andb] in E16; try discriminate. assumption. }
    destruct H as [H|H]; [|lia].
    destruct (write_colors b colors 0 2) as [b'|e] eqn:Ew.
    + exfalso. apply H. eapply write_colors_Ok. eassumption.
    + cbn [bind]. f_equal. eapply write_colors_RangeError. eassumption.
  - cbn [bind]. f_equal. unfold writeUInt16LE_at in E16.
    destruct ((0 <=? Z.of_nat (List.length colors))
              && (Z.of_nat (List.length colors) <=? 65535));
      [|congruence].
    destruct (0 + 2 <=? List.length (alloc (2 + 4 * List.length colors)))%nat;
      congruence.
Qed.


End LedUpdates.


Lemma updateLeds_rejects_witness :
  Facade.updateLeds Examples.registry (Samples.fresh None) 0
    [ {| Classes.red := 256; Classes.green := 0; Classes.blue := 0 |} ]
  = Throw RangeError.
Proof.
  apply (updateLeds_rejects Examples.registry (Samples.fresh None) 0).
  left. intros H. inversion H as [|x l (Hr & _) Hl]; subst.
  unfold Wire.channel in Hr. cbn in Hr. lia.
Defined.


(** ** Decoded modes (device.ts, readModes) *)

Ltac binds H :=
  repeat match type of H with
    | bind ?x _ = Ok _ =>
        let E := fresh "E" in
        destruct x eqn:E; cbn [bind] in H; [|discriminate]
    | (let '(_, _) := ?p in _) = Ok _ => is_var p; destruct p
    end.

Section DecodedModes.

Import Classes.

Variable TextDecoder_decode : Buffer -> jsstring.

(** What [readModes] settles for every mode, in the terms of its own
    tests. *)
Lemma readMode_shape (buf : Buffer) (off off' : nat) (v idx : Z) (m : Mode) :
  Device.readMode TextDecoder_decode buf off v idx = Ok (m, off') ->
  exists flagcheck,
    Device.flagcheck_of (flags m) = Ok flagcheck
    /\ 0 <= flags m
    /\ id m = idx
    /\ let f := Device.Number_truthy flagcheck in
       flagList m
       = (if f 1%nat || f 2%nat || f 3%nat
          then Device.push_flags flagcheck 0 ++ ["direction"%string]
          else Device.push_flags flagcheck 0)
       /\ (f 0%nat = false ->
           speedMin m = 0 /\ speedMax m = 0 /\ speed m = 0)
       /\ (3 <= v -> f 4%nat = false ->
           brightnessMin m = Some 0 /\ brightnessMax m = Some 0
           /\ brightness m = Some 0)
       /\ (f 1%nat = false -> f 2%nat = false -> f 3%nat = false ->
           direction m = 0)
       /\ (f 5%nat = false -> f 6%nat = false -> f 7%nat = false ->
           colors m = [] /\ colorMin m = 0 /\ colorMax m = 0)
       /\ (colors m = [] -> colorMin m = 0 /\ colorMax m = 0)
       /\ (v < 3 ->
           brightnessMin m = None /\ brightnessMax m = None
           /\ brightness m = None)
       /\ (3 <= v ->
           brightnessMin m <> None /\ brightnessMax m <> None
           /\ brightness m <> None).
Proof.
  intros H. unfold Device.readMode in H.
  destruct (Z.leb_spec 3 v) as [Hv|Hv].
  - binds H.
    repeat match goal with
      | E : bind _ _ = Ok _ |- _ => binds E
      | E : Ok _ = Ok _ |- _ =>
          first [injection E as <- <- <- | injection E as <- <-]
      end.
    match goal with
    | E : Device.flagcheck_of _ = Ok ?fc |- _ =>
        rename E into Hfc; set (f := Device.Number_truthy fc) in *
    end.
    match goal with
    | E : readUInt32LE _ _ = Ok ?fl, Hfc : Device.flagcheck_of ?fl = _ |- _ =>
        apply readUInt32LE_nonneg in E; rename E into Hfl
    end.
    match goal with
    | E : readUInt16LE _ _ = Ok ?cl |- _ =>
        apply readUInt16LE_nonneg in E; rename E into Hcl
    end.
    cbn [andb] in H.
    destruct (f 0%nat) eqn:F0; destruct (f 4%nat) eqn:F4;
      destruct (f 5%nat) eqn:F5; destruct (f 6%nat) eqn:F6;
      destruct (f 7%nat) eqn:F7; cbn [negb andb orb] in H;
      try match type of H with
        | context [?c =? 0] => destruct (Z.eqb_spec c 0)
        end;
      cbv iota beta in H; binds H;
      match goal with
      | E : Device.readColors _ _ _ = Ok _ |- _ =>
          apply readColors_length in E; rename E into Hlen
      end;
      injection H as <- _;
      cbn; eexists; (split; [exact Hfc|]); fold f;
      (split; [exact Hfl|]); (split; [reflexivity|]);
      repeat split; intros;
      try reflexivity; try congruence; try lia;
      try match goal with
        | H1 : f 1%nat = false, H2 : f 2%nat = false, H3 : f 3%nat = false
          |- _ => rewrite H1, H2, H3; reflexivity
        end;
      try match goal with
        | Hl : List.length ?l = _ |- ?l = [] =>
            destruct l; [reflexivity | cbn in Hl; lia]
        | Hl : List.length ?l = _, H0 : ?l = [] |- _ =>
            subst l; cbn in Hl; lia
        end.
  - binds H.
    repeat match goal with
      | E : bind _ _ = Ok _ |- _ => binds E
      | E : Ok _ = Ok _ |- _ =>
          first [injection E as <- <- <- | injection E as <- <-]
      end.
    match goal with
    | E : Device.flagcheck_of _ = Ok ?fc |- _ =>
        rename E into Hfc; set (f := Device.Number_truthy fc) in *
    end.
    match goal with
    | E : readUInt32LE _ _ = Ok ?fl, Hfc : Device.flagcheck_of ?fl = _ |- _ =>
        apply readUInt32LE_nonneg in E; rename E into Hfl
    end.
    match goal with
    | E : readUInt16LE _ _ = Ok ?cl |- _ =>
        apply readUInt16LE_nonneg in E; rename E into Hcl
    end.
    cbn [andb] in H.
    destruct (f 0%nat) eqn:F0;
      destruct (f 5%nat) eqn:F5; destruct (f 6%nat) eqn:F6;
      destruct (f 7%nat) eqn:F7; cbn [negb andb orb] in H;
      try match type of H with
        | context [?c =? 0] => destruct (Z.eqb_spec c 0)
        end;
      cbv iota beta in H; binds H;
      match goal with
      | E : Device.readColors _ _ _ = Ok _ |- _ =>
          apply readColors_length in E; rename E into Hlen
      end;
      injection H as <- _;
      cbn; eexists; (split; [exact Hfc|]); fold f;
      (split; [exact Hfl|]); (split; [reflexivity|]);
      repeat split; intros;
      try reflexivity; try congruence; try lia;
      try match goal with
        | H1 : f 1%nat = false, H2 : f 2%nat = false, H3 : f 3%nat = false
          |- _ => rewrite H1, H2, H3; reflexivity
        end;
      try match goal with
        | Hl : List.length ?l = _ |- ?l = [] =>
            destruct l; [reflexivity | cbn in Hl; lia]
        | Hl : List.length ?l = _, H0 : ?l = [] |- _ =>
            subst l; cbn in Hl; lia
        end.
Qed.

Lemma truthy_below_1024 :
  forallb (fun n => forallb (Examples.truthy_agrees (Z.of_nat n)) (seq 0 10))
    (seq 0 1024)
  = true.
Proof.
  vm_compute. reflexivity.
Qed.

(** The decoder's test of flag [k] is the test of bit [k]. *)
Lemma Number_truthy_testbit (modeFlags : Z) (flagcheck : list (option ascii))
    (k : nat) :
  0 <= modeFlags ->
  Device.flagcheck_of modeFlags = Ok flagcheck ->
  (k < 10)%nat ->
  modeFlags < 1024
  /\ Device.Number_truthy flagcheck k = Z.testbit modeFlags (Z.of_nat k).
Proof.
  intros H0 Hfc Hk.
  assert (Hlt : modeFlags < 1024).
  { destruct (Z_lt_le_dec modeFlags 1024) as [|Hge]; [assumption|].
    rewrite (flagcheck_of_large _ Hge) in Hfc. discriminate. }
  split; [exact Hlt|].
  pose proof truthy_below_1024 as H.
  rewrite forallb_forall in H.
  specialize (H (Z.to_nat modeFlags) ltac:(apply in_seq; lia)).
  rewrite Z2Nat.id in H by lia.
  rewrite forallb_forall in H.
  specialize (H k ltac:(apply in_seq; lia)).
  unfold Examples.truthy_agrees in H. rewrite Hfc in H.
  apply Bool.eqb_prop in H. exact H.
Qed.

Lemma flagcheck_of_length (modeFlags : Z) (flagcheck : list (option ascii)) :
  Device.flagcheck_of modeFlags = Ok flagcheck ->
  List.length flagcheck = 10%nat.
Proof.
  unfold Device.flagcheck_of. intros H.
  destruct (_ <? 0) eqn:E; [discriminate|].
  apply Z.ltb_ge in E.
  assert (Hf : flagcheck
               = rev (repeat None
                        (Z.to_nat
                           (Z.of_nat (List.length Device.flags_names)
                            - Z.of_nat
                                (List.length (Device.toString2 modeFlags))))
                      ++ map Some (Device.toString2 modeFlags)))
    by congruence.
  rewrite Hf, length_rev, length_app, repeat_length, length_map.
  change (List.length Device.flags_names) with 10%nat in *. lia.
Qed.

(** Only the ten tags are pushed. *)
Lemma push_flags_in_names (flagcheck : list (option ascii)) :
  forall i x,
    (i + List.length flagcheck <= 10)%nat ->
    In x (Device.push_flags flagcheck i) ->
    In x Device.flags_names.
Proof.
  induction flagcheck as [|el rest IH]; intros i x Hi H;
    cbn [Device.push_flags] in H; [contradiction|].
  cbn [List.length] in Hi.
  apply in_app_or in H. destruct H as [H|H].
  - destruct (Device.is_one el); [|contradiction].
    destruct H as [H|[]]. subst x. apply nth_In.
    change (List.length Device.flags_names) with 10%nat. lia.
  - apply (IH (S i)); [lia | exact H].
Qed.

Lemma direction_not_a_flag :
  ~ In "direction"%string Device.flags_names.
Proof.
  cbn. intros H.
  repeat match type of H with
    | _ \/ _ => destruct H as [H|H]; [discriminate H|]
    end.
  exact H.
Qed.

(** X14.  The flagList of a decoded mode, at every protocol version:
    the flags are below 1024, each of the ten tags is in the list
    exactly when its bit is set, ["direction"] is in the list exactly
    when one of the bits 1, 2 and 3 is set, and the list holds nothing
    else. *)
Theorem decoded_flagList_bits :
  forall (buf : Buffer) (off off' : nat) (v idx : Z) (m : Mode),
    Device.readMode TextDecoder_decode buf off v idx = Ok (m, off') ->
    0 <= flags m < 1024
    /\ (forall k, (k < 10)%nat ->
          In (nth k Device.flags_names ""%string) (flagList m)
          <-> Z.testbit (flags m) (Z.of_nat k) = true)
    /\ (In "direction"%string (flagList m)
        <-> Z.testbit (flags m) 1 || Z.testbit (flags m) 2
            || Z.testbit (flags m) 3 = true)
    /\ (forall x, In x (flagList m) ->
          In x Device.flags_names \/ x = "direction"%string).
Proof.
  intros buf off off' v idx m H.
  destruct (readMode_shape _ _ _ _ _ _ H)
    as (fc & Hfc & H0 & _ & Hlist & _).
  cbv zeta in Hlist.
  destruct (Number_truthy_testbit _ _ 1 H0 Hfc ltac:(lia)) as [Hlt T1].
  destruct (Number_truthy_testbit _ _ 2 H0 Hfc ltac:(lia)) as [_ T2].
  destruct (Number_truthy_testbit _ _ 3 H0 Hfc ltac:(lia)) as [_ T3].
  change (Z.of_nat 1) with 1 in T1. change (Z.of_nat 2) with 2 in T2.
  change (Z.of_nat 3) with 3 in T3.
  rewrite T1, T2, T3 in Hlist.
  assert (Hp : forall x, In x (Device.push_flags fc 0) ->
                         In x Device.flags_names).
  { intros x. apply push_flags_in_names.
    rewrite (flagcheck_of_length _ _ Hfc). lia. }
  split; [lia|]. split; [|split].
  - intros k Hk.
    destruct (flagList_below_1024 (flags m) k ltac:(lia) Hk)
      as (fc' & Hfc' & Hiff).
    assert (fc' = fc) by congruence. subst fc'.
    rewrite <- Hiff, Hlist.
    destruct (_ || _ || _); [|reflexivity].
    rewrite in_app_iff. split; [|auto].
    intros [Hi|[Hi|[]]]; [exact Hi|].
    exfalso. apply direction_not_a_flag. rewrite Hi. apply nth_In.
    change (List.length Device.flags_names) with 10%nat. exact Hk.
  - rewrite Hlist. destruct (_ || _ || _).
    + split; [reflexivity|]. intros _. apply in_or_app. right. left. reflexivity.
    + split; [|discriminate]. intros Hi.
      exfalso. exact (direction_not_a_flag (Hp _ Hi)).
  - intros x Hx. rewrite Hlist in Hx.
    destruct (_ || _ || _); [|left; auto].
    apply in_app_or in Hx. destruct Hx as [Hx|[Hx|[]]]; [left; auto|].
    right. symmetry. exact Hx.
Qed.

(** X15.  The fields that [readModes] zeroes, in terms of the bits of
    the decoded flags, at every protocol version: without bit 0 the
    three speeds are 0; without the bits 1, 2 and 3 the direction is 0;
    without the bits 5, 6 and 7 there are no colours; a mode without
    colours has the colour bounds 0.  The three brightness fields are
    absent below protocol 3 and present from 3 on, where they are 0
    without bit 4. *)
Theorem decoded_fields_zeroed :
  forall (buf : Buffer) (off off' : nat) (v idx : Z) (m : Mode),
    Device.readMode TextDecoder_decode buf off v idx = Ok (m, off') ->
    (Z.testbit (flags m) 0 = false ->
     speedMin m = 0 /\ speedMax m = 0 /\ speed m = 0)
    /\ (Z.testbit (flags m) 1 = false -> Z.testbit (flags m) 2 = false ->
        Z.testbit (flags m) 3 = false -> direction m = 0)
    /\ (Z.testbit (flags m) 5 = false -> Z.testbit (flags m) 6 = false ->
        Z.testbit (flags m) 7 = false -> colors m = [])
    /\ (colors m = [] -> colorMin m = 0 /\ colorMax m = 0)
    /\ (v < 3 ->
        brightnessMin m = None /\ brightnessMax m = None
        /\ brightness m = None)
    /\ (3 <= v ->
        brightnessMin m <> None /\ brightnessMax m <> None
        /\ brightness m <> None
        /\ (Z.testbit (flags m) 4 = false ->
            brightnessMin m = Some 0 /\ brightnessMax m = Some 0
            /\ brightness m = Some 0)).
Proof.
  intros buf off off' v idx m H.
  destruct (readMode_shape _ _ _ _ _ _ H)
    as (fc & Hfc & H0 & _ & _ & Fs & Fb & Fd & Fc & Fe & Fl & Fp).
  pose proof (fun k Hk => proj2 (Number_truthy_testbit _ _ k H0 Hfc Hk)) as T.
  pose proof (T 0%nat ltac:(lia)) as T0. pose proof (T 1%nat ltac:(lia)) as T1.
  pose proof (T 2%nat ltac:(lia)) as T2. pose proof (T 3%nat ltac:(lia)) as T3.
  pose proof (T 4%nat ltac:(lia)) as T4. pose proof (T 5%nat ltac:(lia)) as T5.
  pose proof (T 6%nat ltac:(lia)) as T6. pose proof (T 7%nat ltac:(lia)) as T7.
  cbn [Z.of_nat Pos.of_succ_nat Pos.succ] in *.
  rewrite T0 in Fs. rewrite T4 in Fb. rewrite T1, T2, T3 in Fd.
  rewrite T5, T6, T7 in Fc.
  repeat split; intros; try tauto;
    first [ apply Fs; assumption | apply Fc; assumption
          | apply Fe; assumption | apply Fl; assumption
          | apply Fp; assumption | apply Fb; assumption ].
Qed.

Lemma readColors_offset (buf : Buffer) (count : nat) :
  forall off cs off',
    Device.readColors buf count off = Ok (cs, off') ->
    off' = (off + 4 * count)%nat
    /\ (0 < count -> off' <= List.length buf + 1)%nat.
Proof.
  induction count as [|count IH]; intros off cs off' H;
    cbn [Device.readColors] in H.
  - injection H as _ <-. split; lia.
  - binds H.
    match goal with
    | E : Device.readColor _ _ = Ok _ |- _ =>
        unfold Device.readColor in E; binds E
    end.
    match goal with
    | E : Device.readColors _ _ _ = Ok _ |- _ =>
        destruct (IH _ _ _ E) as [-> Hle]
    end.
    injection H as _ <-. split; [lia|]. intros _.
    destruct count as [|count]; [|lia].
    match goal with
    | E : readUInt8 _ (off + 2) = Ok _ |- _ =>
        unfold readUInt8 in E;
        pose proof (length_skipn (off + 2) buf) as Hl;
        destruct (skipn (off + 2) buf); [discriminate|];
        cbn [List.length] in Hl; lia
    end.
Qed.

Lemma readUInt16LE_inside (buf : Buffer) (off : nat) (v : Z) :
  readUInt16LE buf off = Ok v -> (off + 2 <= List.length buf)%nat.
Proof.
  unfold readUInt16LE. pose proof (length_skipn off buf) as Hl.
  destruct (skipn off buf) as [|b0 [|b1 r]]; try discriminate.
  cbn [List.length] in Hl. lia.
Qed.

Lemma readString_advance (buf : Buffer) (off : nat) (s : Device.StringRead) :
  Device.readString TextDecoder_decode buf off = Ok s ->
  (2 <= Z.to_nat (Device.length s))%nat.
Proof.
  unfold Device.readString. intros H. binds H.
  apply readUInt16LE_nonneg in E. injection H as <-. cbn. lia.
Qed.

(** A decoded mode takes at least 40 bytes and four more for every
    colour, and ends inside the buffer, or one byte after it when the
    padding of the last colour is missing. *)
Lemma readMode_offset (buf : Buffer) (off off' : nat) (v idx : Z) (m : Mode) :
  Device.readMode TextDecoder_decode buf off v idx = Ok (m, off') ->
  (off + 40 + 4 * List.length (colors m) <= off' <= List.length buf + 1)%nat.
Proof.
  intros H. unfold Device.readMode in H.
  binds H.
  repeat match goal with
    | E : (if ?c then _ else _) = Ok _ |- _ => destruct c
    | E : bind _ _ = Ok _ |- _ => binds E
    | E : Ok _ = Ok _ |- _ =>
        first [injection E as <- <- <- | injection E as <- <-]
    end.
  all: match goal with
    | E : Device.readString _ _ _ = Ok _ |- _ =>
        apply readString_advance in E
    end.
  all: match goal with
    | E : readUInt16LE _ _ = Ok _ |- _ =>
        pose proof (readUInt16LE_inside _ _ _ E)
    end.
  all: repeat match type of H with
    | context [if ?c then _ else _] => destruct c
    end; cbv iota beta in H; binds H;
    match goal with
    | E : Device.readColors _ _ _ = Ok _ |- _ =>
        pose proof (readColors_length _ _ _ _ _ E) as Hlen;
        destruct (readColors_offset _ _ _ _ _ E) as [Hoff Hle]
    end;
    injection H as <- <-; cbn [colors];
    destruct (Nat.eq_dec (List.length l) 0); lia.
Qed.

Lemma readModes_from_indexed (buf : Buffer) (v : Z) (count : nat) :
  forall idx off ms off',
    Device.readModes_from TextDecoder_decode buf count idx off v
    = Ok (ms, off') ->
    List.length ms = count
    /\ (forall i m, nth_error ms i = Some m -> id m = idx + Z.of_nat i)
    /\ (off + 40 * count <= off')%nat
    /\ ((0 < count)%nat -> (off' <= List.length buf + 1)%nat).
Proof.
  induction count as [|count IH]; intros idx off ms off' H;
    cbn [Device.readModes_from] in H.
  - injection H as <- <-. repeat split; try lia.
    intros [|i] m Hm; discriminate Hm.
  - binds H. injection H as <- <-.
    match goal with
    | E : Device.readMode _ _ _ _ _ = Ok _ |- _ =>
        pose proof (readMode_offset _ _ _ _ _ _ E) as Ho;
        destruct (readMode_shape _ _ _ _ _ _ E) as (_ & _ & _ & Hid & _)
    end.
    match goal with
    | E : Device.readModes_from _ _ _ _ _ _ = Ok _ |- _ =>
        destruct (IH _ _ _ _ E) as (Hl & Hi & Hlo & Hhi)
    end.
    repeat split.
    + cbn [List.length]. lia.
    + intros [|i] m' Hm; cbn [nth_error] in Hm.
      * injection Hm as <-. lia.
      * rewrite (Hi _ _ Hm). lia.
    + lia.
    + intros _. destruct count as [|count]; [|lia].
      cbn [Device.readModes_from] in *.
      match goal with
      | E : Ok _ = Ok _ |- _ => injection E as _ <-
      end. lia.
Qed.

(** X16.  [readModes] yields exactly [modeCount] modes, the mode at
    position [i] has the id [i], every mode takes at least 40 bytes of
    the buffer, and decoding ends inside the buffer or, when the
    padding byte of the last colour is missing, one byte after it. *)
Theorem readModes_indexed :
  forall (buf : Buffer) (modeCount off off' : nat) (v : Z) (ms : list Mode),
    Device.readModes TextDecoder_decode buf modeCount off v = Ok (ms, off') ->
    List.length ms = modeCount
    /\ (forall i m, nth_error ms i = Some m -> id m = Z.of_nat i)
    /\ (off + 40 * modeCount <= off')%nat
    /\ ((0 < modeCount)%nat -> (off' <= List.length buf + 1)%nat).
Proof.
  intros buf modeCount off off' v ms H.
  exact (readModes_from_indexed _ _ _ _ _ _ _ H).
Qed.

End DecodedModes.

Lemma decoded_flagList_bits_witness :
  exists m off,
    Device.readMode Samples.decode
      (Client.sendMode_data 3 Samples.rainbow) 8 3 0 = Ok (m, off)
    /\ 0 <= Classes.flags m < 1024
    /\ (In "direction"%string (Classes.flagList m)
        <-> Z.testbit (Classes.flags m) 1 || Z.testbit (Classes.flags m) 2
            || Z.testbit (Classes.flags m) 3 = true).
Proof.
  eexists. eexists. split; [vm_compute; reflexivity|].
  destruct (decoded_flagList_bits Samples.decode
              (Client.sendMode_data 3 Samples.rainbow) 8 _ 3 0 _
              ltac:(vm_compute; reflexivity)) as (H1 & _ & H2 & _).
  split; [exact H1 | exact H2].
Defined.

Lemma decoded_fields_zeroed_witness :
  exists m off,
    Device.readMode Samples.decode (Samples.mode_record 1) 0 0 0 = Ok (m, off)
    /\ Classes.colors m = []
    /\ Classes.brightness m = None.
Proof.
  eexists. eexists. split; [vm_compute; reflexivity|].
  destruct (decoded_fields_zeroed Samples.decode (Samples.mode_record 1)
              0 _ 0 0 _ ltac:(vm_compute; reflexivity))
    as (_ & _ & Hc & _ & Hb & _).
  split.
  - apply Hc; reflexivity.
  - apply Hb. lia.
Defined.

Lemma readModes_indexed_witness :
  exists ms off,
    Device.readModes Samples.decode (Samples.mode_record 1) 1 0 0
    = Ok (ms, off)
    /\ List.length ms = 1%nat
    /\ (40 <= off <= List.length (Samples.mode_record 1) + 1)%nat.
Proof.
  eexists. eexists. split; [vm_compute; reflexivity|].
  destruct (readModes_indexed Samples.decode (Samples.mode_record 1)
              1 0 _ 0 _ ltac:(vm_compute; reflexivity))
    as (Hl & _ & Hlo & Hhi).
  split; [exact Hl|]. split; [exact Hlo | apply Hhi; lia].
Defined.

(** ** Decoded zones and devices (device.ts, readZones and the constructor) *)

Section DecodedZones.

Variable TextDecoder_decode : Buffer -> jsstring.

Lemma readMatrixRow_shape (buf : Buffer) (width : nat) :
  forall off row off',
    Device.readMatrixRow buf width off = Ok (row, off') ->
    List.length row = width
    /\ ~ In (Some 4294967295) row
    /\ off' = (off + 4 * width)%nat.
Proof.
  induction width as [|width IH]; intros off row off' H;
    cbn [Device.readMatrixRow] in H.
  - injection H as <- <-. repeat split; [intros [] | lia].
  - binds H. injection H as <- <-.
    match goal with
    | E : Device.readMatrixRow _ _ _ = Ok _ |- _ =>
        destruct (IH _ _ _ E) as (Hl & Hn & ->)
    end.
    repeat split.
    + cbn [List.length]. lia.
    + intros [Hin|Hin]; [|exact (Hn Hin)].
      match type of Hin with
      | (if ?a =? ?b then _ else _) = _ =>
          destruct (Z.eqb_spec a b); [discriminate | congruence]
      end.
    + lia.
Qed.

Lemma readMatrixRows_shape (buf : Buffer) (width height : nat) :
  forall off rows off',
    Device.readMatrixRows buf height width off = Ok (rows, off') ->
    List.length rows = height
    /\ Forall (fun row => List.length row = width
                          /\ ~ In (Some 4294967295) row) rows
    /\ off' = (off + 4 * width * height)%nat.
Proof.
  induction height as [|height IH]; intros off rows off' H;
    cbn [Device.readMatrixRows] in H.
  - injection H as <- <-. repeat split; [constructor | lia].
  - binds H. injection H as <- <-.
    match goal with
    | E : Device.readMatrixRow _ _ _ = Ok _ |- _ =>
        destruct (readMatrixRow_shape _ _ _ _ _ E) as (Hl & Hn & ->)
    end.
    match goal with
    | E : Device.readMatrixRows _ _ _ _ = Ok _ |- _ =>
        destruct (IH _ _ _ E) as (Hl' & Hf & ->)
    end.
    repeat split.
    + cbn [List.length]. lia.
    + constructor; [split; assumption | assumption].
    + lia.
Qed.

(** What one iteration of [readZones] settles. *)
Lemma readZone_shape (buf : Buffer) (off off' : nat) (v idx : Z)
    (z : Zone.Zone) :
  Device.readZone TextDecoder_decode buf off v idx = Ok (z, off') ->
  Zone.id z = idx
  /\ (Zone.resizable z = true <-> Zone.ledsMin z <> Zone.ledsMax z)
  /\ (Zone.segments z = None <-> v < 4)
  /\ (forall mx, Zone.matrix z = Some mx ->
        List.length (Matrix.keys mx) = Z.to_nat (Matrix.height mx)
        /\ Forall (fun row =>
                     List.length row = Z.to_nat (Matrix.width mx)
                     /\ ~ In (Some 4294967295) row) (Matrix.keys mx)).
Proof.
  intros H. unfold Device.readZone in H. binds H.
  repeat match goal with
    | E : (if ?c then _ else _) = Ok _ |- _ => destruct c eqn:?
    | E : bind _ _ = Ok _ |- _ => binds E
    | E : Ok _ = Ok _ |- _ =>
        tryif constr_eq E H then fail else injection E as <- <-
    end.
  all: injection H as <- _; cbn.
  all: repeat split; intros;
    try discriminate; try lia; try congruence;
    try match goal with
      | |- negb (?a =? ?b) = true =>
          apply negb_true_iff; apply Z.eqb_neq; assumption
      | Hn : negb (?a =? ?b) = true |- _ =>
          apply negb_true_iff in Hn; apply Z.eqb_neq in Hn; contradiction
      end.
  all: try match goal with
    | Hm : Some _ = Some ?mx |- _ => injection Hm as <-; cbn
    end.
  all: match goal with
    | E : Device.readMatrixRows _ _ _ _ = Ok _ |- _ =>
        destruct (readMatrixRows_shape _ _ _ _ _ _ E) as (Hl & Hf & _);
        assumption
    end.
Qed.

Lemma readZones_from_shape (buf : Buffer) (v : Z) (count : nat) :
  forall idx off zs off',
    Device.readZones_from TextDecoder_decode buf count idx off v
    = Ok (zs, off') ->
    List.length zs = count
    /\ (forall i z, nth_error zs i = Some z ->
          exists o o',
            Device.readZone TextDecoder_decode buf o v (idx + Z.of_nat i)
            = Ok (z, o')).
Proof.
  induction count as [|count IH]; intros idx off zs off' H;
    cbn [Device.readZones_from] in H.
  - injection H as <- <-. split; [reflexivity|].
    intros [|i] z Hz; discriminate Hz.
  - binds H. injection H as <- <-.
    match goal with
    | E : Device.readZones_from _ _ _ _ _ _ = Ok _ |- _ =>
        destruct (IH _ _ _ _ E) as (Hl & Hi)
    end.
    split; [cbn [List.length]; lia|].
    intros [|i] z' Hz; cbn [nth_error] in Hz.
    + injection Hz as <-. rewrite Z.add_0_r. eauto.
    + destruct (Hi _ _ Hz) as (o & o' & Ho).
      exists o, o'. rewrite <- Ho. f_equal. lia.
Qed.

(** X17.  [readZones] yields exactly [zoneCount] zones; the zone at
    position [i] has the id [i]; a zone is resizable exactly when its
    bounds [ledsMin] and [ledsMax] differ; it has no segments exactly
    below protocol 4; and a matrix has [height] rows of [width] keys,
    none of which is the number 0xFFFFFFFF. *)
Theorem readZones_shape :
  forall (buf : Buffer) (zoneCount off off' : nat) (v : Z)
         (zs : list Zone.Zone),
    Device.readZones TextDecoder_decode buf zoneCount off v = Ok (zs, off') ->
    List.length zs = zoneCount
    /\ (forall i z, nth_error zs i = Some z ->
          Zone.id z = Z.of_nat i
          /\ (Zone.resizable z = true <-> Zone.ledsMin z <> Zone.ledsMax z)
          /\ (Zone.segments z = None <-> v < 4)
          /\ (forall mx, Zone.matrix z = Some mx ->
                List.length (Matrix.keys mx) = Z.to_nat (Matrix.height mx)
                /\ Forall (fun row =>
                             List.length row = Z.to_nat (Matrix.width mx)
                             /\ ~ In (Some 4294967295) row)
                     (Matrix.keys mx))).
Proof.
  intros buf zoneCount off off' v zs H.
  destruct (readZones_from_shape _ _ _ _ _ _ _ H) as (Hl & Hi).
  split; [exact Hl|].
  intros i z Hz. destruct (Hi _ _ Hz) as (o & o' & Ho).
  exact (readZone_shape _ _ _ _ _ _ Ho).
Qed.

End DecodedZones.

Lemma readZones_shape_witness :
  exists zs off,
    Device.readZones Samples.decode Examples.zone_record 1 0 0 = Ok (zs, off)
    /\ List.length zs = 1%nat
    /\ (forall z, nth_error zs 0 = Some z ->
          Zone.id z = 0 /\ Zone.segments z = None).
Proof.
  eexists. eexists. split; [vm_compute; reflexivity|].
  destruct (readZones_shape Samples.decode Examples.zone_record 1 0 _ 0 _
              ltac:(vm_compute; reflexivity)) as (Hl & Hz).
  split; [exact Hl|].
  intros z Hn. destruct (Hz 0%nat z Hn) as (Hid & _ & Hs & _).
  split; [exact Hid | apply Hs; lia].
Defined.

(** *** Only range errors *)

Create HintDb range discriminated.

Lemma readUInt8_RangeError (b : Buffer) (off : nat) (e : JsError) :
  readUInt8 b off = Throw e -> e = RangeError.
Proof.
  unfold readUInt8. destruct (skipn off b); congruence.
Qed.

Lemma readUInt16LE_RangeError (b : Buffer) (off : nat) (e : JsError) :
  readUInt16LE b off = Throw e -> e = RangeError.
Proof.
  unfold readUInt16LE. destruct (skipn off b) as [|? [|? ?]]; congruence.
Qed.

Lemma readUInt32LE_RangeError (b : Buffer) (off : nat) (e : JsError) :
  readUInt32LE b off = Throw e -> e = RangeError.
Proof.
  unfold readUInt32LE.
  destruct (skipn off b) as [|? [|? [|? [|? ?]]]]; congruence.
Qed.

Lemma readInt32LE_RangeError (b : Buffer) (off : nat) (e : JsError) :
  readInt32LE b off = Throw e -> e = RangeError.
Proof.
  unfold readInt32LE.
  destruct (readUInt32LE b off) eqn:E; cbn [bind]; [discriminate|].
  intros H. injection H as <-. eapply readUInt32LE_RangeError. exact E.
Qed.

Lemma flagcheck_of_RangeError (modeFlags : Z) (e : JsError) :
  Device.flagcheck_of modeFlags = Throw e -> e = RangeError.
Proof.
  unfold Device.flagcheck_of. destruct (_ <? 0); congruence.
Qed.

#[local] Hint Resolve readUInt8_RangeError readUInt16LE_RangeError
  readUInt32LE_RangeError readInt32LE_RangeError flagcheck_of_RangeError
  : range.

(** Case analysis of a failing sequence of reads: the step that threw
    is settled by the hints. *)
Ltac throws H :=
  repeat match type of H with
    | bind ?x _ = Throw _ =>
        let E := fresh "E" in
        destruct x eqn:E; cbn [bind] in H;
        [| injection H as <-; first [solve [eauto with range] | throws E]]
    | (let '(_, _) := ?p in _) = Throw _ => is_var p; destruct p
    | (if ?c then _ else _) = Throw _ => destruct c
    | Ok _ = Throw _ => discriminate H
    | Throw _ = Throw _ => injection H as <-; solve [eauto with range]
    end.

Section DecodedDevice.

Variable TextDecoder_decode : Buffer -> jsstring.

Lemma readString_RangeError (b : Buffer) (off : nat) (e : JsError) :
  Device.readString TextDecoder_decode b off = Throw e -> e = RangeError.
Proof.
  unfold Device.readString. intros H. throws H.
Qed.

Lemma readColor_RangeError (b : Buffer) (off : nat) (e : JsError) :
  Device.readColor b off = Throw e -> e = RangeError.
Proof.
  unfold Device.readColor. intros H. throws H.
Qed.

Hint Resolve readString_RangeError readColor_RangeError : range.

Lemma readColors_RangeError (b : Buffer) (count : nat) :
  forall off e, Device.readColors b count off = Throw e -> e = RangeError.
Proof.
  induction count as [|count IH]; intros off e H; cbn [Device.readColors] in H.
  - discriminate.
  - throws H.
Qed.

Hint Resolve readColors_RangeError : range.

Lemma readMode_RangeError (b : Buffer) (off : nat) (v idx : Z) (e : JsError) :
  Device.readMode TextDecoder_decode b off v idx = Throw e -> e = RangeError.
Proof.
  unfold Device.readMode. intros H. throws H.
  all: repeat match type of H with
    | context [if ?c then _ else _] => destruct c
    end; cbv iota beta in H; throws H.
Qed.

Hint Resolve readMode_RangeError : range.

Lemma readModes_from_RangeError (b : Buffer) (v : Z) (count : nat) :
  forall idx off e,
    Device.readModes_from TextDecoder_decode b count idx off v = Throw e ->
    e = RangeError.
Proof.
  induction count as [|count IH]; intros idx off e H;
    cbn [Device.readModes_from] in H.
  - discriminate.
  - throws H.
Qed.

Lemma readMatrixRow_RangeError (b : Buffer) (width : nat) :
  forall off e, Device.readMatrixRow b width off = Throw e -> e = RangeError.
Proof.
  induction width as [|width IH]; intros off e H;
    cbn [Device.readMatrixRow] in H.
  - discriminate.
  - throws H.
Qed.

Hint Resolve readMatrixRow_RangeError : range.

Lemma readMatrixRows_RangeError (b : Buffer) (width height : nat) :
  forall off e,
    Device.readMatrixRows b height width off = Throw e -> e = RangeError.
Proof.
  induction height as [|height IH]; intros off e H;
    cbn [Device.readMatrixRows] in H.
  - discriminate.
  - throws H.
Qed.

Lemma readSegments_RangeError (b : Buffer) (count : nat) :
  forall off e,
    Device.readSegments TextDecoder_decode b count off = Throw e ->
    e = RangeError.
Proof.
  induction count as [|count IH]; intros off e H;
    cbn [Device.readSegments] in H.
  - discriminate.
  - throws H.
Qed.

Hint Resolve readMatrixRows_RangeError readSegments_RangeError : range.

Lemma readZone_RangeError (b : Buffer) (off : nat) (v idx : Z) (e : JsError) :
  Device.readZone TextDecoder_decode b off v idx = Throw e -> e = RangeError.
Proof.
  unfold Device.readZone. intros H. throws H.
Qed.

Hint Resolve readZone_RangeError : range.

Lemma readZones_from_RangeError (b : Buffer) (v : Z) (count : nat) :
  forall idx off e,
    Device.readZones_from TextDecoder_decode b count idx off v = Throw e ->
    e = RangeError.
Proof.
  induction count as [|count IH]; intros idx off e H;
    cbn [Device.readZones_from] in H.
  - discriminate.
  - throws H.
Qed.

Lemma readLeds_RangeError (b : Buffer) (count : nat) :
  forall off e,
    Device.readLeds TextDecoder_decode b count off = Throw e ->
    e = RangeError.
Proof.
  induction count as [|count IH]; intros off e H; cbn [Device.readLeds] in H.
  - discriminate.
  - throws H.
Qed.

Hint Resolve readModes_from_RangeError readZones_from_RangeError
  readLeds_RangeError : range.

(** X18.  Whatever the buffer and the protocol version, the only
    exception that the constructor of [Device] raises is a
    [RangeError]: a read outside the buffer, or flags of 1024 and
    more. *)
Theorem new_Device_only_RangeError :
  forall (buffer : Buffer) (deviceId protocolVersion : Z) (e : JsError),
    Device.new_Device TextDecoder_decode buffer deviceId protocolVersion
    = Throw e ->
    e = RangeError.
Proof.
  intros buffer deviceId protocolVersion e H.
  unfold Device.new_Device, Device.readModes, Device.readZones in H.
  throws H.
Qed.

(** *** Offsets only grow *)

Lemma readSegments_grows (b : Buffer) (count : nat) :
  forall off segs off',
    Device.readSegments TextDecoder_decode b count off = Ok (segs, off') ->
    (off <= off')%nat.
Proof.
  induction count as [|count IH]; intros off segs off' H;
    cbn [Device.readSegments] in H.
  - injection H as _ <-. lia.
  - binds H. injection H as _ <-.
    match goal with
    | E : Device.readSegments _ _ _ _ = Ok _ |- _ => apply IH in E
    end. lia.
Qed.

Lemma readZone_grows (b : Buffer) (off off' : nat) (v idx : Z)
    (z : Zone.Zone) :
  Device.readZone TextDecoder_decode b off v idx = Ok (z, off') ->
  (off <= off')%nat.
Proof.
  intros H. unfold Device.readZone in H. binds H.
  repeat match goal with
    | E : (if ?c then _ else _) = Ok _ |- _ => destruct c eqn:?
    | E : bind _ _ = Ok _ |- _ => binds E
    | E : Ok _ = Ok _ |- _ =>
        tryif constr_eq E H then fail else injection E as <- <-
    end.
  all: injection H as _ <-.
  all: repeat match goal with
    | E : Device.readMatrixRows _ _ _ _ = Ok _ |- _ =>
        destruct (readMatrixRows_shape _ _ _ _ _ _ E) as (_ & _ & ->);
        clear E
    | E : Device.readSegments _ _ _ _ = Ok _ |- _ =>
        apply readSegments_grows in E
    end; lia.
Qed.

Lemma readZones_from_grows (b : Buffer) (v : Z) (count : nat) :
  forall idx off zs off',
    Device.readZones_from TextDecoder_decode b count idx off v
    = Ok (zs, off') ->
    (off <= off')%nat.
Proof.
  induction count as [|count IH]; intros idx off zs off' H;
    cbn [Device.readZones_from] in H.
  - injection H as _ <-. lia.
  - binds H. injection H as _ <-.
    match goal with
    | E : Device.readZone _ _ _ _ _ = Ok _ |- _ => apply readZone_grows in E
    end.
    match goal with
    | E : Device.readZones_from _ _ _ _ _ _ = Ok _ |- _ => apply IH in E
    end. lia.
Qed.

Lemma readLeds_shape (b : Buffer) (count : nat) :
  forall off leds off',
    Device.readLeds TextDecoder_decode b count off = Ok (leds, off') ->
    List.length leds = count /\ (off <= off')%nat.
Proof.
  induction count as [|count IH]; intros off leds off' H;
    cbn [Device.readLeds] in H.
  - injection H as <- <-. split; [reflexivity | lia].
  - binds H. injection H as <- <-.
    match goal with
    | E : Device.readLeds _ _ _ _ = Ok _ |- _ =>
        destruct (IH _ _ _ E) as [Hl Ho]
    end.
    split; [cbn [List.length]; lia | lia].
Qed.

(** X19.  A controller record that the constructor of [Device]
    accepts: the device keeps the id it was given, it has a vendor
    exactly from protocol 1 on, its modes and zones are numbered by
    their positions, the four lists have at most 65535 entries each,
    and the record has at least 30 bytes. *)
Theorem new_Device_shape :
  forall (buffer : Buffer) (deviceId protocolVersion : Z) (d : Device.Device),
    Device.new_Device TextDecoder_decode buffer deviceId protocolVersion
    = Ok d ->
    Device.deviceId d = deviceId
    /\ (Device.vendor d = None <-> protocolVersion < 1)
    /\ (forall i m, nth_error (Device.modes d) i = Some m ->
          Classes.id m = Z.of_nat i)
    /\ (forall i z, nth_error (Device.zones d) i = Some z ->
          Zone.id z = Z.of_nat i)
    /\ Z.of_nat (List.length (Device.modes d)) <= 65535
    /\ Z.of_nat (List.length (Device.zones d)) <= 65535
    /\ Z.of_nat (List.length (Device.leds d)) <= 65535
    /\ Z.of_nat (List.length (Device.colors d)) <= 65535
    /\ (30 <= List.length buffer)%nat.
Proof.
  intros buffer deviceId protocolVersion d H.
  unfold Device.new_Device in H. binds H.
  repeat match goal with
    | E : (if ?c then _ else _) = Ok _ |- _ =>
        let Hc := fresh "Hc" in destruct (Z.leb_spec 1 protocolVersion) as [Hc|Hc]
    | E : bind _ _ = Ok _ |- _ => binds E
    | E : Ok _ = Ok _ |- _ =>
        tryif constr_eq E H then fail else injection E as <- <-
    end.
  all: injection H as <-; cbn.
  all: repeat match goal with
    | E : Device.readString _ _ _ = Ok _ |- _ => apply readString_advance in E
    | E : readUInt16LE _ _ = Ok _ |- _ =>
        pose proof (readUInt16LE_range _ _ _ E);
        apply readUInt16LE_inside in E
    | E : Device.readModes _ _ _ _ _ = Ok _ |- _ =>
        destruct (readModes_from_indexed _ _ _ _ _ _ _ _ E)
          as (? & ? & ? & _); clear E
    | E : Device.readZones _ _ _ _ _ = Ok _ |- _ =>
        pose proof (readZones_from_grows _ _ _ _ _ _ _ E);
        destruct (readZones_from_shape _ _ _ _ _ _ _ _ E) as (? & ?);
        clear E
    | E : Device.readLeds _ _ _ _ = Ok _ |- _ =>
        destruct (readLeds_shape _ _ _ _ _ E) as (? & ?); clear E
    | E : Device.readColors _ _ _ = Ok _ |- _ =>
        apply readColors_length in E
    end.
  all: repeat split; intros; try discriminate; try lia; auto.
  all: match goal with
    | Hm : forall i m, nth_error ?ms i = Some m -> Classes.id m = _,
      Hn : nth_error ?ms _ = Some _ |- Classes.id _ = _ =>
        rewrite (Hm _ _ Hn); lia
    | Hz : forall i z, nth_error ?zs i = Some z -> _,
      Hn : nth_error ?zs _ = Some _ |- Zone.id _ = _ =>
        destruct (Hz _ _ Hn) as (o & o' & Ho);
        destruct (readZone_shape _ _ _ _ _ _ _ Ho) as (Hid & _);
        rewrite Hid; lia
    end.
Qed.

End DecodedDevice.

Lemma new_Device_only_RangeError_witness :
  exists e,
    Device.new_Device Samples.decode (firstn 40 Examples.device_record) 7 0
    = Throw e
    /\ e = RangeError.
Proof.
  eexists. split; [vm_compute; reflexivity|].
  apply (new_Device_only_RangeError Samples.decode
           (firstn 40 Examples.device_record) 7 0).
  vm_compute. reflexivity.
Defined.

Lemma new_Device_shape_witness :
  exists d,
    Device.new_Device Samples.decode Examples.device_record 7 0 = Ok d
    /\ Device.deviceId d = 7
    /\ (Device.vendor d = None <-> 0 < 1).
Proof.
  eexists. split; [vm_compute; reflexivity|].
  destruct (new_Device_shape Samples.decode Examples.device_record 7 0 _
              ltac:(vm_compute; reflexivity)) as (H1 & H2 & _).
  split; [exact H1 | exact H2].
Defined.

(** ** Mode updates (client.ts, sendMode) *)

Section ModeUpdates.

Import Client Facade.

Variable command : Commands.
Variable toLowerCase : jsstring -> jsstring.


(** X20.  An object given to [updateMode] changes nothing but speed,
    brightness, direction, colour mode and colours of the selected
    mode, and it never sets one of the first four to 0: where such a
    field differs from the device's, it is the object's value and is
    not 0.  The colours are the object's whenever it has any, also an
    empty list. *)
Theorem patch_mode_fields :
  forall (modeData : Classes.Mode) (o : ModeInput.ModeInput),
    let m := patch_mode modeData (ByObject o) in
    (Classes.id m = Classes.id modeData
     /\ Classes.name m = Classes.name modeData
     /\ Classes.value m = Classes.value modeData
     /\ Classes.flags m = Classes.flags modeData
     /\ Classes.speedMin m = Classes.speedMin modeData
     /\ Classes.speedMax m = Classes.speedMax modeData
     /\ Classes.brightnessMin m = Classes.brightnessMin modeData
     /\ Classes.brightnessMax m = Classes.brightnessMax modeData
     /\ Classes.colorMin m = Classes.colorMin modeData
     /\ Classes.colorMax m = Classes.colorMax modeData
     /\ Classes.flagList m = Classes.flagList modeData)
    /\ (Classes.speed m <> Classes.speed modeData ->
        Classes.speed m <> 0
        /\ ModeInput.speed o = Some (Classes.speed m))
    /\ (Classes.brightness m <> Classes.brightness modeData ->
        Classes.brightness m <> Some 0
        /\ ModeInput.brightness o = Classes.brightness m)
    /\ (Classes.direction m <> Classes.direction modeData ->
        Classes.direction m <> 0
        /\ ModeInput.direction o = Some (Classes.direction m))
    /\ (Classes.colorMode m <> Classes.colorMode modeData ->
        Classes.colorMode m <> 0
        /\ ModeInput.colorMode o = Some (Classes.colorMode m))
    /\ (forall cs, ModeInput.colors o = Some cs -> Classes.colors m = cs)
    /\ (ModeInput.colors o = None ->
        Classes.colors m = Classes.colors modeData).
Proof.
  intros modeData o m. subst m. unfold patch_mode, truthy.
  cbn [Classes.id Classes.name Classes.value Classes.flags Classes.speedMin
       Classes.speedMax Classes.brightnessMin Classes.brightnessMax
       Classes.colorMin Classes.colorMax Classes.flagList Classes.speed
       Classes.brightness Classes.direction Classes.colorMode Classes.colors].
  split; [repeat split|].
  destruct (ModeInput.speed o) as [s|];
    destruct (ModeInput.brightness o) as [b|];
    destruct (ModeInput.direction o) as [d|];
    destruct (ModeInput.colorMode o) as [cm|];
    destruct (ModeInput.colors o) as [cs|];
    repeat match goal with
      | |- context [?x =? 0] => destruct (Z.eqb_spec x 0)
      end;
    cbn [negb];
    repeat split; intros; try congruence.
Qed.


Lemma equals_string_eq (a b : jsstring) :
  equals_string a b = true <-> a = b.
Proof.
  revert b. induction a as [|x a IH]; intros [|y b]; cbn [equals_string].
  - split; reflexivity.
  - split; discriminate.
  - split; discriminate.
  - rewrite andb_true_iff, Z.eqb_eq, IH. split.
    + intros [-> ->]. reflexivity.
    + intros H. split; congruence.
Qed.

(** X22.  [updateMode] with a string as mode selects the first mode of
    the device whose name is the string up to the case of the letters;
    it is refused with an error when no mode has such a name. *)
Theorem select_mode_by_name :
  forall (modes : list Classes.Mode) (s : jsstring),
    (forall before m after,
       modes = before ++ m :: after ->
       toLowerCase (Classes.name m) = toLowerCase s ->
       (forall m', In m' before ->
          toLowerCase (Classes.name m') <> toLowerCase s) ->
       select_mode toLowerCase modes (ByString s) = Ok m)
    /\ ((forall m, In m modes ->
           toLowerCase (Classes.name m) <> toLowerCase s) ->
        select_mode toLowerCase modes (ByString s)
        = Throw (Error "Name given is not the name of a mode")).
Proof.
  intros modes s. split.
  - intros before m after -> Hm Hb.
    unfold select_mode. cbn [bind].
    induction before as [|m0 before IH]; cbn [app find].
    + rewrite (proj2 (equals_string_eq _ _) Hm). reflexivity.
    + destruct (equals_string _ _) eqn:E.
      * apply equals_string_eq in E. exfalso.
        exact (Hb m0 (or_introl eq_refl) E).
      * apply IH. intros m' Hin. apply Hb. right. exact Hin.
  - intros Hn. unfold select_mode. cbn [bind].
    induction modes as [|m0 modes IH]; cbn [find]; [reflexivity|].
    destruct (equals_string _ _) eqn:E.
    + apply equals_string_eq in E. exfalso.
      exact (Hn m0 (or_introl eq_refl) E).
    + apply IH. intros m Hin. apply Hn. right. exact Hin.
Qed.

End ModeUpdates.


Lemma select_mode_by_name_witness :
  Facade.select_mode Examples.lower [Samples.plain_mode; Samples.rainbow]
    (Facade.ByString [72; 73])
  = Ok Samples.rainbow.
Proof.
  apply (proj1 (select_mode_by_name Examples.lower
                  [Samples.plain_mode; Samples.rainbow] [72; 73])
           [Samples.plain_mode] Samples.rainbow []).
  - reflexivity.
  - reflexivity.
  - intros m' [<-|[]]. cbn. discriminate.
Defined.

(** ** The mode record below protocol 3 (client.ts, sendMode; device.ts,
    readModes) *)

Ltac read_word :=
  match goal with
  | T := _ |- readUInt32LE ?T _ = Ok _ =>
      unfold T, readUInt32LE, le32; cbn [app skipn];
      f_equal; apply le32_read; assumption
  end.

Section LegacyModeCodec.

Import Classes Wire.

Variable TextDecoder_decode : Buffer -> jsstring.

Hypothesis decode_ascii :
  forall bs, Forall is_ascii bs -> TextDecoder_decode bs = ascii_text bs.

Lemma color_bytes_length (cs : list RGBColor) :
  List.length (concat (map color_bytes cs)) = (4 * List.length cs)%nat.
Proof.
  induction cs as [|c cs IH]; [reflexivity|].
  cbn [map concat]. rewrite length_app, IH. cbn [color_bytes List.length].
  lia.
Qed.

(** X23.  Below protocol 3 a mode survives the round trip through
    [sendMode] and [readModes]: for a mode without brightness fields
    whose other fields fit the wire and are in the decoder's normal
    form, decoding the data that [sendMode] builds, from byte 8 on and
    under the mode's own id, gives the mode back and ends at the end of
    the data. *)
Theorem legacy_mode_roundtrip :
  forall (protocolVersion : Z) (m : Mode),
    protocolVersion < 3 ->
    wire_mode_legacy m ->
    forced_legacy m ->
    Device.readMode TextDecoder_decode
      (Client.sendMode_data protocolVersion m) 8 protocolVersion (id m)
    = Ok (m, List.length (Client.sendMode_data protocolVersion m)).
Proof.
  intros v m Hv Hw Hf.
  destruct Hw as (Hval & Hflags & Hsmin & Hsmax & Ebmin & Ebmax & Eb
                  & Hcmin & Hcmax & Hspeed & Hdir & Hcmode & Hname & Hnlen
                  & Hclen & Hcols).
  destruct Hf as (flagcheck & Hfc & Hlist & Fspeed & Fdir & Fcol).
  destruct (ascii_pack_s _ Hname) as [Hasc Htxt].
  set (N := pack_s (name m)).
  set (C := concat (map color_bytes (colors m))).
  set (T := le32 (value m) ++ le32 (flags m) ++ le32 (speedMin m)
            ++ le32 (speedMax m)
            ++ le32 (colorMin m) ++ le32 (colorMax m) ++ le32 (speed m)
            ++ le32 (direction m) ++ le32 (colorMode m)
            ++ le16 (Z.of_nat (List.length (colors m))) ++ C).
  set (n := List.length (name m)).
  assert (HN : List.length N = n) by (unfold N, n, pack_s; apply length_map).
  assert (Hdata :
    exists P, List.length P = 8%nat
      /\ Client.sendMode_data v m
         = P ++ le16 (Z.of_nat n + 1) ++ N ++ x00 :: T).
  { unfold Client.sendMode_data.
    destruct (Z.leb_spec 3 v); [lia|].
    exists (Bufferpack.pack_I
              (Z.of_nat (List.length
                 (Bufferpack.pack_I (id m) ++ Client.pack_string (name m)
                  ++ Bufferpack.pack_Is
                       [value m; flags m; speedMin m; speedMax m;
                        colorMin m; colorMax m; speed m;
                        direction m; colorMode m]
                  ++ Client.pack_color_list (colors m))))
            ++ Bufferpack.pack_I (id m)).
    split; [reflexivity|].
    rewrite <- !app_assoc. do 2 f_equal.
    unfold Client.pack_string, Bufferpack.pack_H.
    rewrite clamp_id by (fold n; unfold n; lia).
    rewrite <- !app_assoc. fold n N. do 2 f_equal. cbn [app]. f_equal.
    unfold Bufferpack.pack_Is. cbn [map concat].
    rewrite !pack_I_u32 by (assumption || (unfold u32; lia)).
    rewrite pack_color_list_bytes by assumption.
    rewrite <- !app_assoc, app_nil_l. reflexivity. }
  destruct Hdata as (P & HP & Hdata).
  rewrite Hdata. clear Hdata.
  set (buf := P ++ le16 (Z.of_nat n + 1) ++ N ++ x00 :: T).
  assert (H8 : skipn 8 buf = le16 (Z.of_nat n + 1) ++ N ++ x00 :: T).
  { unfold buf. rewrite <- HP. apply skipn_app_exact. }
  assert (Hstr : Device.readString TextDecoder_decode buf 8
                 = Ok {| Device.text := name m;
                         Device.length := Z.of_nat n + 1 + 2 |}).
  { unfold Device.readString.
    rewrite <- (Nat.add_0_r 8) at 1.
    rewrite (readUInt16LE_in buf _ 8 0 H8), readUInt16LE_head
      by (unfold n; lia).
    cbn [bind]. do 2 f_equal.
    unfold slice.
    replace (8 + Z.to_nat (Z.of_nat n + 1) + 1 - (8 + 2))%nat with n by lia.
    rewrite skipn_add, H8. cbn [le16 app skipn].
    rewrite <- HN, firstn_app, firstn_all, Nat.sub_diag. cbn [firstn].
    rewrite app_nil_r, decode_ascii by assumption. exact Htxt. }
  set (base := (8 + Z.to_nat (Z.of_nat n + 1 + 2))%nat).
  assert (Hbase : skipn base buf = T).
  { unfold base. rewrite skipn_add, H8.
    replace (Z.to_nat (Z.of_nat n + 1 + 2)) with (2 + (n + 1))%nat by lia.
    rewrite skipn_add. cbn [le16 app skipn].
    replace (N ++ x00 :: T) with ((N ++ [x00]) ++ T)
      by (rewrite <- app_assoc; reflexivity).
    replace (n + 1)%nat with (List.length (N ++ [x00]))
      by (rewrite length_app, HN; reflexivity).
    apply skipn_app_exact. }
  assert (R : forall k, readUInt32LE buf (base + k) = readUInt32LE T k)
    by (intros k; apply readUInt32LE_in; exact Hbase).
  assert (R16 : forall k, readUInt16LE buf (base + k) = readUInt16LE T k)
    by (intros k; apply readUInt16LE_in; exact Hbase).
  unfold Device.readMode.
  rewrite Hstr. cbn [bind Device.text Device.length]. fold base.
  unfold readInt32LE.
  rewrite <- (Nat.add_0_r base) at 1.
  rewrite <- !Nat.add_assoc. cbn [Nat.add].
  rewrite !R.
  assert (B0 : readUInt32LE T 0 = Ok (value m))
    by (unfold T; apply readUInt32LE_head; unfold u32; lia).
  assert (B4 : readUInt32LE T 4 = Ok (flags m)) by read_word.
  assert (B8 : readUInt32LE T 8 = Ok (speedMin m)) by read_word.
  assert (B12 : readUInt32LE T 12 = Ok (speedMax m)) by read_word.
  assert (B16 : readUInt32LE T 16 = Ok (colorMin m)) by read_word.
  assert (B20 : readUInt32LE T 20 = Ok (colorMax m)) by read_word.
  assert (B24 : readUInt32LE T 24 = Ok (speed m)) by read_word.
  assert (B28 : readUInt32LE T 28 = Ok (direction m)) by read_word.
  assert (B32 : readUInt32LE T 32 = Ok (colorMode m)) by read_word.
  assert (B36 : readUInt16LE T 36
                = Ok (Z.of_nat (List.length (colors m)))).
  { unfold T, readUInt16LE, le32. cbn [app skipn].
    change (readUInt16LE
              (le16 (Z.of_nat (List.length (colors m))) ++ C) 0
            = Ok (Z.of_nat (List.length (colors m)))).
    apply readUInt16LE_head. lia. }
  assert (B38 : skipn (base + 38) buf = C ++ []).
  { rewrite skipn_add, Hbase, app_nil_r. reflexivity. }
  destruct (Z.leb_spec 3 v) as [|_]; [lia|].
  rewrite B0, B4, B8, B12. cbn [bind].
  destruct (Z.leb_spec 2147483648 (value m)) as [|_]; [lia|].
  rewrite <- ?Nat.add_assoc. cbn [Nat.add].
  rewrite ?R, B16, B20, B24. cbn [bind].
  rewrite <- ?Nat.add_assoc. cbn [Nat.add].
  rewrite ?R, ?R16, B28, B32, B36, Hfc. cbn [bind andb].
  set (f := Device.Number_truthy flagcheck) in *.
  assert (E1 : (if negb (f 0%nat) then (0, 0, 0)
                else (speedMin m, speedMax m, speed m))
               = (speedMin m, speedMax m, speed m)).
  { destruct (f 0%nat); [reflexivity|].
    destruct (Fspeed eq_refl) as (-> & -> & ->). reflexivity. }
  assert (E3 : (if negb (f 5%nat) && negb (f 6%nat) && negb (f 7%nat)
                   || (Z.of_nat (List.length (colors m)) =? 0)
                then (0, 0, 0)
                else (Z.of_nat (List.length (colors m)), colorMin m, colorMax m))
               = (Z.of_nat (List.length (colors m)), colorMin m, colorMax m)).
  { destruct (negb (f 5%nat) && negb (f 6%nat) && negb (f 7%nat)) eqn:E.
    - destruct (Fcol (or_introl eq_refl)) as (-> & -> & ->). reflexivity.
    - cbn [orb].
      destruct (Z.eqb_spec (Z.of_nat (List.length (colors m))) 0) as [E0|];
        [|reflexivity].
      assert (Hnil : colors m = [])
        by (destruct (colors m); [reflexivity | cbn in E0; lia]).
      destruct (Fcol (or_intror Hnil)) as (-> & -> & ->). reflexivity. }
  assert (E4 : (if negb (f 1%nat) && negb (f 2%nat) && negb (f 3%nat)
                then 0 else direction m) = direction m).
  { destruct (negb (f 1%nat) && negb (f 2%nat) && negb (f 3%nat)) eqn:E;
      [|reflexivity].
    symmetry. apply Fdir. reflexivity. }
  rewrite E1, E3, E4, Nat2Z.id.
  rewrite (readColors_bytes _ Hcols buf [] (base + 38)%nat B38).
  cbn [bind]. rewrite <- Hlist. f_equal. f_equal.
  - clear - Ebmin Ebmax Eb. destruct m.
    cbn [brightnessMin brightnessMax brightness] in Ebmin, Ebmax, Eb.
    subst. reflexivity.
  - unfold buf, base. rewrite !length_app. cbn [List.length].
    rewrite HP, HN. unfold T. rewrite !length_app.
    unfold C. rewrite color_bytes_length.
    cbn [le32 le16 List.length]. lia.
Qed.

End LegacyModeCodec.

Lemma legacy_mode_roundtrip_witness :
  Device.readMode Samples.decode
    (Client.sendMode_data 2 Examples.rainbow_legacy) 8 2
    (Classes.id Examples.rainbow_legacy)
  = Ok (Examples.rainbow_legacy,
        List.length (Client.sendMode_data 2 Examples.rainbow_legacy)).
Proof.
  apply (legacy_mode_roundtrip Samples.decode).
  - intros bs _. reflexivity.
  - lia.
  - unfold Wire.wire_mode_legacy, Wire.u32, Wire.valid_color, Wire.channel.
    cbn. repeat split; try lia.
    + repeat constructor; lia.
    + repeat constructor; cbn; lia.
  - unfold Wire.forced_legacy. eexists. split; [vm_compute; reflexivity|].
    cbn. repeat split; intros; try reflexivity; try discriminate;
      match goal with
      | Hc : _ \/ _ |- _ => destruct Hc; discriminate
      end.
Defined.

(** ** The data of a mode update (client.ts, sendMode) *)

Lemma pack_color_list_length (cs : list Classes.RGBColor) :
  List.length (Client.pack_color_list cs) = (2 + 4 * List.length cs)%nat.
Proof.
  unfold Client.pack_color_list.
  assert (H : forall acc,
            List.length
              (fold_left
                 (fun out element =>
                    out ++ [] ++
                    (Bufferpack.pack_B (Classes.red element)
                     ++ Bufferpack.pack_B (Classes.green element)
                     ++ Bufferpack.pack_B (Classes.blue element) ++ [x00]))
                 cs acc)
            = (List.length acc + 4 * List.length cs)%nat).
  { induction cs as [|c cs IH]; intros acc; cbn [fold_left List.length].
    - lia.
    - rewrite IH, !length_app. cbn [Bufferpack.pack_B List.length]. lia. }
  rewrite H. reflexivity.
Qed.

Lemma pack_Is_length (vs : list Z) :
  List.length (Bufferpack.pack_Is vs) = (4 * List.length vs)%nat.
Proof.
  unfold Bufferpack.pack_Is.
  induction vs as [|v vs IH]; [reflexivity|].
  cbn [map concat]. rewrite length_app, IH.
  cbn [Bufferpack.pack_I le32 List.length]. lia.
Qed.

(** X24.  The data that [sendMode] hands to [sendMessage]: 13 bytes,
    the name, 48 bytes of numbers from protocol 3 on and 36 below, and
    four bytes for every colour; its first four bytes hold the number
    of the bytes that follow them, and the next four the id of the
    mode. *)
Theorem sendMode_data_layout :
  forall (protocolVersion : Z) (m : Classes.Mode),
    let data := Client.sendMode_data protocolVersion m in
    List.length data
    = (13 + List.length (Classes.name m)
       + (if (3 <=? protocolVersion)%Z then 48 else 36)
       + 4 * List.length (Classes.colors m))%nat
    /\ (Z.of_nat (List.length data) <= 4294967295 ->
        readUInt32LE data 0 = Ok (Z.of_nat (List.length data) - 4))
    /\ (Wire.u32 (Classes.id m) -> readUInt32LE data 4 = Ok (Classes.id m)).
Proof.
  intros v m data.
  assert (Hd : exists rest,
            data = Bufferpack.pack_I (Z.of_nat (4 + List.length rest))
                   ++ Bufferpack.pack_I (Classes.id m) ++ rest
            /\ List.length rest
               = (5 + List.length (Classes.name m)
                  + (if (3 <=? v)%Z then 48 else 36)
                  + 4 * List.length (Classes.colors m))%nat).
  { unfold data, Client.sendMode_data. cbv zeta.
    match goal with
    | |- context [Bufferpack.pack_I (Classes.id m) ++ ?r] => exists r
    end.
    split.
    - reflexivity.
    - rewrite !length_app, pack_color_list_length.
      unfold Client.pack_string, pack_s.
      rewrite !length_app, length_map.
      cbn [Bufferpack.pack_H le16 List.length].
      destruct (3 <=? v); rewrite pack_Is_length; cbn [List.length]; lia. }
  destruct Hd as (rest & Hd & Hr).
  assert (Hlen : List.length data = (8 + List.length rest)%nat).
  { rewrite Hd, !length_app. reflexivity. }
  split; [lia|]. split.
  - intros Hu. rewrite Hlen in Hu |- *.
    rewrite Hd, pack_I_u32 by (unfold Wire.u32; lia).
    rewrite readUInt32LE_head by (unfold Wire.u32; lia).
    f_equal. lia.
  - intros Hu. rewrite Hd.
    rewrite (readUInt32LE_in _ (Bufferpack.pack_I (Classes.id m) ++ rest) 4 0)
      by reflexivity.
    rewrite pack_I_u32 by exact Hu. apply readUInt32LE_head. exact Hu.
Qed.

Lemma sendMode_data_layout_witness :
  List.length (Client.sendMode_data 3 Samples.rainbow) = 67%nat
  /\ readUInt32LE (Client.sendMode_data 3 Samples.rainbow) 0 = Ok 63
  /\ readUInt32LE (Client.sendMode_data 3 Samples.rainbow) 4 = Ok 2.
Proof.
  destruct (sendMode_data_layout 3 Samples.rainbow) as (Hl & Hp & Hi).
  split; [exact Hl|]. split.
  - rewrite Hp; [reflexivity | cbn; lia].
  - apply Hi. unfold Wire.u32. cbn. lia.
Defined.
